(** * DeFiLending: a shallow embedding of the lending contract and its ledger properties

    The contract [DeFiLending] (Solidity ^0.8.0) keeps two mappings, [assets] and
    [userPositions], and the array [assetSymbols].

    - Every [uint256] is a [Z]; the checked arithmetic of Solidity 0.8 is written
      out: [checked_add], [checked_sub], [checked_mul] and [checked_div] fail with
      [Panic] instead of wrapping.
    - A mapping is a [gmap]; a slot never written reads as the zero record
      ([readAsset], [readPosition]), a storage write is an [insert].
    - A function returns the new storage or an error.  An error discards every
      write made on the way, which is how a revert behaves.
    - The price feed and the ERC20 token are external contracts.  What they
      answer is read from the environment of the call ([Env]); a call that
      reverts is [None].  The five ledger functions are [nonReentrant], so the
      token cannot run another of them in the middle of a call.
    - [onlyOwner] compares the caller with the stored owner; the functions
      inherited from Ownable that change the owner touch nothing else and are
      left out.
    - The two routes of server.js that read the contract through its views,
      [/api/assets] and [/api/user/:address], are modelled on top of those
      views. *)

From Stdlib Require Import ZArith Lia String.
From stdpp Require Import base option gmap strings list fin_maps.

Open Scope Z_scope.

(** ** Errors and the result monad *)

Inductive error : Type :=
| Revert (reason : string)   (* require(cond, reason) failed *)
| Panic (code : Z)           (* 0x11: overflow or underflow, 0x12: division by zero *)
| CallReverted               (* a call to the price feed or the token reverted *)
| Unauthorized.              (* onlyOwner *)

Inductive result (A : Type) : Type :=
| Ok (a : A)
| Err (e : error).
Arguments Ok {A} a.
Arguments Err {A} e.

#[global] Instance result_ret : MRet result := λ A a, Ok a.
#[global] Instance result_bind : MBind result :=
  λ A B f m, match m with Ok a => f a | Err e => Err e end.

Definition require (cond : bool) (reason : string) : result unit :=
  if cond then Ok tt else Err (Revert reason).

Definition external {A : Type} (answer : option A) : result A :=
  match answer with Some a => Ok a | None => Err CallReverted end.

(** ** uint256 arithmetic, checked as in Solidity 0.8 *)

Definition address : Type := Z.

Definition MAX_UINT256 : Z := 2 ^ 256 - 1.

Definition uint256 (v : Z) : Prop := 0 <= v <= MAX_UINT256.

Definition checked_add (a b : Z) : result Z :=
  if a + b <=? MAX_UINT256 then Ok (a + b) else Err (Panic 17).

Definition checked_sub (a b : Z) : result Z :=
  if b <=? a then Ok (a - b) else Err (Panic 17).

Definition checked_mul (a b : Z) : result Z :=
  if a * b <=? MAX_UINT256 then Ok (a * b) else Err (Panic 17).

Definition checked_div (a b : Z) : result Z :=
  if b =? 0 then Err (Panic 18) else Ok (a / b).

(** [365 days] *)
Definition days_365 : Z := 365 * 86400.

(** ** Storage *)

Record Asset : Type := mkAsset {
  tokenAddress : address;
  priceFeedAddress : address;
  collateralFactor : Z;
  borrowFactor : Z;
  liquidationThreshold : Z;
  totalSupplied : Z;
  totalBorrowed : Z;
  supplyInterestRate : Z;
  borrowInterestRate : Z;
  isActive : bool
}.

Record UserPosition : Type := mkUserPosition {
  supplied : Z;
  borrowed : Z;
  lastUpdateTimestamp : Z
}.

Inductive Event : Type :=
| AssetAdded (symbol : string) (token feed : address)
| AssetUpdated (symbol : string) (cf bf lt : Z)
| Supplied (user : address) (symbol : string) (amount : Z)
| Withdrawn (user : address) (symbol : string) (amount : Z)
| Borrowed (user : address) (symbol : string) (amount : Z)
| Repaid (user : address) (symbol : string) (amount : Z)
| Liquidated (liquidator borrower : address) (symbol : string) (amount : Z).

Record State : Type := mkState {
  owner : address;
  assets : gmap string Asset;
  assetSymbols : list string;
  userPositions : gmap (address * string) UserPosition;
  events : list Event
}.

(** A slot of a mapping that was never written reads as zero. *)
Definition zeroAsset : Asset := mkAsset 0 0 0 0 0 0 0 0 0 false.
Definition zeroPosition : UserPosition := mkUserPosition 0 0 0.

Definition readAsset (st : State) (symbol : string) : Asset :=
  default zeroAsset (assets st !! symbol).

Definition readPosition (st : State) (user : address) (symbol : string) : UserPosition :=
  default zeroPosition (userPositions st !! (user, symbol)).

Definition writeAsset (st : State) (symbol : string) (a : Asset) : State :=
  mkState (owner st) (<[symbol := a]> (assets st)) (assetSymbols st)
          (userPositions st) (events st).

Definition writePosition (st : State) (user : address) (symbol : string)
    (p : UserPosition) : State :=
  mkState (owner st) (assets st) (assetSymbols st)
          (<[(user, symbol) := p]> (userPositions st)) (events st).

Definition pushSymbol (st : State) (symbol : string) : State :=
  mkState (owner st) (assets st) (assetSymbols st ++ [symbol])
          (userPositions st) (events st).

Definition emit (e : Event) (st : State) : State :=
  mkState (owner st) (assets st) (assetSymbols st) (userPositions st)
          (events st ++ [e]).

Definition set_totalSupplied (v : Z) (a : Asset) : Asset :=
  mkAsset (tokenAddress a) (priceFeedAddress a) (collateralFactor a) (borrowFactor a)
          (liquidationThreshold a) v (totalBorrowed a) (supplyInterestRate a)
          (borrowInterestRate a) (isActive a).

Definition set_totalBorrowed (v : Z) (a : Asset) : Asset :=
  mkAsset (tokenAddress a) (priceFeedAddress a) (collateralFactor a) (borrowFactor a)
          (liquidationThreshold a) (totalSupplied a) v (supplyInterestRate a)
          (borrowInterestRate a) (isActive a).

Definition set_supplied (v : Z) (p : UserPosition) : UserPosition :=
  mkUserPosition v (borrowed p) (lastUpdateTimestamp p).

Definition set_borrowed (v : Z) (p : UserPosition) : UserPosition :=
  mkUserPosition (supplied p) v (lastUpdateTimestamp p).

Definition set_lastUpdateTimestamp (v : Z) (p : UserPosition) : UserPosition :=
  mkUserPosition (supplied p) (borrowed p) v.

(** ** The environment of a call *)

Record Env : Type := mkEnv {
  msg_sender : address;
  this : address;                    (* address(this) *)
  block_timestamp : Z;
  (* the int256 answer of priceFeed.latestRoundData(), None when the call reverts *)
  latestRoundData : address -> option Z;
  (* token.transferFrom(from, to, amount) and token.transfer(to, amount):
     the returned bool, None when the call reverts *)
  token_transferFrom : address -> address -> address -> Z -> option bool;
  token_transfer : address -> address -> Z -> option bool
}.

(** ** The contract *)

Definition constructor (deployer : address) : State :=
  mkState deployer ∅ [] ∅ [].

Definition onlyOwner (env : Env) (st : State) : result unit :=
  if msg_sender env =? owner st then Ok tt else Err Unauthorized.

Definition addAsset (env : Env) (st : State) (symbol : string)
    (tokenAddress_ priceFeedAddress_ : address)
    (collateralFactor_ borrowFactor_ liquidationThreshold_
     supplyInterestRate_ borrowInterestRate_ : Z) : result State :=
  onlyOwner env st;;
  require (tokenAddress (readAsset st symbol) =? 0) "Asset already exists";;
  require (collateralFactor_ <=? 9000) "Collateral factor too high";;
  require (borrowFactor_ <=? collateralFactor_) "Borrow factor too high";;
  require (collateralFactor_ <? liquidationThreshold_) "Invalid liquidation threshold";;
  let st1 := writeAsset st symbol
    (mkAsset tokenAddress_ priceFeedAddress_ collateralFactor_ borrowFactor_
             liquidationThreshold_ 0 0 supplyInterestRate_ borrowInterestRate_ true) in
  let st2 := pushSymbol st1 symbol in
  Ok (emit (AssetAdded symbol tokenAddress_ priceFeedAddress_) st2).

Definition updateAsset (env : Env) (st : State) (symbol : string)
    (collateralFactor_ borrowFactor_ liquidationThreshold_
     supplyInterestRate_ borrowInterestRate_ : Z) (isActive_ : bool) : result State :=
  onlyOwner env st;;
  require (negb (tokenAddress (readAsset st symbol) =? 0)) "Asset does not exist";;
  require (collateralFactor_ <=? 9000) "Collateral factor too high";;
  require (borrowFactor_ <=? collateralFactor_) "Borrow factor too high";;
  require (collateralFactor_ <? liquidationThreshold_) "Invalid liquidation threshold";;
  let asset := readAsset st symbol in
  let st1 := writeAsset st symbol
    (mkAsset (tokenAddress asset) (priceFeedAddress asset) collateralFactor_ borrowFactor_
             liquidationThreshold_ (totalSupplied asset) (totalBorrowed asset)
             supplyInterestRate_ borrowInterestRate_ isActive_) in
  Ok (emit (AssetUpdated symbol collateralFactor_ borrowFactor_ liquidationThreshold_) st1).

Definition getAssetPrice (env : Env) (st : State) (symbol : string) : result Z :=
  let asset := readAsset st symbol in
  require (negb (tokenAddress asset =? 0)) "Asset does not exist";;
  price ← external (latestRoundData env (priceFeedAddress asset));
  require (0 <? price) "Invalid price";;
  checked_mul price (10 ^ 10).

Definition _updateInterest (env : Env) (st : State) (symbol : string) (user : address)
    : result State :=
  let asset := readAsset st symbol in
  let position := readPosition st user symbol in
  if lastUpdateTimestamp position =? 0 then
    Ok (writePosition st user symbol
          (set_lastUpdateTimestamp (block_timestamp env) position))
  else
    timeElapsed ← checked_sub (block_timestamp env) (lastUpdateTimestamp position);
    if timeElapsed =? 0 then Ok st
    else
      st1 ← (if 0 <? supplied position then
               m1 ← checked_mul (supplied position) (supplyInterestRate asset);
               m2 ← checked_mul m1 timeElapsed;
               supplyInterest ← checked_div m2 (10000 * days_365);
               s' ← checked_add (supplied position) supplyInterest;
               t' ← checked_add (totalSupplied asset) supplyInterest;
               Ok (writeAsset (writePosition st user symbol (set_supplied s' position))
                              symbol (set_totalSupplied t' asset))
             else Ok st);
      let asset1 := readAsset st1 symbol in
      let position1 := readPosition st1 user symbol in
      st2 ← (if 0 <? borrowed position1 then
               m1 ← checked_mul (borrowed position1) (borrowInterestRate asset1);
               m2 ← checked_mul m1 timeElapsed;
               borrowInterest ← checked_div m2 (10000 * days_365);
               b' ← checked_add (borrowed position1) borrowInterest;
               t' ← checked_add (totalBorrowed asset1) borrowInterest;
               Ok (writeAsset (writePosition st1 user symbol (set_borrowed b' position1))
                              symbol (set_totalBorrowed t' asset1))
             else Ok st1);
      Ok (writePosition st2 user symbol
            (set_lastUpdateTimestamp (block_timestamp env) (readPosition st2 user symbol))).

Definition _checkHealthFactor (env : Env) (st : State) (symbol : string) (user : address)
    (supplied_ borrowed_ : Z) : result bool :=
  if borrowed_ =? 0 then Ok true
  else
    let asset := readAsset st symbol in
    assetPrice ← getAssetPrice env st symbol;
    m1 ← checked_mul supplied_ assetPrice;
    m2 ← checked_mul m1 (collateralFactor asset);
    collateralValue ← checked_div m2 10000;
    borrowValue ← checked_mul borrowed_ assetPrice;
    Ok (borrowValue <=? collateralValue).

Definition _isHealthy (env : Env) (st : State) (symbol : string) (user : address)
    : result bool :=
  let position := readPosition st user symbol in
  if borrowed position =? 0 then Ok true
  else
    let asset := readAsset st symbol in
    assetPrice ← getAssetPrice env st symbol;
    m1 ← checked_mul (supplied position) assetPrice;
    m2 ← checked_mul m1 (liquidationThreshold asset);
    collateralValue ← checked_div m2 10000;
    borrowValue ← checked_mul (borrowed position) assetPrice;
    Ok (borrowValue <=? collateralValue).

Definition getUserHealthFactor (env : Env) (st : State) (symbol : string) (user : address)
    : result Z :=
  let position := readPosition st user symbol in
  if borrowed position =? 0 then Ok MAX_UINT256
  else
    let asset := readAsset st symbol in
    assetPrice ← getAssetPrice env st symbol;
    m1 ← checked_mul (supplied position) assetPrice;
    m2 ← checked_mul m1 (collateralFactor asset);
    collateralValue ← checked_div m2 10000;
    borrowValue ← checked_mul (borrowed position) assetPrice;
    m3 ← checked_mul collateralValue 10000;
    checked_div m3 borrowValue.

Definition supply (env : Env) (st : State) (symbol : string) (amount : Z) : result State :=
  let user := msg_sender env in
  require (isActive (readAsset st symbol)) "Asset not active";;
  require (0 <? amount) "Amount must be greater than 0";;
  st1 ← _updateInterest env st symbol user;
  ok ← external (token_transferFrom env (tokenAddress (readAsset st1 symbol))
                   user (this env) amount);
  require ok "Transfer failed";;
  s' ← checked_add (supplied (readPosition st1 user symbol)) amount;
  let st2 := writePosition st1 user symbol (set_supplied s' (readPosition st1 user symbol)) in
  t' ← checked_add (totalSupplied (readAsset st2 symbol)) amount;
  let st3 := writeAsset st2 symbol (set_totalSupplied t' (readAsset st2 symbol)) in
  Ok (emit (Supplied user symbol amount) st3).

Definition withdraw (env : Env) (st : State) (symbol : string) (amount : Z) : result State :=
  let user := msg_sender env in
  require (isActive (readAsset st symbol)) "Asset not active";;
  require (0 <? amount) "Amount must be greater than 0";;
  require (amount <=? supplied (readPosition st user symbol)) "Insufficient balance";;
  st1 ← _updateInterest env st symbol user;
  let position := readPosition st1 user symbol in
  newSupplied ← checked_sub (supplied position) amount;
  healthy ← _checkHealthFactor env st1 symbol user newSupplied (borrowed position);
  require healthy "Health factor too low";;
  let st2 := writePosition st1 user symbol (set_supplied newSupplied position) in
  t' ← checked_sub (totalSupplied (readAsset st2 symbol)) amount;
  let st3 := writeAsset st2 symbol (set_totalSupplied t' (readAsset st2 symbol)) in
  ok ← external (token_transfer env (tokenAddress (readAsset st3 symbol)) user amount);
  require ok "Transfer failed";;
  Ok (emit (Withdrawn user symbol amount) st3).

Definition borrow (env : Env) (st : State) (symbol : string) (amount : Z) : result State :=
  let user := msg_sender env in
  require (isActive (readAsset st symbol)) "Asset not active";;
  require (0 <? amount) "Amount must be greater than 0";;
  available ← checked_sub (totalSupplied (readAsset st symbol))
                          (totalBorrowed (readAsset st symbol));
  require (amount <=? available) "Insufficient liquidity";;
  st1 ← _updateInterest env st symbol user;
  let position := readPosition st1 user symbol in
  newBorrowed ← checked_add (borrowed position) amount;
  healthy ← _checkHealthFactor env st1 symbol user (supplied position) newBorrowed;
  require healthy "Health factor too low";;
  b' ← checked_add (borrowed position) amount;
  let st2 := writePosition st1 user symbol (set_borrowed b' position) in
  t' ← checked_add (totalBorrowed (readAsset st2 symbol)) amount;
  let st3 := writeAsset st2 symbol (set_totalBorrowed t' (readAsset st2 symbol)) in
  ok ← external (token_transfer env (tokenAddress (readAsset st3 symbol)) user amount);
  require ok "Transfer failed";;
  Ok (emit (Borrowed user symbol amount) st3).

Definition repay (env : Env) (st : State) (symbol : string) (amount : Z) : result State :=
  let user := msg_sender env in
  require (isActive (readAsset st symbol)) "Asset not active";;
  require (0 <? amount) "Amount must be greater than 0";;
  require (0 <? borrowed (readPosition st user symbol)) "No outstanding loan";;
  st1 ← _updateInterest env st symbol user;
  let position := readPosition st1 user symbol in
  let repayAmount := if borrowed position <? amount then borrowed position else amount in
  ok ← external (token_transferFrom env (tokenAddress (readAsset st1 symbol))
                   user (this env) repayAmount);
  require ok "Transfer failed";;
  b' ← checked_sub (borrowed position) repayAmount;
  let st2 := writePosition st1 user symbol (set_borrowed b' position) in
  t' ← checked_sub (totalBorrowed (readAsset st2 symbol)) repayAmount;
  let st3 := writeAsset st2 symbol (set_totalBorrowed t' (readAsset st2 symbol)) in
  Ok (emit (Repaid user symbol repayAmount) st3).

(** [(liquidationAmount * assetPrice * 11000) / (assetPrice * 10000)] *)
Definition collateralToSeize (liquidationAmount assetPrice : Z) : result Z :=
  m1 ← checked_mul liquidationAmount assetPrice;
  m2 ← checked_mul m1 11000;
  d ← checked_mul assetPrice 10000;
  checked_div m2 d.

Definition liquidate (env : Env) (st : State) (borrower : address) (symbol : string)
    (amount : Z) : result State :=
  let liquidator := msg_sender env in
  require (isActive (readAsset st symbol)) "Asset not active";;
  require (0 <? amount) "Amount must be greater than 0";;
  require (0 <? borrowed (readPosition st borrower symbol)) "No outstanding loan";;
  st1 ← _updateInterest env st symbol borrower;
  healthy ← _isHealthy env st1 symbol borrower;
  require (negb healthy) "Position is healthy";;
  let position := readPosition st1 borrower symbol in
  let liquidationAmount :=
    if borrowed position <? amount then borrowed position else amount in
  assetPrice ← getAssetPrice env st1 symbol;
  seize ← collateralToSeize liquidationAmount assetPrice;
  require (seize <=? supplied position) "Insufficient collateral";;
  let token := tokenAddress (readAsset st1 symbol) in
  ok ← external (token_transferFrom env token liquidator (this env) liquidationAmount);
  require ok "Transfer failed";;
  b' ← checked_sub (borrowed position) liquidationAmount;
  let st2 := writePosition st1 borrower symbol (set_borrowed b' position) in
  s' ← checked_sub (supplied (readPosition st2 borrower symbol)) seize;
  let st3 := writePosition st2 borrower symbol
               (set_supplied s' (readPosition st2 borrower symbol)) in
  tb ← checked_sub (totalBorrowed (readAsset st3 symbol)) liquidationAmount;
  let st4 := writeAsset st3 symbol (set_totalBorrowed tb (readAsset st3 symbol)) in
  ts ← checked_sub (totalSupplied (readAsset st4 symbol)) seize;
  let st5 := writeAsset st4 symbol (set_totalSupplied ts (readAsset st4 symbol)) in
  ok2 ← external (token_transfer env token liquidator seize);
  require ok2 "Collateral transfer failed";;
  Ok (emit (Liquidated liquidator borrower symbol liquidationAmount) st5).

Definition getAllAssets (st : State) : list string := assetSymbols st.

Definition getAssetDetails (st : State) (symbol : string) : Asset := readAsset st symbol.

(** ** Transactions

    The external functions of the contract that write storage.  The five ledger
    functions carry [nonReentrant]: while one of them runs, the token cannot call
    back into another, so a call is one uninterrupted run of the function body. *)

Inductive Call : Type :=
| call_addAsset (symbol : string) (token feed : address) (cf bf lt sr br : Z)
| call_updateAsset (symbol : string) (cf bf lt sr br : Z) (active : bool)
| call_supply (symbol : string) (amount : Z)
| call_withdraw (symbol : string) (amount : Z)
| call_borrow (symbol : string) (amount : Z)
| call_repay (symbol : string) (amount : Z)
| call_liquidate (borrower : address) (symbol : string) (amount : Z).

Definition exec (env : Env) (st : State) (c : Call) : result State :=
  match c with
  | call_addAsset symbol token feed cf bf lt sr br =>
      addAsset env st symbol token feed cf bf lt sr br
  | call_updateAsset symbol cf bf lt sr br active =>
      updateAsset env st symbol cf bf lt sr br active
  | call_supply symbol amount => supply env st symbol amount
  | call_withdraw symbol amount => withdraw env st symbol amount
  | call_borrow symbol amount => borrow env st symbol amount
  | call_repay symbol amount => repay env st symbol amount
  | call_liquidate borrower symbol amount => liquidate env st borrower symbol amount
  end.

(** The arguments of a call are [uint256] values. *)
Definition valid_call (c : Call) : Prop :=
  match c with
  | call_addAsset _ token feed cf bf lt sr br =>
      0 <= token /\ 0 <= feed /\
      uint256 cf /\ uint256 bf /\ uint256 lt /\ uint256 sr /\ uint256 br
  | call_updateAsset _ cf bf lt sr br _ =>
      uint256 cf /\ uint256 bf /\ uint256 lt /\ uint256 sr /\ uint256 br
  | call_supply _ amount | call_withdraw _ amount | call_borrow _ amount
  | call_repay _ amount | call_liquidate _ _ amount => uint256 amount
  end.

(** The state a transaction leaves behind: a failed call changes nothing. *)
Definition commit (env : Env) (st : State) (c : Call) : State :=
  match exec env st c with Ok st' => st' | Err _ => st end.

Fixpoint run (st : State) (txs : list (Env * Call)) : result State :=
  match txs with
  | [] => Ok st
  | (env, c) :: rest => st' ← exec env st c; run st' rest
  end.

(** States reachable from deployment by successful calls, each of which meets
    the side condition [P]. *)
Inductive reachable_by (P : Env -> State -> Call -> Prop) : State -> Prop :=
| reach_init (deployer : address) : reachable_by P (constructor deployer)
| reach_step (env : Env) (st : State) (c : Call) (st' : State) :
    reachable_by P st -> valid_call c -> 0 <= block_timestamp env ->
    P env st c -> exec env st c = Ok st' ->
    reachable_by P st'.

Definition reachable : State -> Prop := reachable_by (fun _ _ _ => True).

(** ** Vocabulary of the properties *)

(** Simple interest over [elapsed] seconds at [rate] basis points per year. *)
Definition interest (balance rate elapsed : Z) : Z :=
  balance * rate * elapsed / (10000 * days_365).

(** [m'] is [m] with the slot [k] holding [v]: either [v] was stored there, or
    nothing was written and the slot already read as [v]. *)
Definition updated_at {K V : Type} `{Countable K} (d : V) (m : gmap K V) (k : K) (v : V)
    (m' : gmap K V) : Prop :=
  m' = <[k := v]> m \/ (m' = m /\ default d (m !! k) = v).

Definition add_totals (ds db : Z) (a : Asset) : Asset :=
  set_totalBorrowed (totalBorrowed a + db) (set_totalSupplied (totalSupplied a + ds) a).

(** The footprint of a ledger function: the position of [user] in [symbol] and the
    totals of [symbol] move by the same amounts [ds] and [db]; nothing else is
    written but the event log. *)
Definition moved (st : State) (symbol : string) (user : address) (ds db t : Z)
    (st' : State) : Prop :=
  owner st' = owner st /\ assetSymbols st' = assetSymbols st /\
  updated_at zeroAsset (assets st) symbol (add_totals ds db (readAsset st symbol))
             (assets st') /\
  updated_at zeroPosition (userPositions st) (user, symbol)
             (mkUserPosition (supplied (readPosition st user symbol) + ds)
                             (borrowed (readPosition st user symbol) + db) t)
             (userPositions st').

(** The interest [_updateInterest] adds to a position when called in [env]. *)
Definition supplyInterestDue (env : Env) (st : State) (symbol : string) (user : address) : Z :=
  let position := readPosition st user symbol in
  if lastUpdateTimestamp position =? 0 then 0
  else if 0 <? supplied position
       then interest (supplied position) (supplyInterestRate (readAsset st symbol))
                     (block_timestamp env - lastUpdateTimestamp position)
       else 0.

Definition borrowInterestDue (env : Env) (st : State) (symbol : string) (user : address) : Z :=
  let position := readPosition st user symbol in
  if lastUpdateTimestamp position =? 0 then 0
  else if 0 <? borrowed position
       then interest (borrowed position) (borrowInterestRate (readAsset st symbol))
                     (block_timestamp env - lastUpdateTimestamp position)
       else 0.

(** The position a ledger call works on. *)
Definition target (env : Env) (c : Call) : option (address * string) :=
  match c with
  | call_addAsset _ _ _ _ _ _ _ _ | call_updateAsset _ _ _ _ _ _ _ => None
  | call_supply symbol _ | call_withdraw symbol _ | call_borrow symbol _
  | call_repay symbol _ => Some (msg_sender env, symbol)
  | call_liquidate borrower symbol _ => Some (borrower, symbol)
  end.

(** The risk parameters the contract checks on registration and update. *)
Definition risk_ok (cf bf lt : Z) : Prop := cf <= 9000 /\ bf <= cf /\ cf < lt.

Definition risk_okb (cf bf lt : Z) : bool := (cf <=? 9000) && (bf <=? cf) && (cf <? lt).

Definition invalid_risk_error (e : error) : Prop :=
  e = Revert "Collateral factor too high" \/ e = Revert "Borrow factor too high" \/
  e = Revert "Invalid liquidation threshold".

(** A revert reason, if any, is one of [reasons]. *)
Definition reverts_with (reasons : list string) (e : error) : Prop :=
  match e with Revert r => In r reasons | _ => True end.

(** ** Invariants *)

(** What the registry guarantees about a symbol, listed or not. *)
Definition registry_inv (st : State) : Prop :=
  forall symbol,
    (In symbol (assetSymbols st) ->
     risk_ok (collateralFactor (readAsset st symbol)) (borrowFactor (readAsset st symbol))
             (liquidationThreshold (readAsset st symbol))) /\
    (~ In symbol (assetSymbols st) ->
     readAsset st symbol = zeroAsset /\
     forall user, readPosition st user symbol = zeroPosition).

(** The sum of a balance over all positions held in [symbol]. *)
Definition sum_positions (f : UserPosition -> Z) (symbol : string)
    (m : gmap (address * string) UserPosition) : Z :=
  map_fold (fun k p acc => if decide (snd k = symbol) then f p + acc else acc) 0 m.

(** The collateral of a position covers its debt and the liquidation bonus of a
    tenth on top: debt is at most 10/11 of the collateral. *)
Definition solvent_position (p : UserPosition) : Prop :=
  0 <= borrowed p /\ 11 * borrowed p <= 10 * supplied p.

Definition ledger_inv (st : State) : Prop :=
  (forall symbol,
     totalSupplied (readAsset st symbol) = sum_positions supplied symbol (userPositions st) /\
     totalBorrowed (readAsset st symbol) = sum_positions borrowed symbol (userPositions st)) /\
  (forall k p, userPositions st !! k = Some p -> solvent_position p) /\
  (forall symbol,
     0 <= collateralFactor (readAsset st symbol) <= 9000 /\
     0 <= supplyInterestRate (readAsset st symbol) /\
     0 <= borrowInterestRate (readAsset st symbol)) /\
  (forall symbol user,
     tokenAddress (readAsset st symbol) = 0 ->
     supplied (readPosition st user symbol) = 0 /\
     borrowed (readPosition st user symbol) = 0).

(** No contract lives at the zero address: a token call there never reports
    success. *)
Definition no_code_at_zero (env : Env) : Prop :=
  (forall from to amount, token_transferFrom env 0 from to amount <> Some true) /\
  (forall to amount, token_transfer env 0 to amount <> Some true).

(** A call whose accrual step adds no borrow interest. *)
Definition no_borrow_interest (env : Env) (st : State) (c : Call) : Prop :=
  no_code_at_zero env /\
  match target env c with
  | Some (user, symbol) => borrowInterestDue env st symbol user = 0
  | None => True
  end.



(** ** Runs of transactions *)

Definition uint256b (v : Z) : bool := (0 <=? v) && (v <=? MAX_UINT256).

Definition valid_callb (c : Call) : bool :=
  match c with
  | call_addAsset _ token feed cf bf lt sr br =>
      (0 <=? token) && (0 <=? feed) &&
      uint256b cf && uint256b bf && uint256b lt && uint256b sr && uint256b br
  | call_updateAsset _ cf bf lt sr br _ =>
      uint256b cf && uint256b bf && uint256b lt && uint256b sr && uint256b br
  | call_supply _ amount | call_withdraw _ amount | call_borrow _ amount
  | call_repay _ amount | call_liquidate _ _ amount => uint256b amount
  end.

Definition valid_txb (tx : Env * Call) : bool :=
  (0 <=? block_timestamp (fst tx)) && valid_callb (snd tx).

(** The state after a list of transactions (the start state if one of them fails). *)
Definition run_state (st : State) (txs : list (Env * Call)) : State :=
  match run st txs with Ok st' => st' | Err _ => st end.

(** The state after interest accrual alone (what a ledger function sees next). *)
Definition accrue (env : Env) (st : State) (symbol : string) (user : address) : State :=
  match _updateInterest env st symbol user with Ok st1 => st1 | Err _ => st end.

(** A run each of whose calls is well formed, succeeds, and accrues no borrow
    interest. *)
Definition quiet_txb (st : State) (tx : Env * Call) : bool :=
  valid_txb tx &&
  match target (fst tx) (snd tx) with
  | Some (user, symbol) => borrowInterestDue (fst tx) st symbol user =? 0
  | None => true
  end.

Fixpoint quiet_run (st : State) (txs : list (Env * Call)) : bool :=
  match txs with
  | [] => true
  | tx :: rest =>
      quiet_txb st tx &&
      match exec (fst tx) st (snd tx) with
      | Ok st' => quiet_run st' rest
      | Err _ => false
      end
  end.

(** ** Sample runs

    The owner is account 1, the contract lives at 999, the token of "ETH" at 5
    and its price feed at 6.  In [honest_env] the feed answers [price] and
    every token accepts every transfer; a call to the zero address, where no
    contract lives, reverts. *)

Definition honest_env (sender now price : Z) : Env :=
  mkEnv sender 999 now (fun _ => Some price)
        (fun token _ _ _ => if token =? 0 then None else Some true)
        (fun token _ _ => if token =? 0 then None else Some true).

Definition deployed : State := constructor 1.

(** "ETH" listed with a 75% collateral factor, an 85% liquidation threshold,
    5% supply and 10% borrow interest; account 2 supplies 1000 and borrows 500. *)
Definition open_position : list (Env * Call) :=
  [ (honest_env 1 100 2000, call_addAsset "ETH" 5 6 7500 7000 8500 500 1000);
    (honest_env 2 100 2000, call_supply "ETH" 1000);
    (honest_env 2 100 2000, call_borrow "ETH" 500) ].

Definition funded : State := run_state deployed open_position.

(** Account 2 borrows 100 more at the same time. *)
Definition borrowed_more : State :=
  run_state funded [ (honest_env 2 100 2000, call_borrow "ETH" 100) ].

(** The owner then tightens the parameters and switches the asset off. *)
Definition switched_off : list (Env * Call) :=
  open_position ++
  [ (honest_env 1 200 2000, call_updateAsset "ETH" 1000 1000 2000 500 1000 false) ].

Definition paused : State := run_state deployed switched_off.




(** A listing whose liquidation threshold is 200%. *)
Definition wide_threshold : list (Env * Call) :=
  [ (honest_env 1 100 2000, call_addAsset "ETH" 5 6 7500 7000 20000 500 1000) ].

Definition wide_listed : State := run_state deployed wide_threshold.

(** Account 3 supplies 1000 "ETH" and borrows nothing. *)
Definition deposit_only : list (Env * Call) :=
  [ (honest_env 1 100 2000, call_addAsset "ETH" 5 6 7500 7000 8500 500 1000);
    (honest_env 3 100 2000, call_supply "ETH" 1000) ].

Definition saved : State := run_state deployed deposit_only.

(** One year later, for account 3. *)
Definition year_later : Env := honest_env 3 (100 + days_365) 2000.

(** The same, with a token that answers [false] to every transfer out. *)
Definition year_later_refused : Env :=
  mkEnv 3 999 (100 + days_365) (fun _ => Some 2000)
        (fun token _ _ _ => if token =? 0 then None else Some true)
        (fun token _ _ => if token =? 0 then None else Some false).

(** A year later account 3 supplies 50 more, then withdraws 50 at the same time. *)
Definition topped_up : State := run_state saved [ (year_later, call_supply "ETH" 50) ].

Definition round_trip : State :=
  run_state saved [ (year_later, call_supply "ETH" 50); (year_later, call_withdraw "ETH" 50) ].

(** "ETH" listed with 0% supply and 100% borrow interest; account 2 supplies 1000
    and borrows 700. *)
Definition open_leveraged : list (Env * Call) :=
  [ (honest_env 1 100 2000, call_addAsset "ETH" 5 6 7500 7000 8500 0 10000);
    (honest_env 2 100 2000, call_supply "ETH" 1000);
    (honest_env 2 100 2000, call_borrow "ETH" 700) ].

Definition leveraged : State := run_state deployed open_leveraged.

(** A year after the loan of [leveraged] was taken, account 2 supplies 1 more. *)
Definition late_supply : list (Env * Call) :=
  open_leveraged ++ [ (honest_env 2 (100 + days_365) 2000, call_supply "ETH" 1) ].

Definition overdue : State := run_state deployed late_supply.

(** The same after 146 days (0.4 year) instead, and then account 3 liquidates
    900 of the debt of account 2 at that same time. *)
Definition after_146_days : Z := 100 + 146 * 86400.

Definition early_supply : list (Env * Call) :=
  open_leveraged ++ [ (honest_env 2 after_146_days 2000, call_supply "ETH" 1) ].

Definition grown : State := run_state deployed early_supply.

Definition early_liquidation : list (Env * Call) :=
  early_supply ++ [ (honest_env 3 after_146_days 2000, call_liquidate 2 "ETH" 900) ].

Definition liquidated : State := run_state deployed early_liquidation.

(** ** Well-typed storage *)

(** Every amount, rate and factor of an asset is a [uint256]. *)
Definition typed_asset (a : Asset) : Prop :=
  uint256 (collateralFactor a) /\ uint256 (borrowFactor a) /\
  uint256 (liquidationThreshold a) /\
  uint256 (totalSupplied a) /\ uint256 (totalBorrowed a) /\
  uint256 (supplyInterestRate a) /\ uint256 (borrowInterestRate a).

Definition typed_position (p : UserPosition) : Prop :=
  uint256 (supplied p) /\ uint256 (borrowed p) /\ 0 <= lastUpdateTimestamp p.

Definition typed_state (st : State) : Prop :=
  forall symbol,
    typed_asset (readAsset st symbol) /\
    forall user, typed_position (readPosition st user symbol).

(** ** The books *)

(** The totals of every asset are the sums of its positions, and an asset
    without a token holds no position. *)
Definition books_inv (st : State) : Prop :=
  (forall symbol,
     totalSupplied (readAsset st symbol) = sum_positions supplied symbol (userPositions st) /\
     totalBorrowed (readAsset st symbol) = sum_positions borrowed symbol (userPositions st)) /\
  (forall symbol user,
     tokenAddress (readAsset st symbol) = 0 ->
     supplied (readPosition st user symbol) = 0 /\
     borrowed (readPosition st user symbol) = 0).

(** The only assumption on a call: no contract lives at the zero address. *)
Definition zero_address_empty (env : Env) (st : State) (c : Call) : Prop :=
  no_code_at_zero env.

(** ** Failures *)

(** A failure is a revert with one of [reasons], an arithmetic panic or a
    reverted external call; it is not the owner check. *)
Definition fails_with (reasons : list string) (e : error) : Prop :=
  match e with
  | Revert r => In r reasons
  | Panic _ | CallReverted => True
  | Unauthorized => False
  end.

(** ** The price feed *)

(** Two environments that differ at most in what the price feed answers. *)
Definition same_but_feed (env env' : Env) : Prop :=
  msg_sender env' = msg_sender env /\ this env' = this env /\
  block_timestamp env' = block_timestamp env /\
  (forall token from to amount,
     token_transferFrom env' token from to amount
     = token_transferFrom env token from to amount) /\
  (forall token to amount,
     token_transfer env' token to amount = token_transfer env token to amount).

(** [honest_env] with the feed down: every call to it reverts. *)
Definition feed_down (sender now : Z) : Env :=
  mkEnv sender 999 now (fun _ => None)
        (fun token _ _ _ => if token =? 0 then None else Some true)
        (fun token _ _ => if token =? 0 then None else Some true).

(** ** The event log *)

(** The event a successful call logs.  repay and liquidate log the amount
    settled, which the call may have capped. *)
Definition announces (env : Env) (c : Call) (e : Event) : Prop :=
  match c with
  | call_addAsset symbol token feed _ _ _ _ _ => e = AssetAdded symbol token feed
  | call_updateAsset symbol cf bf lt _ _ _ => e = AssetUpdated symbol cf bf lt
  | call_supply symbol amount => e = Supplied (msg_sender env) symbol amount
  | call_withdraw symbol amount => e = Withdrawn (msg_sender env) symbol amount
  | call_borrow symbol amount => e = Borrowed (msg_sender env) symbol amount
  | call_repay symbol amount =>
      exists paid, paid <= amount /\ e = Repaid (msg_sender env) symbol paid
  | call_liquidate borrower symbol amount =>
      exists repaid, repaid <= amount /\
        e = Liquidated (msg_sender env) borrower symbol repaid
  end.

(** ** The registry *)

(** Every asset is registered with a token other than the zero address. *)
Definition tokens_nonzero (env : Env) (st : State) (c : Call) : Prop :=
  match c with
  | call_addAsset _ token _ _ _ _ _ _ => token <> 0
  | _ => True
  end.

(** The listed symbols are exactly those with a token, each listed once. *)
Definition listing_inv (st : State) : Prop :=
  NoDup (assetSymbols st) /\
  forall symbol, In symbol (assetSymbols st) <-> tokenAddress (readAsset st symbol) <> 0.

(** ** Tokens moved by a call *)

(** The debt of a position once the interest due at the time of the call is
    added: what repay and liquidate cap the amount with. *)
Definition debtDue (env : Env) (st : State) (symbol : string) (user : address) : Z :=
  borrowed (readPosition st user symbol) + borrowInterestDue env st symbol user.

(** The amount a successful call pulls from its caller with [transferFrom]. *)
Definition tokens_in (env : Env) (st : State) (c : Call) : Z :=
  match c with
  | call_supply _ amount => amount
  | call_repay symbol amount => Z.min amount (debtDue env st symbol (msg_sender env))
  | call_liquidate borrower symbol amount => Z.min amount (debtDue env st symbol borrower)
  | _ => 0
  end.

(** The amount a successful call sends to its caller with [transfer]. *)
Definition tokens_out (env : Env) (st : State) (c : Call) : Z :=
  match c with
  | call_withdraw _ amount | call_borrow _ amount => amount
  | call_liquidate borrower symbol amount =>
      Z.min amount (debtDue env st symbol borrower) * 11000 / 10000
  | _ => 0
  end.

(** ** The read API of the server (server.js)

    The Express routes [/api/assets] and [/api/user/:address] read the contract
    through its view functions and answer with JSON.  A route awaits
    [getAllAssets], then, for every symbol, the reads of that symbol
    ([Promise.all] over the mapped list: the answers keep the order of the
    symbols, and one rejected read rejects the whole); a rejection is caught
    and answered with status 500.  All reads of one request are taken to be
    served from the same block, so from one state and one environment.
    [formatEther] and [toString] are the two number formatters of ethers. *)

Inductive Response (A : Type) : Type :=
| res_json (body : A)
| res_status_500 (error : string).
Arguments res_json {A} body.
Arguments res_status_500 {A} error.

Section Server.
Variable formatEther : Z -> string.
Variable toString : Z -> string.

Record AssetJson : Type := mkAssetJson {
  json_symbol : string;
  json_tokenAddress : address;
  json_priceFeedAddress : address;
  json_collateralFactor : string;
  json_borrowFactor : string;
  json_liquidationThreshold : string;
  json_totalSupplied : string;
  json_totalBorrowed : string;
  json_supplyInterestRate : string;
  json_borrowInterestRate : string;
  json_isActive : bool;
  json_price : string
}.

Record PositionJson : Type := mkPositionJson {
  json_position_symbol : string;
  json_supplied : string;
  json_borrowed : string;
  json_lastUpdateTimestamp : string;
  json_healthFactor : string
}.

(** The body of the [map] callback of [/api/assets]. *)
Definition assetEntry (env : Env) (st : State) (symbol : string) : result AssetJson :=
  let details := getAssetDetails st symbol in
  price ← getAssetPrice env st symbol;
  Ok (mkAssetJson symbol (tokenAddress details) (priceFeedAddress details)
        (toString (collateralFactor details)) (toString (borrowFactor details))
        (toString (liquidationThreshold details))
        (formatEther (totalSupplied details)) (formatEther (totalBorrowed details))
        (toString (supplyInterestRate details)) (toString (borrowInterestRate details))
        (isActive details) (formatEther price)).

Definition api_assets (env : Env) (st : State) : Response (list AssetJson) :=
  let assetSymbols := getAllAssets st in
  match mapM (assetEntry env st) assetSymbols with
  | Ok assetsDetails => res_json assetsDetails
  | Err _ => res_status_500 "Failed to fetch assets"
  end.

(** The body of the [map] callback of [/api/user/:address]; [userPositions] is
    the getter of the public mapping. *)
Definition positionEntry (env : Env) (st : State) (address_ : address) (symbol : string)
    : result PositionJson :=
  let position := readPosition st address_ symbol in
  healthFactor ← getUserHealthFactor env st symbol address_;
  Ok (mkPositionJson symbol (formatEther (supplied position)) (formatEther (borrowed position))
        (toString (lastUpdateTimestamp position)) (toString healthFactor)).

Definition api_user (env : Env) (st : State) (address_ : address)
    : Response (list PositionJson) :=
  let assetSymbols := getAllAssets st in
  match mapM (positionEntry env st address_) assetSymbols with
  | Ok userPositions => res_json userPositions
  | Err _ => res_status_500 "Failed to fetch user data"
  end.

End Server.

(** * Properties *)

(** ** Reading the result monad *)

Section Monad.
Context {A B : Type}.

Lemma bind_Ok (m : result A) (f : A -> result B) (b : B) :
  m ≫= f = Ok b -> exists a, m = Ok a /\ f a = Ok b.
Proof. destruct m as [a|e]; cbn; [eauto | discriminate]. Qed.

Lemma bind_Err (m : result A) (f : A -> result B) (e : error) :
  m ≫= f = Err e -> m = Err e \/ exists a, m = Ok a /\ f a = Err e.
Proof. destruct m as [a|e']; cbn; [eauto | intros [= ->]; auto]. Qed.

End Monad.

Lemma require_Ok (c : bool) (msg : string) (u : unit) : require c msg = Ok u -> c = true.
Proof. destruct c; [reflexivity | discriminate]. Qed.

Lemma require_Err (c : bool) (msg : string) (e : error) :
  require c msg = Err e -> c = false /\ e = Revert msg.
Proof. destruct c; cbn; [discriminate | intros [= <-]; auto]. Qed.

Lemma external_Ok {A : Type} (o : option A) (a : A) : external o = Ok a -> o = Some a.
Proof. destruct o; cbn; congruence. Qed.

Lemma external_Err {A : Type} (o : option A) (e : error) :
  external o = Err e -> e = CallReverted.
Proof. destruct o; cbn; congruence. Qed.

Lemma checked_add_Ok (a b r : Z) :
  checked_add a b = Ok r -> r = a + b /\ a + b <= MAX_UINT256.
Proof. unfold checked_add. case_eq (a + b <=? MAX_UINT256); intros H [= <-]. lia. Qed.

Lemma checked_sub_Ok (a b r : Z) : checked_sub a b = Ok r -> r = a - b /\ b <= a.
Proof. unfold checked_sub. case_eq (b <=? a); intros H [= <-]. lia. Qed.

Lemma checked_mul_Ok (a b r : Z) :
  checked_mul a b = Ok r -> r = a * b /\ a * b <= MAX_UINT256.
Proof. unfold checked_mul. case_eq (a * b <=? MAX_UINT256); intros H [= <-]. lia. Qed.

Lemma checked_div_Ok (a b r : Z) : checked_div a b = Ok r -> r = a / b /\ b <> 0.
Proof. unfold checked_div. case_eq (b =? 0); intros H [= <-]. lia. Qed.

Lemma checked_add_fits (a b : Z) : a + b <= MAX_UINT256 -> checked_add a b = Ok (a + b).
Proof. intros H. unfold checked_add. apply Z.leb_le in H. now rewrite H. Qed.

Lemma checked_sub_fits (a b : Z) : b <= a -> checked_sub a b = Ok (a - b).
Proof. intros H. unfold checked_sub. apply Z.leb_le in H. now rewrite H. Qed.

Lemma checked_mul_fits (a b : Z) : a * b <= MAX_UINT256 -> checked_mul a b = Ok (a * b).
Proof. intros H. unfold checked_mul. apply Z.leb_le in H. now rewrite H. Qed.

Lemma checked_div_fits (a b : Z) : b <> 0 -> checked_div a b = Ok (a / b).
Proof. intros H. unfold checked_div. apply Z.eqb_neq in H. now rewrite H. Qed.

(** Take a successful run of a function body apart, statement by statement. *)
Ltac ok_step H :=
  match type of H with
  | Ok _ = Ok _ => injection H as H
  | (if ?c then _ else _) = Ok _ =>
      let E := fresh "Hc" in destruct c eqn:E; [ | try discriminate H ]
  | mbind _ (require _ _) = Ok _ =>
      let u := fresh "u" in let G := fresh "Hreq" in
      apply bind_Ok in H as (u & G & H); apply require_Ok in G
  | mbind _ (external _) = Ok _ =>
      let x := fresh "x" in let G := fresh "Hext" in
      apply bind_Ok in H as (x & G & H); apply external_Ok in G
  | mbind _ (checked_add _ _) = Ok _ =>
      let x := fresh "x" in let G := fresh "Hadd" in
      apply bind_Ok in H as (x & G & H); apply checked_add_Ok in G as [-> G]
  | mbind _ (checked_sub _ _) = Ok _ =>
      let x := fresh "x" in let G := fresh "Hsub" in
      apply bind_Ok in H as (x & G & H); apply checked_sub_Ok in G as [-> G]
  | mbind _ (checked_mul _ _) = Ok _ =>
      let x := fresh "x" in let G := fresh "Hmul" in
      apply bind_Ok in H as (x & G & H); apply checked_mul_Ok in G as [-> G]
  | mbind _ (checked_div _ _) = Ok _ =>
      let x := fresh "x" in let G := fresh "Hdiv" in
      apply bind_Ok in H as (x & G & H); apply checked_div_Ok in G as [-> G]
  | checked_add _ _ = Ok _ => apply checked_add_Ok in H as [-> H]
  | checked_sub _ _ = Ok _ => apply checked_sub_Ok in H as [-> H]
  | checked_mul _ _ = Ok _ => apply checked_mul_Ok in H as [-> H]
  | checked_div _ _ = Ok _ => apply checked_div_Ok in H as [-> H]
  | mbind _ _ = Ok _ =>
      let x := fresh "x" in let G := fresh "Hcall" in
      apply bind_Ok in H as (x & G & H)
  end.

Ltac ok_steps H := repeat (ok_step H; cbn beta zeta in H).

(** ** Reads after writes *)

Lemma readAsset_writeAsset (st : State) (s s' : string) (a : Asset) :
  readAsset (writeAsset st s a) s' = if decide (s = s') then a else readAsset st s'.
Proof.
  unfold readAsset, writeAsset; cbn. rewrite lookup_insert.
  destruct (decide (s = s')); reflexivity.
Qed.

Lemma readAsset_writeAsset_eq (st : State) (s : string) (a : Asset) :
  readAsset (writeAsset st s a) s = a.
Proof. rewrite readAsset_writeAsset. now rewrite decide_True. Qed.

Lemma readAsset_writeAsset_ne (st : State) (s s' : string) (a : Asset) :
  s <> s' -> readAsset (writeAsset st s a) s' = readAsset st s'.
Proof. intros H. rewrite readAsset_writeAsset. now rewrite decide_False. Qed.

Lemma readPosition_writePosition (st : State) (u u' : address) (s s' : string)
    (p : UserPosition) :
  readPosition (writePosition st u s p) u' s' =
  if decide ((u, s) = (u', s')) then p else readPosition st u' s'.
Proof.
  unfold readPosition, writePosition; cbn. rewrite lookup_insert.
  destruct (decide ((u, s) = (u', s'))); reflexivity.
Qed.

Lemma readPosition_writePosition_eq (st : State) (u : address) (s : string)
    (p : UserPosition) :
  readPosition (writePosition st u s p) u s = p.
Proof. rewrite readPosition_writePosition. now rewrite decide_True. Qed.

Lemma readPosition_writePosition_ne (st : State) (u u' : address) (s s' : string)
    (p : UserPosition) :
  (u, s) <> (u', s') -> readPosition (writePosition st u s p) u' s' = readPosition st u' s'.
Proof. intros H. rewrite readPosition_writePosition. now rewrite decide_False. Qed.

Lemma readAsset_writePosition (st : State) (u : address) (s s' : string) (p : UserPosition) :
  readAsset (writePosition st u s p) s' = readAsset st s'.
Proof. reflexivity. Qed.

Lemma readPosition_writeAsset (st : State) (s s' : string) (a : Asset) (u : address) :
  readPosition (writeAsset st s a) u s' = readPosition st u s'.
Proof. reflexivity. Qed.

Lemma readAsset_emit (e : Event) (st : State) (s : string) :
  readAsset (emit e st) s = readAsset st s.
Proof. reflexivity. Qed.

Lemma readPosition_emit (e : Event) (st : State) (u : address) (s : string) :
  readPosition (emit e st) u s = readPosition st u s.
Proof. reflexivity. Qed.

(** ** Footprints *)

Section Updated.
Context {K V : Type} `{Countable K} (d : V).

Lemma updated_at_lookup (m m' : gmap K V) (k : K) (v : V) :
  updated_at d m k v m' -> default d (m' !! k) = v.
Proof. intros [-> | [-> Hv]]; [now rewrite lookup_insert_eq | exact Hv]. Qed.

Lemma updated_at_other (m m' : gmap K V) (k k' : K) (v : V) :
  updated_at d m k v m' -> k <> k' -> m' !! k' = m !! k'.
Proof. intros [-> | [-> Hv]] Hne; [now rewrite lookup_insert_ne | reflexivity]. Qed.

Lemma updated_at_trans (m m' m'' : gmap K V) (k : K) (v v' : V) :
  updated_at d m k v m' -> updated_at d m' k v' m'' -> updated_at d m k v' m''.
Proof.
  intros [-> | [-> Hv]] [-> | [-> Hv']].
  - left. apply insert_insert_eq.
  - left. rewrite lookup_insert_eq in Hv'. cbn in Hv'. now subst.
  - now left.
  - right. split; [reflexivity | exact Hv'].
Qed.

Lemma updated_at_insert (m : gmap K V) (k : K) (v : V) : updated_at d m k v (<[k := v]> m).
Proof. now left. Qed.

End Updated.

Lemma add_totals_0 (a : Asset) : add_totals 0 0 a = a.
Proof. destruct a; unfold add_totals, set_totalBorrowed, set_totalSupplied; cbn. f_equal; lia. Qed.

Lemma add_totals_add (ds db ds' db' : Z) (a : Asset) :
  add_totals ds' db' (add_totals ds db a) = add_totals (ds + ds') (db + db') a.
Proof. destruct a; unfold add_totals, set_totalBorrowed, set_totalSupplied; cbn. f_equal; lia. Qed.

Lemma moved_readAsset (st st' : State) (sym : string) (u : address) (ds db t : Z) (s' : string) :
  moved st sym u ds db t st' ->
  readAsset st' s' = if decide (sym = s') then add_totals ds db (readAsset st sym)
                     else readAsset st s'.
Proof.
  intros (_ & _ & Ha & _). unfold readAsset at 1. destruct (decide (sym = s')) as [<- | Hne].
  - exact (updated_at_lookup _ _ _ _ _ Ha).
  - now rewrite (updated_at_other _ _ _ _ _ _ Ha Hne).
Qed.

Lemma moved_readPosition (st st' : State) (sym : string) (u : address) (ds db t : Z)
    (u' : address) (s' : string) :
  moved st sym u ds db t st' ->
  readPosition st' u' s' =
  if decide ((u, sym) = (u', s'))
  then mkUserPosition (supplied (readPosition st u sym) + ds)
                      (borrowed (readPosition st u sym) + db) t
  else readPosition st u' s'.
Proof.
  intros (_ & _ & _ & Hp). unfold readPosition at 1.
  destruct (decide ((u, sym) = (u', s'))) as [<- | Hne].
  - exact (updated_at_lookup _ _ _ _ _ Hp).
  - now rewrite (updated_at_other _ _ _ _ _ _ Hp Hne).
Qed.

Lemma moved_trans (st st1 st2 : State) (sym : string) (u : address) (ds db t ds' db' t' : Z) :
  moved st sym u ds db t st1 -> moved st1 sym u ds' db' t' st2 ->
  moved st sym u (ds + ds') (db + db') t' st2.
Proof.
  intros H1 H2.
  pose proof (moved_readAsset _ _ _ _ _ _ _ sym H1) as Ra. rewrite decide_True in Ra by done.
  pose proof (moved_readPosition _ _ _ _ _ _ _ u sym H1) as Rp.
  rewrite decide_True in Rp by done.
  destruct H1 as (Ho & Hs & Ha & Hp), H2 as (Ho' & Hs' & Ha' & Hp').
  repeat split; try congruence.
  - rewrite Ra, add_totals_add in Ha'. eapply updated_at_trans; eassumption.
  - rewrite Rp in Hp'; cbn in Hp'. rewrite <- !Z.add_assoc in Hp'.
    eapply updated_at_trans; eassumption.
Qed.

Lemma moved_write (st : State) (sym : string) (u : address) (ds db t : Z) (e : list Event) :
  moved st sym u ds db t
    (mkState (owner st)
       (<[sym := add_totals ds db (readAsset st sym)]> (assets st)) (assetSymbols st)
       (<[(u, sym) := mkUserPosition (supplied (readPosition st u sym) + ds)
                                     (borrowed (readPosition st u sym) + db) t]>
          (userPositions st)) e).
Proof. repeat split; cbn; apply updated_at_insert. Qed.

Lemma moved_refl (st : State) (sym : string) (u : address) :
  moved st sym u 0 0 (lastUpdateTimestamp (readPosition st u sym)) st.
Proof.
  repeat split.
  - right. split; [reflexivity|]. now rewrite add_totals_0.
  - right. split; [reflexivity|]. rewrite !Z.add_0_r.
    fold (readPosition st u sym). now destruct (readPosition st u sym).
Qed.

Lemma writePosition_twice (st : State) (u : address) (sym : string) (p p' : UserPosition) :
  writePosition (writePosition st u sym p) u sym p' = writePosition st u sym p'.
Proof. unfold writePosition; cbn. now rewrite insert_insert_eq. Qed.

Lemma writeAsset_twice (st : State) (sym : string) (a a' : Asset) :
  writeAsset (writeAsset st sym a) sym a' = writeAsset st sym a'.
Proof. unfold writeAsset; cbn. now rewrite insert_insert_eq. Qed.

Lemma moved_emit (st st' : State) (sym : string) (u : address) (ds db t : Z) (e : Event) :
  moved st sym u ds db t st' -> moved st sym u ds db t (emit e st').
Proof. intros H; exact H. Qed.

Lemma moved_both (st : State) (sym : string) (u : address) (ds db t : Z) (a : Asset)
    (p : UserPosition) :
  a = add_totals ds db (readAsset st sym) ->
  p = mkUserPosition (supplied (readPosition st u sym) + ds)
                     (borrowed (readPosition st u sym) + db) t ->
  moved st sym u ds db t (writeAsset (writePosition st u sym p) sym a).
Proof. intros -> ->. exact (moved_write st sym u ds db t (events st)). Qed.

Lemma moved_touch (st : State) (sym : string) (u : address) (t : Z) :
  moved st sym u 0 0 t
    (writePosition st u sym (set_lastUpdateTimestamp t (readPosition st u sym))).
Proof.
  repeat split; cbn.
  - right. split; [reflexivity|]. now rewrite add_totals_0.
  - left. unfold set_lastUpdateTimestamp. now rewrite !Z.add_0_r.
Qed.

Lemma set_supplied_add (ds : Z) (p : UserPosition) :
  set_supplied (supplied p + ds) p =
  mkUserPosition (supplied p + ds) (borrowed p + 0) (lastUpdateTimestamp p).
Proof. unfold set_supplied. now rewrite Z.add_0_r. Qed.

Lemma set_borrowed_add (db : Z) (p : UserPosition) :
  set_borrowed (borrowed p + db) p =
  mkUserPosition (supplied p + 0) (borrowed p + db) (lastUpdateTimestamp p).
Proof. unfold set_borrowed. now rewrite Z.add_0_r. Qed.

Lemma set_totalSupplied_add (ds : Z) (a : Asset) :
  set_totalSupplied (totalSupplied a + ds) a = add_totals ds 0 a.
Proof.
  destruct a; unfold add_totals, set_totalBorrowed, set_totalSupplied; cbn. f_equal; lia.
Qed.

Lemma set_totalBorrowed_add (db : Z) (a : Asset) :
  set_totalBorrowed (totalBorrowed a + db) a = add_totals 0 db a.
Proof.
  destruct a; unfold add_totals, set_totalBorrowed, set_totalSupplied; cbn. f_equal; lia.
Qed.

Lemma moved_supplied (st : State) (sym : string) (u : address) (ds : Z) :
  moved st sym u ds 0 (lastUpdateTimestamp (readPosition st u sym))
    (writeAsset
       (writePosition st u sym
          (set_supplied (supplied (readPosition st u sym) + ds) (readPosition st u sym)))
       sym (set_totalSupplied (totalSupplied (readAsset st sym) + ds) (readAsset st sym))).
Proof. apply moved_both; [apply set_totalSupplied_add | apply set_supplied_add]. Qed.

Lemma moved_borrowed (st : State) (sym : string) (u : address) (db : Z) :
  moved st sym u 0 db (lastUpdateTimestamp (readPosition st u sym))
    (writeAsset
       (writePosition st u sym
          (set_borrowed (borrowed (readPosition st u sym) + db) (readPosition st u sym)))
       sym (set_totalBorrowed (totalBorrowed (readAsset st sym) + db) (readAsset st sym))).
Proof. apply moved_both; [apply set_totalBorrowed_add | apply set_borrowed_add]. Qed.

(** ** Interest accrual *)

Lemma accrue_supply_step (st : State) (sym : string) (u : address) (el : Z) (sta : State) :
  (if 0 <? supplied (readPosition st u sym) then
     m1 ← checked_mul (supplied (readPosition st u sym))
                      (supplyInterestRate (readAsset st sym));
     m2 ← checked_mul m1 el;
     supplyInterest ← checked_div m2 (10000 * days_365);
     s' ← checked_add (supplied (readPosition st u sym)) supplyInterest;
     t' ← checked_add (totalSupplied (readAsset st sym)) supplyInterest;
     Ok (writeAsset (writePosition st u sym (set_supplied s' (readPosition st u sym)))
                    sym (set_totalSupplied t' (readAsset st sym)))
   else Ok st) = Ok sta ->
  events sta = events st /\
  moved st sym u
    (if 0 <? supplied (readPosition st u sym)
     then interest (supplied (readPosition st u sym)) (supplyInterestRate (readAsset st sym)) el
     else 0)
    0 (lastUpdateTimestamp (readPosition st u sym)) sta.
Proof.
  intros H. destruct (0 <? supplied (readPosition st u sym)).
  - ok_steps H. subst sta. split; [reflexivity|]. apply moved_supplied.
  - injection H as <-. split; [reflexivity|]. apply moved_refl.
Qed.

Lemma accrue_borrow_step (st : State) (sym : string) (u : address) (el : Z) (stb : State) :
  (if 0 <? borrowed (readPosition st u sym) then
     m1 ← checked_mul (borrowed (readPosition st u sym))
                      (borrowInterestRate (readAsset st sym));
     m2 ← checked_mul m1 el;
     borrowInterest ← checked_div m2 (10000 * days_365);
     b' ← checked_add (borrowed (readPosition st u sym)) borrowInterest;
     t' ← checked_add (totalBorrowed (readAsset st sym)) borrowInterest;
     Ok (writeAsset (writePosition st u sym (set_borrowed b' (readPosition st u sym)))
                    sym (set_totalBorrowed t' (readAsset st sym)))
   else Ok st) = Ok stb ->
  events stb = events st /\
  moved st sym u 0
    (if 0 <? borrowed (readPosition st u sym)
     then interest (borrowed (readPosition st u sym)) (borrowInterestRate (readAsset st sym)) el
     else 0)
    (lastUpdateTimestamp (readPosition st u sym)) stb.
Proof.
  intros H. destruct (0 <? borrowed (readPosition st u sym)).
  - ok_steps H. subst stb. split; [reflexivity|]. apply moved_borrowed.
  - injection H as <-. split; [reflexivity|]. apply moved_refl.
Qed.

Lemma _updateInterest_cases (env : Env) (st : State) (sym : string) (u : address) (st1 : State) :
  _updateInterest env st sym u = Ok st1 ->
  let pos := readPosition st u sym in
  let a := readAsset st sym in
  let now := block_timestamp env in
  (lastUpdateTimestamp pos = 0 /\
   st1 = writePosition st u sym (set_lastUpdateTimestamp now pos))
  \/ (lastUpdateTimestamp pos <> 0 /\ now = lastUpdateTimestamp pos /\ st1 = st)
  \/ (lastUpdateTimestamp pos <> 0 /\ lastUpdateTimestamp pos < now /\
      events st1 = events st /\
      moved st sym u
        (if 0 <? supplied pos
         then interest (supplied pos) (supplyInterestRate a) (now - lastUpdateTimestamp pos)
         else 0)
        (if 0 <? borrowed pos
         then interest (borrowed pos) (borrowInterestRate a) (now - lastUpdateTimestamp pos)
         else 0)
        now st1).
Proof.
  intros H pos a now. unfold _updateInterest in H.
  fold pos a now in H.
  destruct (lastUpdateTimestamp pos =? 0) eqn:E0.
  { left. apply Z.eqb_eq in E0. injection H as <-. auto. }
  apply Z.eqb_neq in E0. right.
  ok_step H. cbn beta zeta in H.
  destruct (now - lastUpdateTimestamp pos =? 0) eqn:E1.
  { left. apply Z.eqb_eq in E1. injection H as <-. repeat split; [exact E0 | lia]. }
  apply Z.eqb_neq in E1. right.
  split; [exact E0|]. split; [lia|].
  apply bind_Ok in H as (sta & Ha & H).
  apply bind_Ok in H as (stb & Hb & H).
  injection H as <-.
  apply accrue_supply_step in Ha as [Ea Ma].
  apply accrue_borrow_step in Hb as [Eb Mb].
  pose proof (moved_readAsset _ _ _ _ _ _ _ sym Ma) as Ra. rewrite decide_True in Ra by done.
  pose proof (moved_readPosition _ _ _ _ _ _ _ u sym Ma) as Rp.
  rewrite decide_True in Rp by done.
  rewrite Rp, Ra in Mb. cbn in Mb. rewrite Z.add_0_r in Mb.
  fold pos a in Ma, Mb.
  split; [cbn; congruence|].
  pose proof (moved_trans _ _ _ _ _ _ _ _ _ _ _ Ma Mb) as M1.
  pose proof (moved_trans _ _ _ _ _ _ _ _ _ _ _ M1 (moved_touch stb sym u now)) as M2.
  rewrite !Z.add_0_r, !Z.add_0_l in M2. exact M2.
Qed.

(** ** What a successful call did *)

Ltac exists_accrued :=
  match goal with H : _updateInterest _ _ _ _ = Ok ?x |- _ => exists x end.

Ltac simpl_reads :=
  repeat first
    [ rewrite readAsset_writePosition in *
    | rewrite readPosition_writeAsset in *
    | rewrite readPosition_writePosition_eq in *
    | rewrite readAsset_writeAsset_eq in *
    | rewrite readAsset_emit in *
    | rewrite readPosition_emit in * ].

Lemma supply_Ok (env : Env) (st : State) (sym : string) (amount : Z) (st' : State) :
  supply env st sym amount = Ok st' ->
  exists st1,
    let u := msg_sender env in
    let p1 := readPosition st1 u sym in
    let a1 := readAsset st1 sym in
    isActive (readAsset st sym) = true /\ 0 < amount /\
    _updateInterest env st sym u = Ok st1 /\
    token_transferFrom env (tokenAddress a1) u (this env) amount = Some true /\
    supplied p1 + amount <= MAX_UINT256 /\
    totalSupplied a1 + amount <= MAX_UINT256 /\
    st' = emit (Supplied u sym amount)
            (writeAsset (writePosition st1 u sym (set_supplied (supplied p1 + amount) p1))
                        sym (set_totalSupplied (totalSupplied a1 + amount) a1)).
Proof.
  intros H. unfold supply in H. cbn beta zeta in H. ok_steps H.
  simpl_reads. subst. exists_accrued. cbn zeta. apply Z.ltb_lt in Hreq0.
  repeat split; auto.
Qed.

Lemma withdraw_Ok (env : Env) (st : State) (sym : string) (amount : Z) (st' : State) :
  withdraw env st sym amount = Ok st' ->
  exists st1,
    let u := msg_sender env in
    let p1 := readPosition st1 u sym in
    let a1 := readAsset st1 sym in
    isActive (readAsset st sym) = true /\ 0 < amount /\
    amount <= supplied (readPosition st u sym) /\
    _updateInterest env st sym u = Ok st1 /\
    amount <= supplied p1 /\
    _checkHealthFactor env st1 sym u (supplied p1 - amount) (borrowed p1) = Ok true /\
    amount <= totalSupplied a1 /\
    token_transfer env (tokenAddress a1) u amount = Some true /\
    st' = emit (Withdrawn u sym amount)
            (writeAsset (writePosition st1 u sym (set_supplied (supplied p1 - amount) p1))
                        sym (set_totalSupplied (totalSupplied a1 - amount) a1)).
Proof.
  intros H. unfold withdraw in H. cbn beta zeta in H. ok_steps H.
  simpl_reads. subst. exists_accrued. cbn zeta.
  apply Z.ltb_lt in Hreq0. apply Z.leb_le in Hreq1.
  repeat split; auto.
Qed.

Lemma borrow_Ok (env : Env) (st : State) (sym : string) (amount : Z) (st' : State) :
  borrow env st sym amount = Ok st' ->
  exists st1,
    let u := msg_sender env in
    let p1 := readPosition st1 u sym in
    let a1 := readAsset st1 sym in
    isActive (readAsset st sym) = true /\ 0 < amount /\
    totalBorrowed (readAsset st sym) <= totalSupplied (readAsset st sym) /\
    amount <= totalSupplied (readAsset st sym) - totalBorrowed (readAsset st sym) /\
    _updateInterest env st sym u = Ok st1 /\
    borrowed p1 + amount <= MAX_UINT256 /\
    _checkHealthFactor env st1 sym u (supplied p1) (borrowed p1 + amount) = Ok true /\
    totalBorrowed a1 + amount <= MAX_UINT256 /\
    token_transfer env (tokenAddress a1) u amount = Some true /\
    st' = emit (Borrowed u sym amount)
            (writeAsset (writePosition st1 u sym (set_borrowed (borrowed p1 + amount) p1))
                        sym (set_totalBorrowed (totalBorrowed a1 + amount) a1)).
Proof.
  intros H. unfold borrow in H. cbn beta zeta in H. ok_steps H.
  simpl_reads. subst. exists_accrued. cbn zeta.
  apply Z.ltb_lt in Hreq0. apply Z.leb_le in Hreq1.
  repeat split; auto.
Qed.

Lemma repay_Ok (env : Env) (st : State) (sym : string) (amount : Z) (st' : State) :
  repay env st sym amount = Ok st' ->
  exists st1,
    let u := msg_sender env in
    let p1 := readPosition st1 u sym in
    let a1 := readAsset st1 sym in
    let repayAmount := Z.min amount (borrowed p1) in
    isActive (readAsset st sym) = true /\ 0 < amount /\
    0 < borrowed (readPosition st u sym) /\
    _updateInterest env st sym u = Ok st1 /\
    token_transferFrom env (tokenAddress a1) u (this env) repayAmount = Some true /\
    repayAmount <= totalBorrowed a1 /\
    st' = emit (Repaid u sym repayAmount)
            (writeAsset (writePosition st1 u sym (set_borrowed (borrowed p1 - repayAmount) p1))
                        sym (set_totalBorrowed (totalBorrowed a1 - repayAmount) a1)).
Proof.
  intros H. unfold repay in H. cbn beta zeta in H. ok_steps H.
  simpl_reads. subst. exists_accrued. cbn zeta.
  apply Z.ltb_lt in Hreq0, Hreq1.
  assert (Hm : (if borrowed (readPosition x (msg_sender env) sym) <? amount
                then borrowed (readPosition x (msg_sender env) sym) else amount)
               = Z.min amount (borrowed (readPosition x (msg_sender env) sym))).
  { destruct (Z.ltb_spec (borrowed (readPosition x (msg_sender env) sym)) amount); lia. }
  rewrite Hm in *.
  repeat split; auto.
Qed.

Lemma liquidate_Ok (env : Env) (st : State) (b : address) (sym : string) (amount : Z)
    (st' : State) :
  liquidate env st b sym amount = Ok st' ->
  exists st1 price seize,
    let p1 := readPosition st1 b sym in
    let a1 := readAsset st1 sym in
    let liquidationAmount := Z.min amount (borrowed p1) in
    isActive (readAsset st sym) = true /\ 0 < amount /\
    0 < borrowed (readPosition st b sym) /\
    _updateInterest env st sym b = Ok st1 /\
    _isHealthy env st1 sym b = Ok false /\
    getAssetPrice env st1 sym = Ok price /\
    collateralToSeize liquidationAmount price = Ok seize /\
    seize <= supplied p1 /\
    token_transferFrom env (tokenAddress a1) (msg_sender env) (this env) liquidationAmount
      = Some true /\
    liquidationAmount <= totalBorrowed a1 /\
    seize <= totalSupplied a1 /\
    st' = emit (Liquidated (msg_sender env) b sym liquidationAmount)
            (writeAsset
               (writePosition st1 b sym
                  (mkUserPosition (supplied p1 - seize) (borrowed p1 - liquidationAmount)
                                  (lastUpdateTimestamp p1)))
               sym (add_totals (- seize) (- liquidationAmount) a1)).
Proof.
  intros H. unfold liquidate in H. cbn beta zeta in H. ok_steps H.
  rewrite !writePosition_twice, !writeAsset_twice in H.
  simpl_reads. cbn [supplied borrowed set_borrowed set_supplied lastUpdateTimestamp] in *.
  simpl_reads. cbn [totalSupplied totalBorrowed set_totalBorrowed] in *.
  subst st'. exists x, x1, x2. cbn zeta.
  apply Z.ltb_lt in Hreq0, Hreq1. apply Z.leb_le in Hreq3.
  assert (Hm : (if borrowed (readPosition x b sym) <? amount
                then borrowed (readPosition x b sym) else amount)
               = Z.min amount (borrowed (readPosition x b sym))).
  { destruct (Z.ltb_spec (borrowed (readPosition x b sym)) amount); lia. }
  rewrite Hm in *.
  destruct x0; [discriminate|].
  repeat match goal with H : ?v = true |- _ => is_var v; subst v end.
  repeat split; auto.
Qed.

Lemma min_as_code (a b : Z) : (if b <? a then b else a) = Z.min a b.
Proof. destruct (Z.ltb_spec b a); lia. Qed.

Lemma liquidate_pays_out (env : Env) (st : State) (b : address) (sym : string) (amount : Z)
    (st' : State) :
  liquidate env st b sym amount = Ok st' ->
  exists st1 price seize,
    _updateInterest env st sym b = Ok st1 /\
    getAssetPrice env st1 sym = Ok price /\
    collateralToSeize (Z.min amount (borrowed (readPosition st1 b sym))) price = Ok seize /\
    token_transfer env (tokenAddress (readAsset st1 sym)) (msg_sender env) seize = Some true.
Proof.
  intros H. unfold liquidate in H. cbn beta zeta in H. ok_steps H.
  rewrite (min_as_code amount (borrowed (readPosition x b sym))) in *.
  repeat match goal with H : ?v = true |- _ => is_var v; subst v end.
  exists x, x1, x2. repeat split; assumption.
Qed.

Lemma interest_0 (b r : Z) : interest b r 0 = 0.
Proof. unfold interest. now rewrite Z.mul_0_r. Qed.

Lemma _updateInterest_moved (env : Env) (st : State) (sym : string) (u : address) (st1 : State) :
  _updateInterest env st sym u = Ok st1 ->
  moved st sym u (supplyInterestDue env st sym u) (borrowInterestDue env st sym u)
        (block_timestamp env) st1.
Proof.
  intros H. apply _updateInterest_cases in H. cbn zeta in H.
  unfold supplyInterestDue, borrowInterestDue.
  destruct H as [[E0 ->] | [(E0 & E1 & ->) | (E0 & E1 & _ & M)]].
  - rewrite E0. cbn. apply moved_touch.
  - apply Z.eqb_neq in E0. rewrite E0, E1, Z.sub_diag, !interest_0.
    replace (if 0 <? supplied (readPosition st u sym) then 0 else 0) with 0
      by now destruct (0 <? _).
    replace (if 0 <? borrowed (readPosition st u sym) then 0 else 0) with 0
      by now destruct (0 <? _).
    apply moved_refl.
  - apply Z.eqb_neq in E0. rewrite E0. exact M.
Qed.

Lemma accrued_timestamp (env : Env) (st : State) (sym : string) (u : address) (st1 : State) :
  _updateInterest env st sym u = Ok st1 ->
  lastUpdateTimestamp (readPosition st1 u sym) = block_timestamp env.
Proof.
  intros H. apply _updateInterest_moved in H.
  rewrite (moved_readPosition _ _ _ _ _ _ _ u sym H), decide_True by done. reflexivity.
Qed.

Lemma supply_moved (env : Env) (st : State) (sym : string) (amount : Z) (st' : State) :
  supply env st sym amount = Ok st' ->
  moved st sym (msg_sender env)
        (supplyInterestDue env st sym (msg_sender env) + amount)
        (borrowInterestDue env st sym (msg_sender env) + 0) (block_timestamp env) st'.
Proof.
  intros H. apply supply_Ok in H as (st1 & _ & _ & Hacc & _ & _ & _ & ->).
  eapply moved_trans; [apply _updateInterest_moved, Hacc|].
  apply moved_emit. rewrite <- (accrued_timestamp _ _ _ _ _ Hacc). apply moved_supplied.
Qed.

Lemma withdraw_moved (env : Env) (st : State) (sym : string) (amount : Z) (st' : State) :
  withdraw env st sym amount = Ok st' ->
  moved st sym (msg_sender env)
        (supplyInterestDue env st sym (msg_sender env) + - amount)
        (borrowInterestDue env st sym (msg_sender env) + 0) (block_timestamp env) st'.
Proof.
  intros H. apply withdraw_Ok in H as (st1 & _ & _ & _ & Hacc & _ & _ & _ & _ & ->).
  eapply moved_trans; [apply _updateInterest_moved, Hacc|].
  apply moved_emit. rewrite <- (accrued_timestamp _ _ _ _ _ Hacc).
  exact (moved_supplied st1 sym (msg_sender env) (- amount)).
Qed.

Lemma borrow_moved (env : Env) (st : State) (sym : string) (amount : Z) (st' : State) :
  borrow env st sym amount = Ok st' ->
  moved st sym (msg_sender env)
        (supplyInterestDue env st sym (msg_sender env) + 0)
        (borrowInterestDue env st sym (msg_sender env) + amount) (block_timestamp env) st'.
Proof.
  intros H. apply borrow_Ok in H as (st1 & _ & _ & _ & _ & Hacc & _ & _ & _ & _ & ->).
  eapply moved_trans; [apply _updateInterest_moved, Hacc|].
  apply moved_emit. rewrite <- (accrued_timestamp _ _ _ _ _ Hacc). apply moved_borrowed.
Qed.

Lemma repay_moved (env : Env) (st : State) (sym : string) (amount : Z) (st' : State) :
  repay env st sym amount = Ok st' ->
  moved st sym (msg_sender env)
        (supplyInterestDue env st sym (msg_sender env) + 0)
        (borrowInterestDue env st sym (msg_sender env) +
         - Z.min amount (borrowed (readPosition st (msg_sender env) sym) +
                         borrowInterestDue env st sym (msg_sender env)))
        (block_timestamp env) st'.
Proof.
  intros H. apply repay_Ok in H as (st1 & _ & _ & _ & Hacc & _ & _ & ->).
  pose proof (_updateInterest_moved _ _ _ _ _ Hacc) as M.
  eapply moved_trans; [exact M|].
  apply moved_emit. rewrite <- (accrued_timestamp _ _ _ _ _ Hacc).
  replace (borrowed (readPosition st (msg_sender env) sym) +
           borrowInterestDue env st sym (msg_sender env))
    with (borrowed (readPosition st1 (msg_sender env) sym)).
  - exact (moved_borrowed st1 sym (msg_sender env) (- _)).
  - rewrite (moved_readPosition _ _ _ _ _ _ _ (msg_sender env) sym M), decide_True by done.
    reflexivity.
Qed.

Lemma getAssetPrice_Ok (env : Env) (st : State) (sym : string) (P : Z) :
  getAssetPrice env st sym = Ok P ->
  exists price, latestRoundData env (priceFeedAddress (readAsset st sym)) = Some price /\
    0 < price /\ P = price * 10 ^ 10 /\ 0 < P <= MAX_UINT256.
Proof.
  intros H. unfold getAssetPrice in H. cbn beta zeta in H. ok_steps H.
  apply Z.ltb_lt in Hreq0. change (10 ^ 10) with 10000000000 in *.
  eexists. repeat split; eauto; lia.
Qed.

Lemma seize_quotient (a p : Z) : 0 < p -> a * p * 11000 / (p * 10000) = a * 11000 / 10000.
Proof.
  intros Hp.
  replace (a * p * 11000) with (a * 11000 * p) by ring.
  replace (p * 10000) with (10000 * p) by ring.
  apply Z.div_mul_cancel_r; lia.
Qed.

Lemma collateralToSeize_Ok (a p v : Z) :
  0 < p -> collateralToSeize a p = Ok v -> v = a * 11000 / 10000.
Proof.
  intros Hp H. unfold collateralToSeize in H. ok_steps H. now apply seize_quotient.
Qed.

Lemma liquidate_moved (env : Env) (st : State) (b : address) (sym : string) (amount : Z)
    (st' : State) :
  liquidate env st b sym amount = Ok st' ->
  let la := Z.min amount (borrowed (readPosition st b sym) + borrowInterestDue env st sym b) in
  exists seize,
    seize = la * 11000 / 10000 /\
    seize <= supplied (readPosition st b sym) + supplyInterestDue env st sym b /\
    moved st sym b (supplyInterestDue env st sym b + - seize)
          (borrowInterestDue env st sym b + - la) (block_timestamp env) st'.
Proof.
  intros H la.
  apply liquidate_Ok in H
    as (st1 & price & seize & _ & _ & _ & Hacc & _ & HP & Hseize & Hle & _ & _ & _ & ->).
  exists seize.
  pose proof (_updateInterest_moved _ _ _ _ _ Hacc) as M.
  pose proof (moved_readPosition _ _ _ _ _ _ _ b sym M) as Rp.
  rewrite decide_True in Rp by done.
  rewrite Rp in Hseize, Hle. cbn [borrowed supplied] in Hseize, Hle. fold la in Hseize.
  destruct (getAssetPrice_Ok _ _ _ _ HP) as (_ & _ & _ & _ & HPpos & _).
  split; [exact (collateralToSeize_Ok _ _ _ HPpos Hseize)|]. split; [exact Hle|].
  eapply moved_trans; [exact M|].
  apply moved_emit. rewrite <- (accrued_timestamp _ _ _ _ _ Hacc).
  replace la with (Z.min amount (borrowed (readPosition st1 b sym)))
    by (now rewrite Rp).
  apply moved_both; reflexivity.
Qed.

Lemma bonus_of_ten_percent (a : Z) : a * 11000 / 10000 = a + a / 10.
Proof.
  replace (a * 11000) with ((a * 11) * 1000) by ring.
  replace 10000 with (10 * 1000) by reflexivity.
  rewrite Z.div_mul_cancel_r by lia.
  replace (a * 11) with (a * 10 + a) by ring.
  rewrite Z.div_add_l by lia. reflexivity.
Qed.

(** ** Registration and update *)

Lemma onlyOwner_Ok (env : Env) (st : State) (u : unit) :
  onlyOwner env st = Ok u -> msg_sender env = owner st.
Proof. unfold onlyOwner. destruct (Z.eqb_spec (msg_sender env) (owner st)); congruence. Qed.

Lemma addAsset_Ok (env : Env) (st : State) (sym : string) (token feed : address)
    (cf bf lt sr br : Z) (st' : State) :
  addAsset env st sym token feed cf bf lt sr br = Ok st' ->
  msg_sender env = owner st /\ tokenAddress (readAsset st sym) = 0 /\ risk_ok cf bf lt /\
  st' = emit (AssetAdded sym token feed)
          (pushSymbol (writeAsset st sym (mkAsset token feed cf bf lt 0 0 sr br true)) sym).
Proof.
  intros H. unfold addAsset in H.
  apply bind_Ok in H as (? & Ho & H). apply onlyOwner_Ok in Ho.
  ok_steps H. unfold risk_ok. subst st'. repeat split; auto; lia.
Qed.

Lemma updateAsset_Ok (env : Env) (st : State) (sym : string)
    (cf bf lt sr br : Z) (active : bool) (st' : State) :
  updateAsset env st sym cf bf lt sr br active = Ok st' ->
  msg_sender env = owner st /\ tokenAddress (readAsset st sym) <> 0 /\ risk_ok cf bf lt /\
  st' = emit (AssetUpdated sym cf bf lt)
          (writeAsset st sym
             (mkAsset (tokenAddress (readAsset st sym)) (priceFeedAddress (readAsset st sym))
                      cf bf lt (totalSupplied (readAsset st sym))
                      (totalBorrowed (readAsset st sym)) sr br active)).
Proof.
  intros H. unfold updateAsset in H.
  apply bind_Ok in H as (? & Ho & H). apply onlyOwner_Ok in Ho.
  ok_steps H. unfold risk_ok. subst st'.
  apply negb_true_iff, Z.eqb_neq in Hreq. repeat split; auto; lia.
Qed.

Lemma ledger_exec_moved (env : Env) (st : State) (c : Call) (st' : State)
    (u : address) (sym : string) :
  exec env st c = Ok st' -> target env c = Some (u, sym) ->
  isActive (readAsset st sym) = true /\
  exists ds db, moved st sym u ds db (block_timestamp env) st'.
Proof.
  intros H T. destruct c; cbn in T, H; try discriminate; injection T as <- <-.
  - split; [apply supply_Ok in H as (? & ? & _); assumption|].
    apply supply_moved in H. eauto.
  - split; [apply withdraw_Ok in H as (? & ? & _); assumption|].
    apply withdraw_moved in H. eauto.
  - split; [apply borrow_Ok in H as (? & ? & _); assumption|].
    apply borrow_moved in H. eauto.
  - split; [apply repay_Ok in H as (? & ? & _); assumption|].
    apply repay_moved in H. eauto.
  - split; [apply liquidate_Ok in H as (? & ? & ? & ? & _); assumption|].
    apply liquidate_moved in H as (? & _ & _ & H). eauto.
Qed.

Lemma registry_inv_init (deployer : address) : registry_inv (constructor deployer).
Proof. intros sym. split; [intros [] | intros _; split; reflexivity]. Qed.

Lemma registry_inv_step (env : Env) (st : State) (c : Call) (st' : State) :
  registry_inv st -> exec env st c = Ok st' -> registry_inv st'.
Proof.
  intros I H. destruct (target env c) as [[u sym]|] eqn:T.
  - destruct (ledger_exec_moved _ _ _ _ _ _ H T) as (Hact & ds & db & M).
    pose proof M as (_ & Hs & _).
    intros s'. specialize (I s') as [I1 I2]. rewrite Hs.
    rewrite (moved_readAsset _ _ _ _ _ _ _ s' M).
    split.
    + intros Hin. destruct (decide (sym = s')) as [<- | Hne]; auto.
    + intros Hin. destruct (I2 Hin) as [Hz Hp].
      destruct (decide (sym = s')) as [<- | Hne].
      * rewrite Hz in Hact. discriminate.
      * split; [exact Hz|]. intros u'.
        rewrite (moved_readPosition _ _ _ _ _ _ _ u' s' M), decide_False by congruence.
        apply Hp.
  - destruct c; try discriminate; cbn in H.
    + apply addAsset_Ok in H as (_ & _ & R & ->). intros s'.
      specialize (I s') as [I1 I2]. cbn [assetSymbols emit pushSymbol writeAsset].
      rewrite readAsset_emit. change (readAsset (pushSymbol ?s _) s') with (readAsset s s').
      rewrite readAsset_writeAsset.
      split.
      * intros Hin. destruct (decide (symbol = s')) as [<- | Hne]; [exact R|].
        apply in_app_iff in Hin as [Hin | [-> | []]]; [auto | congruence].
      * intros Hin. rewrite in_app_iff in Hin.
        destruct (decide (symbol = s')) as [<- | Hne]; [exfalso; apply Hin; cbn; auto|].
        apply I2. tauto.
    + apply updateAsset_Ok in H as (_ & Ht & R & ->). intros s'.
      specialize (I s') as [I1 I2]. cbn [assetSymbols emit writeAsset].
      rewrite readAsset_emit, readAsset_writeAsset.
      split.
      * intros Hin. destruct (decide (symbol = s')) as [<- | Hne]; [exact R | auto].
      * intros Hin. destruct (decide (symbol = s')) as [<- | Hne]; [|auto].
        destruct (I2 Hin) as [Hz _]. rewrite Hz in Ht. now contradiction Ht.
Qed.

Lemma reachable_registry_inv (P : Env -> State -> Call -> Prop) (st : State) :
  reachable_by P st -> registry_inv st.
Proof.
  induction 1 as [d | env st c st' _ IH _ _ _ H].
  - apply registry_inv_init.
  - eapply registry_inv_step; eassumption.
Qed.

(** ** Concrete runs *)

Lemma uint256b_spec (v : Z) : uint256b v = true -> uint256 v.
Proof. unfold uint256b, uint256. rewrite andb_true_iff. lia. Qed.

Lemma valid_callb_spec (c : Call) : valid_callb c = true -> valid_call c.
Proof.
  destruct c; cbn; rewrite ?andb_true_iff; intros H;
    repeat match goal with H : _ /\ _ |- _ => destruct H end;
    repeat split; try (apply uint256b_spec; assumption); try lia;
    try (apply uint256b_spec in H; apply H).
Qed.

Lemma run_reachable (txs : list (Env * Call)) (st st' : State) :
  reachable st -> forallb valid_txb txs = true -> run st txs = Ok st' -> reachable st'.
Proof.
  revert st. induction txs as [| [env c] txs IH]; intros st R V H.
  - injection H as <-. exact R.
  - cbn in V. apply andb_true_iff in V as [V1 V2].
    unfold valid_txb in V1. apply andb_true_iff in V1 as [Vt Vc]. cbn in Vt, Vc.
    cbn in H. apply bind_Ok in H as (st1 & H1 & H).
    apply (IH st1); [|exact V2|exact H].
    apply Z.leb_le in Vt.
    eapply reach_step; [exact R | apply valid_callb_spec, Vc | exact Vt | exact I | exact H1].
Qed.

(** Closed facts about the sample runs are settled by evaluation. *)
Ltac conjuncts := repeat match goal with |- _ /\ _ => split end.

Lemma reachable_deployed : reachable deployed.
Proof. apply reach_init. Qed.

Lemma reachable_funded : reachable funded.
Proof.
  apply (run_reachable open_position deployed); [apply reachable_deployed | | ];
    vm_compute; reflexivity.
Qed.

Lemma reachable_paused : reachable paused.
Proof.
  apply (run_reachable switched_off deployed); [apply reachable_deployed | | ];
    vm_compute; reflexivity.
Qed.

Lemma reachable_wide_listed : reachable wide_listed.
Proof.
  apply (run_reachable wide_threshold deployed); [apply reachable_deployed | | ];
    vm_compute; reflexivity.
Qed.

(** ** The inactive-asset gate *)

Lemma commit_Err (env : Env) (st : State) (c : Call) (e : error) :
  exec env st c = Err e -> commit env st c = st.
Proof. unfold commit. now intros ->. Qed.

Lemma inactive_gate (env : Env) (st : State) (sym : string) (amount : Z) (borrower : address) :
  isActive (readAsset st sym) = false ->
  supply env st sym amount = Err (Revert "Asset not active") /\
  withdraw env st sym amount = Err (Revert "Asset not active") /\
  borrow env st sym amount = Err (Revert "Asset not active") /\
  repay env st sym amount = Err (Revert "Asset not active") /\
  liquidate env st borrower sym amount = Err (Revert "Asset not active").
Proof.
  intros H. unfold supply, withdraw, borrow, repay, liquidate.
  rewrite H. repeat split; reflexivity.
Qed.

(** C2, as the claim states it, fails: in the reachable state [paused] the asset
    "ETH" is registered with isActive = false, account 2 owes 500 and its
    position is below the liquidation threshold, yet repay and liquidate of a
    valid amount both fail with the inactive-asset error. *)
Lemma repay_and_liquidate_blocked_while_inactive :
  reachable paused /\
  In "ETH" (assetSymbols paused) /\
  isActive (readAsset paused "ETH") = false /\
  borrowed (readPosition paused 2 "ETH") = 500 /\
  _isHealthy (honest_env 3 300 2000) paused "ETH" 2 = Ok false /\
  repay (honest_env 2 300 2000) paused "ETH" 10 = Err (Revert "Asset not active") /\
  liquidate (honest_env 3 300 2000) paused 2 "ETH" 10 = Err (Revert "Asset not active").
Proof.
  split; [apply reachable_paused|].
  split; [vm_compute; auto|].
  conjuncts; vm_compute; reflexivity.
Qed.

(** C2, amended: while an asset has isActive = false every ledger function is
    gated, repay and liquidate included: supply, withdraw, borrow, repay and
    liquidate all fail with "Asset not active", whatever the position and the
    amount, and the failed call leaves the state as it was. *)
Theorem inactive_asset_blocks_every_ledger_call
    (env : Env) (st : State) (sym : string) (amount : Z) (borrower : address) :
  isActive (readAsset st sym) = false ->
  (supply env st sym amount = Err (Revert "Asset not active") /\
   withdraw env st sym amount = Err (Revert "Asset not active") /\
   borrow env st sym amount = Err (Revert "Asset not active") /\
   repay env st sym amount = Err (Revert "Asset not active") /\
   liquidate env st borrower sym amount = Err (Revert "Asset not active")) /\
  commit env st (call_repay sym amount) = st /\
  commit env st (call_liquidate borrower sym amount) = st.
Proof.
  intros H. pose proof (inactive_gate env st sym amount borrower H) as G.
  split; [exact G|].
  destruct G as (_ & _ & _ & Hr & Hl).
  split; eapply commit_Err; cbn; eassumption.
Qed.

Lemma inactive_asset_blocks_every_ledger_call_witness :
  isActive (readAsset paused "ETH") = false /\
  repay (honest_env 2 300 2000) paused "ETH" 10 = Err (Revert "Asset not active").
Proof.
  assert (H : isActive (readAsset paused "ETH") = false) by (vm_compute; reflexivity).
  split; [exact H|].
  apply (inactive_asset_blocks_every_ledger_call (honest_env 2 300 2000) paused "ETH" 10 3 H).
Defined.

(** ** Risk parameters *)

Lemma risk_checks (cf bf lt : Z) (k : result State) :
  (require (cf <=? 9000) "Collateral factor too high";;
   require (bf <=? cf) "Borrow factor too high";;
   require (cf <? lt) "Invalid liquidation threshold";;
   k) =
  if risk_okb cf bf lt then k
  else Err (Revert (if negb (cf <=? 9000) then "Collateral factor too high"
                    else if negb (bf <=? cf) then "Borrow factor too high"
                    else "Invalid liquidation threshold")).
Proof.
  unfold risk_okb.
  destruct (cf <=? 9000), (bf <=? cf), (cf <? lt); reflexivity.
Qed.

Lemma risk_checks_error (cf bf : Z) :
  invalid_risk_error
    (Revert (if negb (cf <=? 9000) then "Collateral factor too high"
             else if negb (bf <=? cf) then "Borrow factor too high"
             else "Invalid liquidation threshold")).
Proof.
  unfold invalid_risk_error.
  destruct (cf <=? 9000), (bf <=? cf); cbn; auto.
Qed.

Lemma addAsset_checked (env : Env) (st : State) (sym : string) (token feed : address)
    (cf bf lt sr br : Z) :
  msg_sender env = owner st -> tokenAddress (readAsset st sym) = 0 ->
  if risk_okb cf bf lt
  then exists st', addAsset env st sym token feed cf bf lt sr br = Ok st' /\
         readAsset st' sym = mkAsset token feed cf bf lt 0 0 sr br true /\
         In sym (assetSymbols st')
  else exists e, addAsset env st sym token feed cf bf lt sr br = Err e /\
         invalid_risk_error e.
Proof.
  intros Ho Ht. unfold addAsset, onlyOwner. rewrite Ho, Z.eqb_refl, Ht.
  cbn [mbind result_bind require Z.eqb].
  rewrite risk_checks. destruct (risk_okb cf bf lt).
  - eexists. split; [reflexivity|]. split.
    + rewrite readAsset_emit. change (readAsset (pushSymbol ?s _) sym) with (readAsset s sym).
      apply readAsset_writeAsset_eq.
    + cbn. apply in_app_iff. right. now left.
  - eexists. split; [reflexivity | apply risk_checks_error].
Qed.

Lemma updateAsset_checked (env : Env) (st : State) (sym : string)
    (cf bf lt sr br : Z) (active : bool) :
  msg_sender env = owner st -> tokenAddress (readAsset st sym) <> 0 ->
  if risk_okb cf bf lt
  then exists st', updateAsset env st sym cf bf lt sr br active = Ok st' /\
         collateralFactor (readAsset st' sym) = cf /\
         borrowFactor (readAsset st' sym) = bf /\
         liquidationThreshold (readAsset st' sym) = lt
  else exists e, updateAsset env st sym cf bf lt sr br active = Err e /\
         invalid_risk_error e.
Proof.
  intros Ho Ht. unfold updateAsset, onlyOwner. rewrite Ho, Z.eqb_refl.
  apply Z.eqb_neq in Ht. rewrite Ht.
  cbn [mbind result_bind require negb].
  rewrite risk_checks. destruct (risk_okb cf bf lt).
  - eexists. split; [reflexivity|].
    rewrite readAsset_emit, readAsset_writeAsset_eq. cbn. auto.
  - eexists. split; [reflexivity | apply risk_checks_error].
Qed.

(** C4, as the claim states it, fails: the owner registers "ETH" with a
    liquidation threshold of 20000 basis points; addAsset succeeds and the
    registered asset keeps liquidationThreshold = 20000 > 10000. *)
Lemma threshold_above_10000_is_accepted :
  reachable wide_listed /\
  addAsset (honest_env 1 100 2000) deployed "ETH" 5 6 7500 7000 20000 500 1000
    = Ok wide_listed /\
  In "ETH" (assetSymbols wide_listed) /\
  liquidationThreshold (readAsset wide_listed "ETH") = 20000 /\
  10000 < liquidationThreshold (readAsset wide_listed "ETH").
Proof.
  split; [apply reachable_wide_listed|].
  split; [vm_compute; reflexivity|].
  split; [vm_compute; auto|].
  split; vm_compute; reflexivity.
Qed.

(** C4, amended: registration and update enforce three inequalities and no upper
    bound on the liquidation threshold.  For the owner, addAsset on a free symbol
    and updateAsset on an existing one succeed when collateralFactor <= 9000,
    borrowFactor <= collateralFactor and collateralFactor < liquidationThreshold,
    and otherwise fail with one of the three risk-parameter errors; hence every
    registered asset of every reachable state satisfies these three inequalities. *)
Theorem risk_parameters_enforced
    (env : Env) (st : State) (sym : string) (token feed : address)
    (cf bf lt sr br : Z) (active : bool) :
  reachable st -> msg_sender env = owner st ->
  (tokenAddress (readAsset st sym) = 0 ->
   if risk_okb cf bf lt
   then exists st', addAsset env st sym token feed cf bf lt sr br = Ok st' /\
          readAsset st' sym = mkAsset token feed cf bf lt 0 0 sr br true /\
          In sym (assetSymbols st')
   else exists e, addAsset env st sym token feed cf bf lt sr br = Err e /\
          invalid_risk_error e) /\
  (tokenAddress (readAsset st sym) <> 0 ->
   if risk_okb cf bf lt
   then exists st', updateAsset env st sym cf bf lt sr br active = Ok st' /\
          collateralFactor (readAsset st' sym) = cf /\
          borrowFactor (readAsset st' sym) = bf /\
          liquidationThreshold (readAsset st' sym) = lt
   else exists e, updateAsset env st sym cf bf lt sr br active = Err e /\
          invalid_risk_error e) /\
  (forall s, In s (assetSymbols st) ->
     collateralFactor (readAsset st s) <= 9000 /\
     borrowFactor (readAsset st s) <= collateralFactor (readAsset st s) /\
     collateralFactor (readAsset st s) < liquidationThreshold (readAsset st s)).
Proof.
  intros R Ho. split; [|split].
  - intros Ht. now apply addAsset_checked.
  - intros Ht. now apply updateAsset_checked.
  - intros s Hin. apply (reachable_registry_inv _ _ R s). exact Hin.
Qed.

Lemma risk_parameters_enforced_witness :
  (exists e, updateAsset (honest_env 1 300 2000) funded "ETH" 9500 7000 9900 500 1000 true
             = Err e /\ invalid_risk_error e) /\
  collateralFactor (readAsset funded "ETH") <= 9000 /\
  borrowFactor (readAsset funded "ETH") <= collateralFactor (readAsset funded "ETH") /\
  collateralFactor (readAsset funded "ETH") < liquidationThreshold (readAsset funded "ETH").
Proof.
  assert (Ho : msg_sender (honest_env 1 300 2000) = owner funded) by (vm_compute; reflexivity).
  destruct (risk_parameters_enforced (honest_env 1 300 2000) funded "ETH" 5 6
              9500 7000 9900 500 1000 true reachable_funded Ho) as (_ & Hu & Hinv).
  split.
  - apply Hu. vm_compute. discriminate.
  - apply Hinv. vm_compute. auto.
Defined.

(** ** Unregistered symbols *)

(** C10: for a symbol that was never registered, in every reachable state, the
    five ledger functions fail at the inactive-asset gate, with the same error an
    inactive registered asset gives, and leave the state unchanged; the reads
    getAssetDetails and userPositions return all-zero records and do not fail. *)
Theorem unregistered_asset_reads_zero_and_is_gated
    (st : State) (sym : string) (env : Env) (amount : Z) (user : address) :
  reachable st -> ~ In sym (assetSymbols st) ->
  getAssetDetails st sym = zeroAsset /\
  readPosition st user sym = zeroPosition /\
  (supply env st sym amount = Err (Revert "Asset not active") /\
   withdraw env st sym amount = Err (Revert "Asset not active") /\
   borrow env st sym amount = Err (Revert "Asset not active") /\
   repay env st sym amount = Err (Revert "Asset not active") /\
   liquidate env st user sym amount = Err (Revert "Asset not active")) /\
  (forall c u, target env c = Some (u, sym) -> commit env st c = st) /\
  (forall sym', isActive (readAsset st sym') = false ->
     supply env st sym' amount = supply env st sym amount /\
     withdraw env st sym' amount = withdraw env st sym amount /\
     borrow env st sym' amount = borrow env st sym amount /\
     repay env st sym' amount = repay env st sym amount /\
     liquidate env st user sym' amount = liquidate env st user sym amount).
Proof.
  intros R Hin.
  destruct (reachable_registry_inv _ _ R sym) as [_ I2].
  destruct (I2 Hin) as [Hz Hp].
  assert (Hact : isActive (readAsset st sym) = false) by now rewrite Hz.
  split; [exact Hz|]. split; [apply Hp|].
  split; [now apply inactive_gate|].
  split.
  - intros c u T. unfold commit. destruct (exec env st c) as [st'|e] eqn:E; [|reflexivity].
    destruct (ledger_exec_moved _ _ _ _ _ _ E T) as [Ha _]. congruence.
  - intros sym' Hact'.
    destruct (inactive_gate env st sym amount user Hact) as (-> & -> & -> & -> & ->).
    now apply inactive_gate.
Qed.

Lemma unregistered_asset_reads_zero_and_is_gated_witness :
  getAssetDetails funded "DAI" = zeroAsset /\
  readPosition funded 2 "DAI" = zeroPosition /\
  supply (honest_env 2 300 2000) funded "DAI" 10 = Err (Revert "Asset not active").
Proof.
  assert (Hin : ~ In "DAI" (assetSymbols funded)).
  { vm_compute. intros [H | []]. discriminate H. }
  destruct (unregistered_asset_reads_zero_and_is_gated funded "DAI" (honest_env 2 300 2000)
              10 2 reachable_funded Hin) as (Ha & Hp & (Hs & _) & _).
  exact (conj Ha (conj Hp Hs)).
Defined.

(** ** The accrual algorithm *)

Lemma interest_of_0 (r el : Z) : interest 0 r el = 0.
Proof. unfold interest. reflexivity. Qed.

Lemma due_supply_nonneg (s r el : Z) :
  0 <= s -> (if 0 <? s then interest s r el else 0) = interest s r el.
Proof.
  intros Hs. destruct (Z.ltb_spec 0 s); [reflexivity|].
  assert (s = 0) as -> by lia. now rewrite interest_of_0.
Qed.

Lemma _updateInterest_first_touch (env : Env) (st : State) (sym : string) (u : address) :
  lastUpdateTimestamp (readPosition st u sym) = 0 ->
  _updateInterest env st sym u =
  Ok (writePosition st u sym
        (set_lastUpdateTimestamp (block_timestamp env) (readPosition st u sym))).
Proof. intros H. unfold _updateInterest. now rewrite H. Qed.

Lemma _updateInterest_no_elapsed (env : Env) (st : State) (sym : string) (u : address) :
  lastUpdateTimestamp (readPosition st u sym) <> 0 ->
  block_timestamp env = lastUpdateTimestamp (readPosition st u sym) ->
  _updateInterest env st sym u = Ok st.
Proof.
  intros H0 H1. unfold _updateInterest. apply Z.eqb_neq in H0. rewrite H0, H1.
  rewrite checked_sub_fits by lia. cbn. now rewrite Z.sub_diag.
Qed.

Lemma _updateInterest_succeeds (env : Env) (st : State) (sym : string) (u : address) :
  let pos := readPosition st u sym in
  let a := readAsset st sym in
  let el := block_timestamp env - lastUpdateTimestamp pos in
  lastUpdateTimestamp pos <> 0 -> 0 < el ->
  0 <= supplied pos -> 0 <= borrowed pos ->
  0 <= supplyInterestRate a -> 0 <= borrowInterestRate a ->
  supplied pos * supplyInterestRate a * el <= MAX_UINT256 ->
  supplied pos + interest (supplied pos) (supplyInterestRate a) el <= MAX_UINT256 ->
  totalSupplied a + interest (supplied pos) (supplyInterestRate a) el <= MAX_UINT256 ->
  borrowed pos * borrowInterestRate a * el <= MAX_UINT256 ->
  borrowed pos + interest (borrowed pos) (borrowInterestRate a) el <= MAX_UINT256 ->
  totalBorrowed a + interest (borrowed pos) (borrowInterestRate a) el <= MAX_UINT256 ->
  exists st1, _updateInterest env st sym u = Ok st1.
Proof.
  intros pos a el H0 Hel Hs Hb Hsr Hbr F1 F2 F3 F4 F5 F6.
  unfold _updateInterest. fold pos a. apply Z.eqb_neq in H0. rewrite H0.
  rewrite checked_sub_fits by (unfold el in Hel; lia). cbn [mbind result_bind]. fold el.
  assert (E1 : (el =? 0) = false) by (apply Z.eqb_neq; lia). rewrite E1.
  assert (exists sta,
    (if 0 <? supplied pos then
       m1 ← checked_mul (supplied pos) (supplyInterestRate a);
       m2 ← checked_mul m1 el;
       supplyInterest ← checked_div m2 (10000 * days_365);
       s' ← checked_add (supplied pos) supplyInterest;
       t' ← checked_add (totalSupplied a) supplyInterest;
       Ok (writeAsset (writePosition st u sym (set_supplied s' pos))
                      sym (set_totalSupplied t' a))
     else Ok st) = Ok sta) as (sta & Ea).
  { destruct (0 <? supplied pos); [|eauto].
    rewrite checked_mul_fits by nia. cbn [mbind result_bind].
    rewrite checked_mul_fits by exact F1. cbn [mbind result_bind].
    rewrite checked_div_fits by (vm_compute; discriminate). cbn [mbind result_bind].
    fold (interest (supplied pos) (supplyInterestRate a) el).
    rewrite (checked_add_fits (supplied pos) _ F2). cbn [mbind result_bind].
    rewrite (checked_add_fits (totalSupplied a) _ F3). cbn [mbind result_bind]. eauto. }
  rewrite Ea. cbn [mbind result_bind].
  destruct (accrue_supply_step st sym u el sta Ea) as [_ Ma].
  pose proof (moved_readAsset _ _ _ _ _ _ _ sym Ma) as Ra. rewrite decide_True in Ra by done.
  pose proof (moved_readPosition _ _ _ _ _ _ _ u sym Ma) as Rp.
  rewrite decide_True in Rp by done.
  rewrite Rp, Ra. cbn [borrowed supplied borrowInterestRate totalBorrowed add_totals
                       set_totalBorrowed set_totalSupplied]. fold pos a.
  rewrite !Z.add_0_r.
  destruct (0 <? borrowed pos); [|cbn [mbind result_bind]; eauto].
  rewrite checked_mul_fits by nia. cbn [mbind result_bind].
  rewrite checked_mul_fits by exact F4. cbn [mbind result_bind].
  rewrite checked_div_fits by (vm_compute; discriminate). cbn [mbind result_bind].
  fold (interest (borrowed pos) (borrowInterestRate a) el).
  rewrite (checked_add_fits (borrowed pos) _ F5). cbn [mbind result_bind].
  rewrite (checked_add_fits (totalBorrowed a) _ F6). cbn [mbind result_bind]. eauto.
Qed.

Lemma _updateInterest_again (env : Env) (st : State) (sym : string) (u : address) (st1 : State) :
  _updateInterest env st sym u = Ok st1 -> _updateInterest env st1 sym u = Ok st1.
Proof.
  intros H. pose proof (accrued_timestamp _ _ _ _ _ H) as Ht.
  destruct (Z.eq_dec (block_timestamp env) 0) as [Hz | Hnz].
  - rewrite _updateInterest_first_touch by congruence.
    assert (Hs : userPositions st1 !! (u, sym) = Some (readPosition st1 u sym)).
    { apply _updateInterest_cases in H. cbn zeta in H.
      destruct H as [[E0 ->] | [(E0 & E1 & ->) | (E0 & E1 & _ & (_ & _ & _ & Mp))]].
      - rewrite readPosition_writePosition_eq. cbn. apply lookup_insert_eq.
      - congruence.
      - destruct Mp as [Mp | [Mp Mq]].
        + unfold readPosition. rewrite Mp, lookup_insert_eq. reflexivity.
        + unfold readPosition in E0. rewrite Mq in E0. cbn in E0. congruence. }
    assert (Hp : set_lastUpdateTimestamp (block_timestamp env) (readPosition st1 u sym)
                 = readPosition st1 u sym).
    { destruct (readPosition st1 u sym); cbn in Ht. unfold set_lastUpdateTimestamp; cbn.
      now rewrite Ht. }
    rewrite Hp. f_equal. destruct st1 as [o a sy ps ev]. unfold writePosition; cbn in *.
    f_equal. apply insert_id. exact Hs.
  - apply _updateInterest_no_elapsed; congruence.
Qed.


(** C8: _updateInterest follows the accrual algorithm.  (1) For a position whose
    lastUpdateTimestamp is unset (0) it stores the current time and changes no
    balance.  (2) With zero elapsed time it writes nothing.  (3) A second call at
    the same time returns the state unchanged.  (4) Otherwise, when the products
    and sums fit in 256 bits, floor(supplied * supplyRate * elapsed / (10000 *
    365 days)) is added to position.supplied and to asset.totalSupplied,
    floor(borrowed * borrowRate * elapsed / (10000 * 365 days)) is added to
    position.borrowed and to asset.totalBorrowed, lastUpdateTimestamp becomes the
    current time, and nothing else is written. *)
Theorem accrual_follows_the_algorithm (env : Env) (st : State) (sym : string) (u : address) :
  let pos := readPosition st u sym in
  let a := readAsset st sym in
  let now := block_timestamp env in
  let el := now - lastUpdateTimestamp pos in
  let si := interest (supplied pos) (supplyInterestRate a) el in
  let bi := interest (borrowed pos) (borrowInterestRate a) el in
  (lastUpdateTimestamp pos = 0 ->
   exists st1, _updateInterest env st sym u = Ok st1 /\
     readPosition st1 u sym = mkUserPosition (supplied pos) (borrowed pos) now /\
     (forall s', readAsset st1 s' = readAsset st s') /\
     (forall u' s', (u, sym) <> (u', s') -> readPosition st1 u' s' = readPosition st u' s')) /\
  (lastUpdateTimestamp pos <> 0 -> now = lastUpdateTimestamp pos ->
   _updateInterest env st sym u = Ok st) /\
  (forall st1, _updateInterest env st sym u = Ok st1 ->
   _updateInterest env st1 sym u = Ok st1) /\
  (lastUpdateTimestamp pos <> 0 -> 0 < el ->
   0 <= supplied pos -> 0 <= borrowed pos ->
   0 <= supplyInterestRate a -> 0 <= borrowInterestRate a ->
   supplied pos * supplyInterestRate a * el <= MAX_UINT256 ->
   supplied pos + si <= MAX_UINT256 -> totalSupplied a + si <= MAX_UINT256 ->
   borrowed pos * borrowInterestRate a * el <= MAX_UINT256 ->
   borrowed pos + bi <= MAX_UINT256 -> totalBorrowed a + bi <= MAX_UINT256 ->
   exists st1, _updateInterest env st sym u = Ok st1 /\
     readPosition st1 u sym = mkUserPosition (supplied pos + si) (borrowed pos + bi) now /\
     readAsset st1 sym = add_totals si bi a /\
     totalSupplied (readAsset st1 sym) = totalSupplied a + si /\
     totalBorrowed (readAsset st1 sym) = totalBorrowed a + bi /\
     (forall s', sym <> s' -> readAsset st1 s' = readAsset st s') /\
     (forall u' s', (u, sym) <> (u', s') -> readPosition st1 u' s' = readPosition st u' s')).
Proof.
  intros pos a now el si bi. split; [|split; [|split]].
  - intros H0. rewrite _updateInterest_first_touch by exact H0. eexists.
    split; [reflexivity|]. split; [apply readPosition_writePosition_eq|].
    split; [reflexivity|]. intros u' s' Hne. now apply readPosition_writePosition_ne.
  - intros H0 H1. now apply _updateInterest_no_elapsed.
  - apply _updateInterest_again.
  - intros H0 Hel Hs Hb Hsr Hbr F1 F2 F3 F4 F5 F6.
    destruct (_updateInterest_succeeds env st sym u H0 Hel Hs Hb Hsr Hbr F1 F2 F3 F4 F5 F6)
      as [st1 E].
    exists st1. split; [exact E|].
    pose proof (_updateInterest_cases _ _ _ _ _ E) as C. cbn zeta in C.
    fold pos a now in C. fold el in C.
    destruct C as [[E0 _] | [(_ & E1 & _) | (_ & _ & _ & M)]];
      [contradiction | unfold el in Hel; lia |].
    rewrite !due_supply_nonneg in M by assumption. fold si bi in M.
    pose proof (moved_readAsset _ _ _ _ _ _ _ sym M) as Ra. rewrite decide_True in Ra by done.
    pose proof (moved_readPosition _ _ _ _ _ _ _ u sym M) as Rp.
    rewrite decide_True in Rp by done.
    split; [exact Rp|]. split; [exact Ra|].
    split; [now rewrite Ra|]. split; [now rewrite Ra|].
    split.
    + intros s' Hne. now rewrite (moved_readAsset _ _ _ _ _ _ _ s' M), decide_False.
    + intros u' s' Hne. now rewrite (moved_readPosition _ _ _ _ _ _ _ u' s' M), decide_False.
Qed.

Ltac side_conditions :=
  try lazymatch goal with
      | |- _ <> _ => vm_compute; discriminate
      | |- _ <= _ => vm_compute; discriminate
      | |- _ < _ => vm_compute; reflexivity
      | |- _ = _ => vm_compute; reflexivity
      end.

Lemma accrual_follows_the_algorithm_witness :
  exists st1,
    _updateInterest (honest_env 2 (100 + days_365) 2000) funded "ETH" 2 = Ok st1 /\
    readPosition st1 2 "ETH" = mkUserPosition (1000 + 50) (500 + 50) (100 + days_365) /\
    totalSupplied (readAsset st1 "ETH") = 1000 + 50 /\
    totalBorrowed (readAsset st1 "ETH") = 500 + 50.
Proof.
  destruct (accrual_follows_the_algorithm (honest_env 2 (100 + days_365) 2000) funded "ETH" 2)
    as (_ & _ & _ & H).
  destruct H as (st1 & E & Rp & _ & Rs & Rb & _); side_conditions.
  exists st1. split; [exact E|].
  vm_compute in Rp. vm_compute in Rs. vm_compute in Rb.
  split; [exact Rp|]. split; [exact Rs | exact Rb].
Defined.

(** ** Which errors a function can raise *)

Lemma reverts_with_incl (l l' : list string) (e : error) :
  reverts_with l e -> incl l l' -> reverts_with l' e.
Proof. destruct e; cbn; auto. Qed.

Lemma require_reverts (c : bool) (msg : string) (e : error) :
  require c msg = Err e -> reverts_with [msg] e.
Proof. intros H. apply require_Err in H as [_ ->]. cbn. auto. Qed.

Lemma external_reverts {A : Type} (o : option A) (e : error) :
  external o = Err e -> reverts_with [] e.
Proof. intros H. apply external_Err in H as ->. exact I. Qed.

Lemma checked_add_reverts (a b : Z) (e : error) : checked_add a b = Err e -> reverts_with [] e.
Proof. unfold checked_add. destruct (_ <=? _); intros [= <-]. exact I. Qed.

Lemma checked_sub_reverts (a b : Z) (e : error) : checked_sub a b = Err e -> reverts_with [] e.
Proof. unfold checked_sub. destruct (_ <=? _); intros [= <-]. exact I. Qed.

Lemma checked_mul_reverts (a b : Z) (e : error) : checked_mul a b = Err e -> reverts_with [] e.
Proof. unfold checked_mul. destruct (_ <=? _); intros [= <-]. exact I. Qed.

Lemma checked_div_reverts (a b : Z) (e : error) : checked_div a b = Err e -> reverts_with [] e.
Proof. unfold checked_div. destruct (_ =? _); intros [= <-]. exact I. Qed.

Create HintDb reverts.
#[local] Hint Resolve require_reverts external_reverts checked_add_reverts
  checked_sub_reverts checked_mul_reverts checked_div_reverts : reverts.

Ltac incl_solve := let x := fresh in let Hx := fresh in intros x Hx; cbn in Hx |- *; tauto.

Ltac err_leaf H :=
  eapply reverts_with_incl; [ solve [eauto 2 with reverts] | incl_solve ].

(** Follow a failed run of a function body to the statement that failed. *)
Ltac err_steps H :=
  first
    [ discriminate H
    | err_leaf H
    | match type of H with
      | (if ?c then _ else _) = Err _ => destruct c; err_steps H
      | mbind _ _ = Err _ =>
          let x := fresh "x" in let G := fresh "G" in
          apply bind_Err in H as [H | (x & G & H)];
          [ err_steps H | cbn beta zeta in H; err_steps H ]
      end ].

Lemma _updateInterest_reverts (env : Env) (st : State) (sym : string) (u : address) (e : error) :
  _updateInterest env st sym u = Err e -> reverts_with [] e.
Proof. intros H. unfold _updateInterest in H. cbn beta zeta in H. err_steps H. Qed.

Lemma getAssetPrice_reverts (env : Env) (st : State) (sym : string) (e : error) :
  getAssetPrice env st sym = Err e ->
  reverts_with ["Asset does not exist"; "Invalid price"] e.
Proof. intros H. unfold getAssetPrice in H. cbn beta zeta in H. err_steps H. Qed.

#[local] Hint Resolve _updateInterest_reverts getAssetPrice_reverts : reverts.

Lemma _checkHealthFactor_reverts (env : Env) (st : State) (sym : string) (u : address)
    (s b : Z) (e : error) :
  _checkHealthFactor env st sym u s b = Err e ->
  reverts_with ["Asset does not exist"; "Invalid price"] e.
Proof. intros H. unfold _checkHealthFactor in H. cbn beta zeta in H. err_steps H. Qed.

Lemma _isHealthy_reverts (env : Env) (st : State) (sym : string) (u : address) (e : error) :
  _isHealthy env st sym u = Err e ->
  reverts_with ["Asset does not exist"; "Invalid price"] e.
Proof. intros H. unfold _isHealthy in H. cbn beta zeta in H. err_steps H. Qed.

Lemma collateralToSeize_reverts (a p : Z) (e : error) :
  collateralToSeize a p = Err e -> reverts_with [] e.
Proof. intros H. unfold collateralToSeize in H. cbn beta zeta in H. err_steps H. Qed.

#[local] Hint Resolve _checkHealthFactor_reverts _isHealthy_reverts
  collateralToSeize_reverts : reverts.

(** ** Withdrawals and the balance check *)

Lemma reachable_saved : reachable saved.
Proof.
  apply (run_reachable deposit_only deployed); [apply reachable_deployed | | ];
    vm_compute; reflexivity.
Qed.

Lemma withdraw_late_reverts (env : Env) (st : State) (sym : string) (amount : Z) (e : error) :
  (st1 ← _updateInterest env st sym (msg_sender env);
   let position := readPosition st1 (msg_sender env) sym in
   newSupplied ← checked_sub (supplied position) amount;
   healthy ← _checkHealthFactor env st1 sym (msg_sender env) newSupplied (borrowed position);
   require healthy "Health factor too low";;
   let st2 := writePosition st1 (msg_sender env) sym (set_supplied newSupplied position) in
   t' ← checked_sub (totalSupplied (readAsset st2 sym)) amount;
   let st3 := writeAsset st2 sym (set_totalSupplied t' (readAsset st2 sym)) in
   ok ← external (token_transfer env (tokenAddress (readAsset st3 sym)) (msg_sender env) amount);
   require ok "Transfer failed";;
   Ok (emit (Withdrawn (msg_sender env) sym amount) st3)) = Err e ->
  reverts_with ["Asset does not exist"; "Invalid price"; "Health factor too low";
                "Transfer failed"] e.
Proof. intros H. cbn beta zeta in H. err_steps H. Qed.

(** C3, as the claim states it, fails: account 3 holds 1000 "ETH" stored at time
    100; a year later accrual brings the balance to 1050, yet withdraw(1020)
    fails with "Insufficient balance", because the balance is compared before
    _updateInterest runs. *)
Lemma withdraw_ignores_interest_not_yet_accrued :
  reachable saved /\
  supplied (readPosition saved 3 "ETH") = 1000 /\
  (exists st1, _updateInterest year_later saved "ETH" 3 = Ok st1 /\
               supplied (readPosition st1 3 "ETH") = 1050) /\
  1000 < 1020 <= 1050 /\
  withdraw year_later saved "ETH" 1020 = Err (Revert "Insufficient balance").
Proof.
  split; [apply reachable_saved|].
  split; [vm_compute; reflexivity|].
  split.
  - eexists. split; vm_compute; reflexivity.
  - split; [lia|]. vm_compute. reflexivity.
Qed.

(** C3, amended: withdraw fails with "Insufficient balance" exactly when the
    asset is active, amount > 0 and amount exceeds position.supplied as stored
    before interest accrual; interest that the same call would accrue is not
    counted. *)
Theorem withdraw_checks_balance_before_accrual
    (env : Env) (st : State) (sym : string) (amount : Z) :
  withdraw env st sym amount = Err (Revert "Insufficient balance") <->
  isActive (readAsset st sym) = true /\ 0 < amount /\
  supplied (readPosition st (msg_sender env) sym) < amount.
Proof.
  unfold withdraw. cbn beta zeta.
  destruct (isActive (readAsset st sym)); cbn [require mbind result_bind];
    [|split; [discriminate | intros [? _]; discriminate]].
  destruct (Z.ltb_spec 0 amount) as [Ha | Ha]; cbn [require mbind result_bind];
    [|split; [discriminate | lia]].
  destruct (Z.leb_spec amount (supplied (readPosition st (msg_sender env) sym))) as [Hb | Hb];
    cbn [require mbind result_bind]; [|split; auto].
  split; [|lia].
  intros H. apply withdraw_late_reverts in H. cbn in H.
  repeat destruct H as [H | H]; try discriminate H. contradiction.
Qed.

(** ** Health checks *)

Lemma _checkHealthFactor_Ok (env : Env) (st : State) (sym : string) (u : address)
    (s b : Z) (h : bool) :
  _checkHealthFactor env st sym u s b = Ok h ->
  (b = 0 /\ h = true) \/
  (b <> 0 /\ exists P,
     getAssetPrice env st sym = Ok P /\
     h = (b * P <=? s * P * collateralFactor (readAsset st sym) / 10000)).
Proof.
  intros H. unfold _checkHealthFactor in H.
  destruct (Z.eqb_spec b 0) as [-> | Hb].
  - left. injection H as <-. auto.
  - right. split; [exact Hb|]. cbn beta zeta in H. ok_steps H. subst h. eauto.
Qed.

Lemma _checkHealthFactor_fits (env : Env) (st : State) (sym : string) (u : address)
    (s b P : Z) :
  b <> 0 -> getAssetPrice env st sym = Ok P ->
  s * P <= MAX_UINT256 -> s * P * collateralFactor (readAsset st sym) <= MAX_UINT256 ->
  b * P <= MAX_UINT256 ->
  _checkHealthFactor env st sym u s b =
  Ok (b * P <=? s * P * collateralFactor (readAsset st sym) / 10000).
Proof.
  intros Hb HP F1 F2 F3. unfold _checkHealthFactor.
  apply Z.eqb_neq in Hb. rewrite Hb, HP. cbn [mbind result_bind].
  rewrite (checked_mul_fits s P F1). cbn [mbind result_bind].
  rewrite (checked_mul_fits _ _ F2). cbn [mbind result_bind].
  rewrite checked_div_fits by discriminate. cbn [mbind result_bind].
  rewrite (checked_mul_fits b P F3). reflexivity.
Qed.

Lemma _isHealthy_Ok (env : Env) (st : State) (sym : string) (u : address) (h : bool) :
  _isHealthy env st sym u = Ok h ->
  let pos := readPosition st u sym in
  (borrowed pos = 0 /\ h = true) \/
  (borrowed pos <> 0 /\ exists P,
     getAssetPrice env st sym = Ok P /\
     h = (borrowed pos * P <=?
          supplied pos * P * liquidationThreshold (readAsset st sym) / 10000)).
Proof.
  intros H pos. unfold _isHealthy in H. fold pos in H.
  destruct (Z.eqb_spec (borrowed pos) 0) as [Hz | Hb].
  - left. injection H as <-. auto.
  - right. split; [exact Hb|]. cbn beta zeta in H. ok_steps H. subst h. eauto.
Qed.

Lemma _isHealthy_fits (env : Env) (st : State) (sym : string) (u : address) (P : Z) :
  let pos := readPosition st u sym in
  getAssetPrice env st sym = Ok P ->
  supplied pos * P <= MAX_UINT256 ->
  supplied pos * P * liquidationThreshold (readAsset st sym) <= MAX_UINT256 ->
  borrowed pos * P <= MAX_UINT256 ->
  borrowed pos * P <= supplied pos * P * liquidationThreshold (readAsset st sym) / 10000 ->
  _isHealthy env st sym u = Ok true.
Proof.
  intros pos HP F1 F2 F3 Hh. unfold _isHealthy. fold pos.
  destruct (borrowed pos =? 0); [reflexivity|].
  rewrite HP. cbn [mbind result_bind].
  rewrite (checked_mul_fits _ P F1). cbn [mbind result_bind].
  rewrite (checked_mul_fits _ _ F2). cbn [mbind result_bind].
  rewrite checked_div_fits by discriminate. cbn [mbind result_bind].
  rewrite (checked_mul_fits _ P F3). cbn [mbind result_bind].
  apply Z.leb_le in Hh. now rewrite Hh.
Qed.

Lemma health_factor_at_least_break_even (cv bv : Z) :
  0 < bv -> bv <= cv -> 10000 <= cv * 10000 / bv.
Proof. intros Hb Hc. apply Z.div_le_lower_bound; [exact Hb | nia]. Qed.

Lemma collateral_covers_debt (s b P cf : Z) :
  0 < P -> b * P <= s * P * cf / 10000 -> b * 10000 <= s * cf.
Proof.
  intros HP H.
  assert (H1 : 10000 * (s * P * cf / 10000) <= s * P * cf)
    by (apply Z.mul_div_le; lia).
  nia.
Qed.

Lemma getAssetPrice_same_feed (env : Env) (st st' : State) (sym : string) :
  tokenAddress (readAsset st' sym) = tokenAddress (readAsset st sym) ->
  priceFeedAddress (readAsset st' sym) = priceFeedAddress (readAsset st sym) ->
  getAssetPrice env st' sym = getAssetPrice env st sym.
Proof. intros Ht Hf. unfold getAssetPrice. now rewrite Ht, Hf. Qed.

(** C5: a successful borrow leaves the position at or above break-even under the
    collateral factor.  With the position (supplied, borrowed) read after interest
    accrual and the price P returned by getAssetPrice, success implies
    floor(supplied * P * collateralFactor / 10000) >= (borrowed + amount) * P, so
    the health factor of the new position is >= 10000 (also as getUserHealthFactor
    computes it on the new state).  When the gates before the health check pass
    and that inequality fails, borrow fails with "Health factor too low" and the
    state stays as it was. *)
Theorem borrow_respects_the_collateral_factor
    (env : Env) (st : State) (sym : string) (amount : Z) (st1 : State) :
  let u := msg_sender env in
  let p1 := readPosition st1 u sym in
  let cf := collateralFactor (readAsset st1 sym) in
  _updateInterest env st sym u = Ok st1 -> 0 <= borrowed p1 ->
  (forall st', borrow env st sym amount = Ok st' ->
     exists P, getAssetPrice env st1 sym = Ok P /\ 0 < P /\
       (borrowed p1 + amount) * P <= supplied p1 * P * cf / 10000 /\
       10000 <= (supplied p1 * P * cf / 10000) * 10000 / ((borrowed p1 + amount) * P) /\
       (borrowed p1 + amount) * 10000 <= supplied p1 * cf /\
       readPosition st' u sym =
         mkUserPosition (supplied p1) (borrowed p1 + amount) (lastUpdateTimestamp p1) /\
       collateralFactor (readAsset st' sym) = cf /\
       (forall h, getUserHealthFactor env st' sym u = Ok h -> 10000 <= h)) /\
  (forall P,
     isActive (readAsset st sym) = true -> 0 < amount ->
     totalBorrowed (readAsset st sym) <= totalSupplied (readAsset st sym) ->
     amount <= totalSupplied (readAsset st sym) - totalBorrowed (readAsset st sym) ->
     getAssetPrice env st1 sym = Ok P ->
     borrowed p1 + amount <= MAX_UINT256 ->
     supplied p1 * P <= MAX_UINT256 -> supplied p1 * P * cf <= MAX_UINT256 ->
     (borrowed p1 + amount) * P <= MAX_UINT256 ->
     supplied p1 * P * cf / 10000 < (borrowed p1 + amount) * P ->
     borrow env st sym amount = Err (Revert "Health factor too low") /\
     commit env st (call_borrow sym amount) = st).
Proof.
  intros u p1 cf Hacc Hb1. split.
  - intros st' H.
    apply borrow_Ok in H as (st1' & _ & Hamt & _ & _ & Hacc' & _ & Hh & _ & _ & ->).
    cbn zeta in *. fold u in Hacc', Hh |- *.
    rewrite Hacc in Hacc'. injection Hacc' as <-. fold p1 in Hh |- *.
    apply _checkHealthFactor_Ok in Hh as [[Hz _] | (_ & P & HP & Hle)]; [lia|].
    fold cf in Hle. symmetry in Hle. apply Z.leb_le in Hle.
    destruct (getAssetPrice_Ok _ _ _ _ HP) as (price & _ & _ & _ & HPpos & _).
    assert (Hbv : 0 < (borrowed p1 + amount) * P) by nia.
    exists P. split; [exact HP|]. split; [exact HPpos|]. split; [exact Hle|].
    split; [now apply health_factor_at_least_break_even|].
    split; [now apply (collateral_covers_debt _ _ P)|].
    simpl_reads. split; [reflexivity|]. split; [reflexivity|].
    intros h Hh. unfold getUserHealthFactor in Hh. simpl_reads.
    cbn [borrowed supplied set_borrowed collateralFactor set_totalBorrowed] in Hh.
    fold p1 in Hh. destruct (borrowed p1 + amount =? 0) eqn:E0;
      [apply Z.eqb_eq in E0; lia|].
    erewrite getAssetPrice_same_feed in Hh; [rewrite HP in Hh | |]; simpl_reads; try reflexivity.
    cbn [mbind result_bind] in Hh. ok_steps Hh. fold cf.
    now apply health_factor_at_least_break_even.
  - intros P Hact Hamt Hliq1 Hliq2 HP F0 F1 F2 F3 Hlow.
    assert (E : borrow env st sym amount = Err (Revert "Health factor too low")).
    { unfold borrow. cbn beta zeta. rewrite Hact. cbn [require mbind result_bind].
      apply Z.ltb_lt in Hamt. rewrite Hamt. cbn [require mbind result_bind].
      rewrite (checked_sub_fits _ _ Hliq1). cbn [mbind result_bind].
      apply Z.leb_le in Hliq2. rewrite Hliq2. cbn [require mbind result_bind].
      fold u. rewrite Hacc. cbn [mbind result_bind]. fold p1.
      rewrite (checked_add_fits _ _ F0). cbn [mbind result_bind].
      apply Z.ltb_lt in Hamt.
      rewrite (_checkHealthFactor_fits env st1 sym u (supplied p1) (borrowed p1 + amount) P)
        by (first [lia | assumption]).
      cbn [mbind result_bind]. fold cf. apply Z.leb_gt in Hlow. rewrite Hlow.
      reflexivity. }
    split; [exact E|]. exact (commit_Err env st (call_borrow sym amount) _ E).
Qed.

Lemma borrow_respects_the_collateral_factor_witness :
  (borrow (honest_env 2 100 2000) funded "ETH" 100 = Ok borrowed_more /\
   (500 + 100) * 10000 <= 1000 * 7500) /\
  (borrow (honest_env 2 100 2000) funded "ETH" 300 = Err (Revert "Health factor too low") /\
   commit (honest_env 2 100 2000) funded (call_borrow "ETH" 300) = funded).
Proof.
  assert (Hacc : _updateInterest (honest_env 2 100 2000) funded "ETH"
                   (msg_sender (honest_env 2 100 2000)) = Ok funded)
    by (vm_compute; reflexivity).
  assert (Hb : 0 <= borrowed (readPosition funded (msg_sender (honest_env 2 100 2000)) "ETH"))
    by (vm_compute; discriminate).
  split.
  - assert (E : borrow (honest_env 2 100 2000) funded "ETH" 100 = Ok borrowed_more)
      by (vm_compute; reflexivity).
    destruct (borrow_respects_the_collateral_factor (honest_env 2 100 2000) funded "ETH" 100
                funded Hacc Hb) as [H _].
    destruct (H borrowed_more E) as (P & _ & _ & _ & _ & Hcover & _).
    vm_compute in Hcover. split; [exact E | exact Hcover].
  - destruct (borrow_respects_the_collateral_factor (honest_env 2 100 2000) funded "ETH" 300
                funded Hacc Hb) as [_ H].
    apply (H (2000 * 10 ^ 10)); side_conditions.
Defined.

(** ** The liquidation gate *)

Lemma liquidate_late_reverts (env : Env) (st1 : State) (b : address) (sym : string)
    (amount : Z) (e : error) :
  (let position := readPosition st1 b sym in
   let liquidationAmount :=
     if borrowed position <? amount then borrowed position else amount in
   assetPrice ← getAssetPrice env st1 sym;
   seize ← collateralToSeize liquidationAmount assetPrice;
   require (seize <=? supplied position) "Insufficient collateral";;
   let token := tokenAddress (readAsset st1 sym) in
   ok ← external (token_transferFrom env token (msg_sender env) (this env) liquidationAmount);
   require ok "Transfer failed";;
   b' ← checked_sub (borrowed position) liquidationAmount;
   let st2 := writePosition st1 b sym (set_borrowed b' position) in
   s' ← checked_sub (supplied (readPosition st2 b sym)) seize;
   let st3 := writePosition st2 b sym (set_supplied s' (readPosition st2 b sym)) in
   tb ← checked_sub (totalBorrowed (readAsset st3 sym)) liquidationAmount;
   let st4 := writeAsset st3 sym (set_totalBorrowed tb (readAsset st3 sym)) in
   ts ← checked_sub (totalSupplied (readAsset st4 sym)) seize;
   let st5 := writeAsset st4 sym (set_totalSupplied ts (readAsset st4 sym)) in
   ok2 ← external (token_transfer env token (msg_sender env) seize);
   require ok2 "Collateral transfer failed";;
   Ok (emit (Liquidated (msg_sender env) b sym liquidationAmount) st5)) = Err e ->
  reverts_with ["Asset does not exist"; "Invalid price"; "Insufficient collateral";
                "Transfer failed"; "Collateral transfer failed"] e.
Proof. intros H. cbn beta zeta in H. err_steps H. Qed.

Lemma liquidate_unfold (env : Env) (st st1 : State) (b : address) (sym : string) (amount : Z) :
  isActive (readAsset st sym) = true -> 0 < amount ->
  0 < borrowed (readPosition st b sym) ->
  _updateInterest env st sym b = Ok st1 ->
  liquidate env st b sym amount =
  (healthy ← _isHealthy env st1 sym b;
   require (negb healthy) "Position is healthy";;
   let position := readPosition st1 b sym in
   let liquidationAmount :=
     if borrowed position <? amount then borrowed position else amount in
   assetPrice ← getAssetPrice env st1 sym;
   seize ← collateralToSeize liquidationAmount assetPrice;
   require (seize <=? supplied position) "Insufficient collateral";;
   let token := tokenAddress (readAsset st1 sym) in
   ok ← external (token_transferFrom env token (msg_sender env) (this env) liquidationAmount);
   require ok "Transfer failed";;
   b' ← checked_sub (borrowed position) liquidationAmount;
   let st2 := writePosition st1 b sym (set_borrowed b' position) in
   s' ← checked_sub (supplied (readPosition st2 b sym)) seize;
   let st3 := writePosition st2 b sym (set_supplied s' (readPosition st2 b sym)) in
   tb ← checked_sub (totalBorrowed (readAsset st3 sym)) liquidationAmount;
   let st4 := writeAsset st3 sym (set_totalBorrowed tb (readAsset st3 sym)) in
   ts ← checked_sub (totalSupplied (readAsset st4 sym)) seize;
   let st5 := writeAsset st4 sym (set_totalSupplied ts (readAsset st4 sym)) in
   ok2 ← external (token_transfer env token (msg_sender env) seize);
   require ok2 "Collateral transfer failed";;
   Ok (emit (Liquidated (msg_sender env) b sym liquidationAmount) st5)).
Proof.
  intros Hact Hamt Hb Hacc. unfold liquidate. cbn beta zeta.
  apply Z.ltb_lt in Hamt, Hb. rewrite Hact, Hamt, Hb, Hacc. reflexivity.
Qed.

(** C6: liquidate fails with "Position is healthy" exactly when its three entry
    checks pass, interest accrual succeeds and the accrued position is healthy
    under the liquidation threshold.  For the position (supplied, borrowed) read
    after accrual and the price P of getAssetPrice: if floor(supplied * P *
    liquidationThreshold / 10000) >= borrowed * P then liquidate fails with that
    error and the state stays as it was; conversely, whenever liquidate fails
    with that error, the accrued position has no debt left or satisfies that
    inequality; so for an accrued debt > 0 the error is raised exactly when the
    inequality holds.  Whenever liquidate succeeds the threshold was breached:
    floor(supplied * P * liquidationThreshold / 10000) < borrowed * P. *)
Theorem liquidate_gate_is_the_liquidation_threshold
    (env : Env) (st : State) (borrower : address) (sym : string) (amount : Z) :
  (liquidate env st borrower sym amount = Err (Revert "Position is healthy") <->
   isActive (readAsset st sym) = true /\ 0 < amount /\
   0 < borrowed (readPosition st borrower sym) /\
   exists st1, _updateInterest env st sym borrower = Ok st1 /\
               _isHealthy env st1 sym borrower = Ok true) /\
  (forall st1 P,
     let p1 := readPosition st1 borrower sym in
     let lt := liquidationThreshold (readAsset st1 sym) in
     isActive (readAsset st sym) = true -> 0 < amount ->
     0 < borrowed (readPosition st borrower sym) ->
     _updateInterest env st sym borrower = Ok st1 ->
     getAssetPrice env st1 sym = Ok P ->
     supplied p1 * P <= MAX_UINT256 -> supplied p1 * P * lt <= MAX_UINT256 ->
     borrowed p1 * P <= MAX_UINT256 ->
     borrowed p1 * P <= supplied p1 * P * lt / 10000 ->
     liquidate env st borrower sym amount = Err (Revert "Position is healthy") /\
     commit env st (call_liquidate borrower sym amount) = st) /\
  (forall st', liquidate env st borrower sym amount = Ok st' ->
     exists st1 P,
       let p1 := readPosition st1 borrower sym in
       let lt := liquidationThreshold (readAsset st1 sym) in
       _updateInterest env st sym borrower = Ok st1 /\
       getAssetPrice env st1 sym = Ok P /\
       supplied p1 * P * lt / 10000 < borrowed p1 * P) /\
  (liquidate env st borrower sym amount = Err (Revert "Position is healthy") ->
   exists st1,
     let p1 := readPosition st1 borrower sym in
     let lt := liquidationThreshold (readAsset st1 sym) in
     _updateInterest env st sym borrower = Ok st1 /\
     (borrowed p1 = 0 \/
      exists P, getAssetPrice env st1 sym = Ok P /\ 0 < P /\
        borrowed p1 * P <= supplied p1 * P * lt / 10000 /\
        borrowed p1 * 10000 <= supplied p1 * lt)) /\
  (forall st1 P,
     let p1 := readPosition st1 borrower sym in
     let lt := liquidationThreshold (readAsset st1 sym) in
     isActive (readAsset st sym) = true -> 0 < amount ->
     0 < borrowed (readPosition st borrower sym) ->
     _updateInterest env st sym borrower = Ok st1 -> 0 < borrowed p1 ->
     getAssetPrice env st1 sym = Ok P ->
     supplied p1 * P <= MAX_UINT256 -> supplied p1 * P * lt <= MAX_UINT256 ->
     borrowed p1 * P <= MAX_UINT256 ->
     (liquidate env st borrower sym amount = Err (Revert "Position is healthy") <->
      borrowed p1 * P <= supplied p1 * P * lt / 10000)).
Proof.
  assert (Hfwd : forall st1,
    isActive (readAsset st sym) = true -> 0 < amount ->
    0 < borrowed (readPosition st borrower sym) ->
    _updateInterest env st sym borrower = Ok st1 ->
    _isHealthy env st1 sym borrower = Ok true ->
    liquidate env st borrower sym amount = Err (Revert "Position is healthy")).
  { intros st1 Hact Hamt Hb Hacc Hh.
    rewrite (liquidate_unfold env st st1 borrower sym amount Hact Hamt Hb Hacc), Hh.
    reflexivity. }
  assert (Hback : liquidate env st borrower sym amount = Err (Revert "Position is healthy") ->
    isActive (readAsset st sym) = true /\ 0 < amount /\
    0 < borrowed (readPosition st borrower sym) /\
    exists st1, _updateInterest env st sym borrower = Ok st1 /\
                _isHealthy env st1 sym borrower = Ok true).
  { intros H. unfold liquidate in H. cbn beta zeta in H.
    destruct (isActive (readAsset st sym)); cbn [require mbind result_bind] in H;
      [|discriminate H].
    destruct (Z.ltb_spec 0 amount) as [Ha | Ha]; cbn [require mbind result_bind] in H;
      [|discriminate H].
    destruct (Z.ltb_spec 0 (borrowed (readPosition st borrower sym))) as [Hb | Hb];
      cbn [require mbind result_bind] in H; [|discriminate H].
    repeat split; auto.
    apply bind_Err in H as [H | (st1 & Hacc & H)].
    { apply _updateInterest_reverts in H. contradiction. }
    exists st1. split; [exact Hacc|].
    apply bind_Err in H as [H | (h & Hh & H)].
    { apply _isHealthy_reverts in H. cbn in H.
      repeat destruct H as [H | H]; try discriminate H. contradiction. }
    destruct h; [exact Hh|]. cbn [negb require mbind result_bind] in H.
    apply liquidate_late_reverts in H. cbn in H.
    repeat destruct H as [H | H]; try discriminate H. contradiction. }
  assert (Hineq : liquidate env st borrower sym amount = Err (Revert "Position is healthy") ->
    exists st1, _updateInterest env st sym borrower = Ok st1 /\
      (borrowed (readPosition st1 borrower sym) = 0 \/
       exists P, getAssetPrice env st1 sym = Ok P /\ 0 < P /\
         borrowed (readPosition st1 borrower sym) * P
         <= supplied (readPosition st1 borrower sym) * P
            * liquidationThreshold (readAsset st1 sym) / 10000 /\
         borrowed (readPosition st1 borrower sym) * 10000
         <= supplied (readPosition st1 borrower sym)
            * liquidationThreshold (readAsset st1 sym))).
  { intros H. apply Hback in H as (_ & _ & _ & st1 & Hacc & Hh).
    exists st1. split; [exact Hacc|].
    apply _isHealthy_Ok in Hh. cbn zeta in Hh.
    destruct Hh as [[Hz _] | (_ & P & HP & Hf)]; [now left|].
    right. exists P. symmetry in Hf. apply Z.leb_le in Hf.
    destruct (getAssetPrice_Ok _ _ _ _ HP) as (_ & _ & _ & _ & HPpos & _).
    split; [exact HP|]. split; [exact HPpos|]. split; [exact Hf|].
    now apply (collateral_covers_debt _ _ P). }
  split; [|split; [|split; [|split]]].
  - split; [exact Hback|].
    intros (Hact & Hamt & Hb & st1 & Hacc & Hh). now apply (Hfwd st1).
  - intros st1 P p1 lt Hact Hamt Hb Hacc HP F1 F2 F3 Hh.
    assert (E : liquidate env st borrower sym amount = Err (Revert "Position is healthy")).
    { apply (Hfwd st1); auto. now apply (_isHealthy_fits env st1 sym borrower P). }
    split; [exact E|]. exact (commit_Err env st (call_liquidate borrower sym amount) _ E).
  - intros st' H.
    apply liquidate_Ok in H as (st1 & P & seize & _ & _ & _ & Hacc & Hh & HP & _).
    exists st1, P. cbn zeta. split; [exact Hacc|]. split; [exact HP|].
    apply _isHealthy_Ok in Hh as [[_ Hf] | (_ & P' & HP' & Hf)]; [discriminate Hf|].
    rewrite HP in HP'. injection HP' as <-. symmetry in Hf. now apply Z.leb_gt in Hf.
  - exact Hineq.
  - intros st1 P p1 lt Hact Hamt Hb Hacc Hb1 HP F1 F2 F3. split.
    + intros H. apply Hineq in H as (st1' & Hacc' & Hcases).
      rewrite Hacc in Hacc'. injection Hacc' as <-. fold p1 lt in Hcases.
      destruct Hcases as [Hz | (P' & HP' & _ & Hle & _)]; [lia|].
      rewrite HP in HP'. injection HP' as <-. exact Hle.
    + intros Hh. apply (Hfwd st1); auto.
      now apply (_isHealthy_fits env st1 sym borrower P).
Qed.

Lemma liquidate_gate_is_the_liquidation_threshold_witness :
  (liquidate (honest_env 3 100 2000) funded 2 "ETH" 100 = Err (Revert "Position is healthy") /\
   commit (honest_env 3 100 2000) funded (call_liquidate 2 "ETH" 100) = funded) /\
  (exists st1 P,
     _updateInterest (honest_env 3 after_146_days 2000) grown "ETH" 2 = Ok st1 /\
     getAssetPrice (honest_env 3 after_146_days 2000) st1 "ETH" = Ok P /\
     supplied (readPosition st1 2 "ETH") * P *
       liquidationThreshold (readAsset st1 "ETH") / 10000
     < borrowed (readPosition st1 2 "ETH") * P) /\
  500 * (2000 * 10 ^ 10) <= 1000 * (2000 * 10 ^ 10) * 8500 / 10000.
Proof.
  split; [|split].
  - destruct (liquidate_gate_is_the_liquidation_threshold (honest_env 3 100 2000) funded 2
                "ETH" 100) as (_ & H & _).
    apply (H funded (2000 * 10 ^ 10)); side_conditions.
  - destruct (liquidate_gate_is_the_liquidation_threshold
                (honest_env 3 after_146_days 2000) grown 2 "ETH" 900) as (_ & _ & H & _).
    apply (H liquidated). vm_compute. reflexivity.
  - assert (E : liquidate (honest_env 3 100 2000) funded 2 "ETH" 100
                = Err (Revert "Position is healthy")) by (vm_compute; reflexivity).
    destruct (liquidate_gate_is_the_liquidation_threshold (honest_env 3 100 2000) funded 2
                "ETH" 100) as (_ & _ & _ & _ & H).
    destruct (H funded (2000 * 10 ^ 10)) as [Hto _]; [side_conditions..|].
    specialize (Hto E). vm_compute in Hto. vm_compute. exact Hto.
Defined.

(** ** Seized collateral *)

Lemma collateralToSeize_fits (a p : Z) :
  0 < a -> 0 < p -> a * p * 11000 <= MAX_UINT256 ->
  collateralToSeize a p = Ok (a * 11000 / 10000).
Proof.
  intros Ha Hp F. unfold collateralToSeize.
  rewrite (checked_mul_fits a p) by nia. cbn [mbind result_bind].
  rewrite (checked_mul_fits _ _ F). cbn [mbind result_bind].
  rewrite (checked_mul_fits p 10000) by nia. cbn [mbind result_bind].
  rewrite checked_div_fits by lia. now rewrite seize_quotient.
Qed.

Lemma collateralToSeize_overflow (a p : Z) :
  0 < a -> 0 < p -> MAX_UINT256 < a * p * 11000 ->
  collateralToSeize a p = Err (Panic 17).
Proof.
  intros Ha Hp F. unfold collateralToSeize, checked_mul.
  destruct (Z.leb_spec (a * p) MAX_UINT256); [|reflexivity]. cbn [mbind result_bind].
  destruct (Z.leb_spec (a * p * 11000) MAX_UINT256); [lia | reflexivity].
Qed.

(** C7: the collateral seized by liquidate does not depend on the price.  For a
    liquidation amount a > 0 and a price p > 0, the code's
    (a * p * 11000) / (p * 10000) is floor(a * 11000 / 10000) whenever it yields
    a value, which it does when a * p * 11000 fits in 256 bits (otherwise the
    checked multiplication panics).  With a = min(amount, position.borrowed) on
    the accrued position, liquidate fails with "Insufficient collateral" whenever
    that value exceeds position.supplied, leaving the state as it was; and every
    successful liquidate seizes exactly that value, a plus a tenth of a: it is
    taken from position.supplied and from asset.totalSupplied and transferred to
    the liquidator, while a is taken from position.borrowed and from
    asset.totalBorrowed and pulled from the liquidator. *)
Theorem seized_collateral_is_a_ten_percent_bonus
    (env : Env) (st st1 : State) (borrower : address) (sym : string) (amount P : Z) :
  let p1 := readPosition st1 borrower sym in
  let a := Z.min amount (borrowed p1) in
  (forall a p v, 0 < p -> collateralToSeize a p = Ok v -> v = a * 11000 / 10000) /\
  (forall a p, 0 < a -> 0 < p -> a * p * 11000 <= MAX_UINT256 ->
     collateralToSeize a p = Ok (a * 11000 / 10000)) /\
  (forall a p, 0 < a -> 0 < p -> MAX_UINT256 < a * p * 11000 ->
     collateralToSeize a p = Err (Panic 17)) /\
  (isActive (readAsset st sym) = true -> 0 < amount ->
   0 < borrowed (readPosition st borrower sym) ->
   _updateInterest env st sym borrower = Ok st1 -> 0 <= borrowed p1 ->
   _isHealthy env st1 sym borrower = Ok false ->
   getAssetPrice env st1 sym = Ok P ->
   a * P * 11000 <= MAX_UINT256 ->
   supplied p1 < a * 11000 / 10000 ->
   liquidate env st borrower sym amount = Err (Revert "Insufficient collateral") /\
   commit env st (call_liquidate borrower sym amount) = st) /\
  (forall st', liquidate env st borrower sym amount = Ok st' ->
     exists st2 price,
       let p2 := readPosition st2 borrower sym in
       let a2 := readAsset st2 sym in
       let repaid := Z.min amount (borrowed p2) in
       let seized := repaid * 11000 / 10000 in
       _updateInterest env st sym borrower = Ok st2 /\
       getAssetPrice env st2 sym = Ok price /\ 0 < price /\
       collateralToSeize repaid price = Ok seized /\
       seized = repaid + repaid / 10 /\ seized <= supplied p2 /\
       readPosition st' borrower sym =
         mkUserPosition (supplied p2 - seized) (borrowed p2 - repaid)
                        (lastUpdateTimestamp p2) /\
       totalSupplied (readAsset st' sym) = totalSupplied a2 - seized /\
       totalBorrowed (readAsset st' sym) = totalBorrowed a2 - repaid /\
       token_transferFrom env (tokenAddress a2) (msg_sender env) (this env) repaid
         = Some true /\
       token_transfer env (tokenAddress a2) (msg_sender env) seized = Some true).
Proof.
  intros p1 a. split; [|split; [|split; [|split]]].
  - intros a' p v. apply collateralToSeize_Ok.
  - intros a' p. apply collateralToSeize_fits.
  - intros a' p. apply collateralToSeize_overflow.
  - intros Hact Hamt Hb Hacc Hb1 Hh HP F Hlow.
    assert (E : liquidate env st borrower sym amount = Err (Revert "Insufficient collateral")).
    { rewrite (liquidate_unfold env st st1 borrower sym amount Hact Hamt Hb Hacc), Hh.
      cbn [negb require mbind result_bind]. cbn zeta. rewrite HP. cbn [mbind result_bind].
      fold p1.
      assert (Hm : (if borrowed p1 <? amount then borrowed p1 else amount) = a).
      { unfold a. destruct (Z.ltb_spec (borrowed p1) amount); lia. }
      rewrite Hm.
      assert (Hnz : borrowed p1 <> 0).
      { intros Hz. unfold _isHealthy in Hh. fold p1 in Hh. rewrite Hz in Hh. discriminate Hh. }
      destruct (getAssetPrice_Ok _ _ _ _ HP) as (price & _ & _ & _ & HPpos & _).
      rewrite collateralToSeize_fits by (first [assumption | unfold a; lia]).
      cbn [mbind result_bind]. apply Z.leb_gt in Hlow. rewrite Hlow. reflexivity. }
    split; [exact E|]. exact (commit_Err env st (call_liquidate borrower sym amount) _ E).
  - intros st' H.
    pose proof (liquidate_pays_out _ _ _ _ _ _ H)
      as (st2 & price & seize & Hacc & HP & Hs & Hout).
    apply liquidate_Ok in H
      as (st2' & price' & seize' & _ & _ & _ & Hacc' & _ & HP' & Hs' & Hle & Hin & _ & _ & ->).
    cbn zeta in *. rewrite Hacc in Hacc'. injection Hacc' as <-.
    rewrite HP in HP'. injection HP' as <-. rewrite Hs in Hs'. injection Hs' as <-.
    destruct (getAssetPrice_Ok _ _ _ _ HP) as (_ & _ & _ & _ & HPpos & _).
    pose proof (collateralToSeize_Ok _ _ _ HPpos Hs) as Es. subst seize.
    exists st2, price. cbn zeta.
    split; [exact Hacc|]. split; [exact HP|]. split; [exact HPpos|]. split; [exact Hs|].
    split; [apply bonus_of_ten_percent|]. split; [exact Hle|].
    simpl_reads. split; [reflexivity|].
    cbn [totalSupplied totalBorrowed add_totals set_totalSupplied set_totalBorrowed].
    split; [lia|]. split; [lia|]. split; [exact Hin | exact Hout].
Qed.

Lemma seized_collateral_is_a_ten_percent_bonus_witness :
  collateralToSeize 1400 (2000 * 10 ^ 10) = Ok (1400 * 11000 / 10000) /\
  liquidate (honest_env 3 (100 + days_365) 2000) leveraged 2 "ETH" 2000
    = Err (Revert "Insufficient collateral") /\
  readPosition liquidated 2 "ETH" =
    mkUserPosition (1001 - 900 * 11000 / 10000) (980 - 900) after_146_days.
Proof.
  destruct (seized_collateral_is_a_ten_percent_bonus
              (honest_env 3 (100 + days_365) 2000) leveraged
              (accrue (honest_env 3 (100 + days_365) 2000) leveraged "ETH" 2)
              2 "ETH" 2000 (2000 * 10 ^ 10)) as (_ & H1 & _ & H2 & _).
  split; [|split].
  - apply H1; side_conditions.
  - apply H2; side_conditions.
  - assert (E : liquidate (honest_env 3 after_146_days 2000) grown 2 "ETH" 900 = Ok liquidated)
      by (vm_compute; reflexivity).
    destruct (seized_collateral_is_a_ten_percent_bonus
                (honest_env 3 after_146_days 2000) grown grown 2 "ETH" 900 0)
      as (_ & _ & _ & _ & H3).
    destruct (H3 liquidated E) as (st2 & price & Hacc & _ & _ & _ & _ & _ & Rp & _).
    vm_compute in Hacc. injection Hacc as <-.
    vm_compute in Rp. vm_compute. exact Rp.
Defined.

(** ** Supply then withdraw *)

Lemma _updateInterest_settled (env : Env) (st : State) (sym : string) (u : address)
    (p : UserPosition) :
  userPositions st !! (u, sym) = Some p ->
  lastUpdateTimestamp p = block_timestamp env ->
  _updateInterest env st sym u = Ok st.
Proof.
  intros Hs Ht.
  assert (Hr : readPosition st u sym = p) by (unfold readPosition; now rewrite Hs).
  destruct (Z.eq_dec (block_timestamp env) 0) as [Hz | Hnz].
  - rewrite _updateInterest_first_touch by (rewrite Hr; congruence).
    rewrite Hr. f_equal.
    assert (Hp : set_lastUpdateTimestamp (block_timestamp env) p = p).
    { destruct p; cbn in Ht. unfold set_lastUpdateTimestamp; cbn. now rewrite Ht. }
    rewrite Hp. destruct st as [o a sy ps ev]. unfold writePosition; cbn in *.
    f_equal. now apply insert_id.
  - apply _updateInterest_no_elapsed; rewrite Hr; congruence.
Qed.

Lemma interest_nonneg (b r el : Z) : 0 <= b -> 0 <= r -> 0 <= el -> 0 <= interest b r el.
Proof.
  intros Hb Hr Hel. unfold interest. apply Z.div_pos; [nia | reflexivity].
Qed.

Lemma supplyInterestDue_nonneg (env : Env) (st : State) (sym : string) (u : address)
    (st1 : State) :
  _updateInterest env st sym u = Ok st1 ->
  0 <= supplied (readPosition st u sym) -> 0 <= supplyInterestRate (readAsset st sym) ->
  0 <= supplyInterestDue env st sym u.
Proof.
  intros H Hs Hr. unfold supplyInterestDue. cbn zeta.
  apply _updateInterest_cases in H. cbn zeta in H.
  destruct H as [[E0 _] | [(E0 & E1 & _) | (E0 & E1 & _)]].
  - rewrite E0. cbn. lia.
  - apply Z.eqb_neq in E0. rewrite E0, E1, Z.sub_diag, interest_0.
    destruct (0 <? _); lia.
  - apply Z.eqb_neq in E0. rewrite E0. destruct (0 <? _); [|lia].
    apply interest_nonneg; lia.
Qed.


Lemma due_zero_when_settled (env : Env) (st : State) (sym : string) (u : address) :
  lastUpdateTimestamp (readPosition st u sym) = 0 \/
  lastUpdateTimestamp (readPosition st u sym) = block_timestamp env ->
  supplyInterestDue env st sym u = 0 /\ borrowInterestDue env st sym u = 0.
Proof.
  intros H. unfold supplyInterestDue, borrowInterestDue. cbn zeta.
  destruct (Z.eqb_spec (lastUpdateTimestamp (readPosition st u sym)) 0) as [E0 | E0];
    [auto|].
  destruct H as [H | H]; [contradiction|].
  rewrite H, Z.sub_diag, !interest_0. split; destruct (0 <? _); reflexivity.
Qed.

(** C9, as the claim states it, fails: account 3 holds 1000 "ETH" stored at time
    100.  A year later supply(50) succeeds and withdraw(50), called at the same
    time with a passing health check, succeeds too; but position.supplied and
    asset.totalSupplied end at 1050, not at the 1000 they held before the supply:
    the supply call accrued 50 of interest, and the withdrawal does not undo it.
    Moreover a passing health check does not make the withdraw succeed: when the
    token refuses the transfer, it fails with "Transfer failed". *)
Lemma round_trip_keeps_the_interest_accrued_by_supply :
  reachable saved /\
  supplied (readPosition saved 3 "ETH") = 1000 /\
  totalSupplied (readAsset saved "ETH") = 1000 /\
  supply year_later saved "ETH" 50 = Ok topped_up /\
  _checkHealthFactor year_later topped_up "ETH" 3
    (supplied (readPosition topped_up 3 "ETH") - 50)
    (borrowed (readPosition topped_up 3 "ETH")) = Ok true /\
  withdraw year_later topped_up "ETH" 50 = Ok round_trip /\
  supplied (readPosition round_trip 3 "ETH") = 1050 /\
  totalSupplied (readAsset round_trip "ETH") = 1050 /\
  _checkHealthFactor year_later_refused topped_up "ETH" 3
    (supplied (readPosition topped_up 3 "ETH") - 50)
    (borrowed (readPosition topped_up 3 "ETH")) = Ok true /\
  withdraw year_later_refused topped_up "ETH" 50 = Err (Revert "Transfer failed").
Proof.
  split; [apply reachable_saved|].
  conjuncts; vm_compute; reflexivity.
Qed.

(** C9, amended: if supply(X) succeeds and withdraw(X) is then called by the same
    account at the same time, its health check passes and the token transfer
    succeeds, then the withdraw succeeds and brings position.supplied and
    asset.totalSupplied back to their values before the supply plus the supply
    interest that the supply call itself accrued.  When that call accrued nothing
    (the position was untouched before, or was last updated at this very time),
    both are exactly their values before the supply. *)
Theorem supply_then_withdraw_round_trip
    (env : Env) (st : State) (sym : string) (X : Z) (st1 : State) :
  let u := msg_sender env in
  let si := supplyInterestDue env st sym u in
  supply env st sym X = Ok st1 ->
  0 <= supplied (readPosition st u sym) -> 0 <= totalSupplied (readAsset st sym) ->
  0 <= supplyInterestRate (readAsset st sym) ->
  _checkHealthFactor env st1 sym u (supplied (readPosition st1 u sym) - X)
                     (borrowed (readPosition st1 u sym)) = Ok true ->
  token_transfer env (tokenAddress (readAsset st1 sym)) u X = Some true ->
  exists st2,
    withdraw env st1 sym X = Ok st2 /\
    supplied (readPosition st2 u sym) = supplied (readPosition st u sym) + si /\
    totalSupplied (readAsset st2 sym) = totalSupplied (readAsset st sym) + si /\
    (lastUpdateTimestamp (readPosition st u sym) = 0 \/
     lastUpdateTimestamp (readPosition st u sym) = block_timestamp env ->
     supplied (readPosition st2 u sym) = supplied (readPosition st u sym) /\
     totalSupplied (readAsset st2 sym) = totalSupplied (readAsset st sym)).
Proof.
  intros u si Hsup Hs Hts Hsr Hh Htr.
  pose proof (supply_Ok _ _ _ _ _ Hsup) as (stA & Hact & HX & Hacc & _ & _ & _ & Est1).
  cbn zeta in *. fold u in Hacc, Est1.
  pose proof (_updateInterest_moved _ _ _ _ _ Hacc) as M.
  pose proof (moved_readAsset _ _ _ _ _ _ _ sym M) as Ra. rewrite decide_True in Ra by done.
  pose proof (moved_readPosition _ _ _ _ _ _ _ u sym M) as Rp.
  rewrite decide_True in Rp by done.
  pose proof (supplyInterestDue_nonneg _ _ _ _ _ Hacc Hs Hsr) as Hsi. fold si in Hsi, Ra, Rp.
  assert (Rp1 : readPosition st1 u sym =
                set_supplied (supplied (readPosition stA u sym) + X) (readPosition stA u sym)).
  { subst st1. now simpl_reads. }
  assert (Ra1 : readAsset st1 sym =
                set_totalSupplied (totalSupplied (readAsset stA sym) + X) (readAsset stA sym)).
  { subst st1. now simpl_reads. }
  assert (Hsettled : _updateInterest env st1 sym u = Ok st1).
  { apply (_updateInterest_settled env st1 sym u (readPosition st1 u sym)).
    - rewrite Rp1. subst st1. cbn. apply lookup_insert_eq.
    - rewrite Rp1, Rp. reflexivity. }
  assert (Es : supplied (readPosition st1 u sym) = supplied (readPosition st u sym) + si + X).
  { rewrite Rp1, Rp. reflexivity. }
  assert (Et : totalSupplied (readAsset st1 sym) = totalSupplied (readAsset st sym) + si + X).
  { rewrite Ra1, Ra. reflexivity. }
  assert (Ew : withdraw env st1 sym X =
    Ok (emit (Withdrawn u sym X)
          (writeAsset
             (writePosition st1 u sym
                (set_supplied (supplied (readPosition st1 u sym) - X) (readPosition st1 u sym)))
             sym (set_totalSupplied (totalSupplied (readAsset st1 sym) - X)
                                    (readAsset st1 sym))))).
  { unfold withdraw. cbn beta zeta. fold u.
    assert (Hact1 : isActive (readAsset st1 sym) = true) by (now rewrite Ra1, Ra).
    rewrite Hact1. cbn [require mbind result_bind].
    apply Z.ltb_lt in HX. rewrite HX. cbn [require mbind result_bind]. apply Z.ltb_lt in HX.
    assert (Hge : (X <=? supplied (readPosition st1 u sym)) = true)
      by (apply Z.leb_le; lia).
    rewrite Hge. cbn [require mbind result_bind].
    rewrite Hsettled. cbn [mbind result_bind].
    rewrite checked_sub_fits by lia. cbn [mbind result_bind].
    rewrite Hh. cbn [require mbind result_bind]. simpl_reads.
    rewrite checked_sub_fits by lia. cbn [mbind result_bind]. simpl_reads.
    cbn [tokenAddress set_totalSupplied]. rewrite Htr. reflexivity. }
  eexists. split; [exact Ew|]. simpl_reads.
  cbn [supplied set_supplied totalSupplied set_totalSupplied].
  assert (R1 : supplied (readPosition st1 u sym) - X = supplied (readPosition st u sym) + si)
    by lia.
  assert (R2 : totalSupplied (readAsset st1 sym) - X = totalSupplied (readAsset st sym) + si)
    by lia.
  split; [exact R1|]. split; [exact R2|].
  intros Hz. destruct (due_zero_when_settled env st sym u Hz) as [Hz1 _].
  fold si in Hz1. lia.
Qed.

Lemma supply_then_withdraw_round_trip_witness :
  exists st2,
    withdraw year_later topped_up "ETH" 50 = Ok st2 /\
    supplied (readPosition st2 3 "ETH") = 1000 + 50 /\
    totalSupplied (readAsset st2 "ETH") = 1000 + 50.
Proof.
  destruct (supply_then_withdraw_round_trip year_later saved "ETH" 50 topped_up)
    as (st2 & E & Rs & Rt & _); side_conditions.
  exists st2. split; [exact E|].
  vm_compute in Rs. vm_compute in Rt. split; [exact Rs | exact Rt].
Defined.

(** ** Sums over positions *)

Section Sums.
Variable f : UserPosition -> Z.
Variable sym : string.

Lemma sum_positions_empty : sum_positions f sym ∅ = 0.
Proof. unfold sum_positions. apply map_fold_empty. Qed.

Lemma sum_positions_insert_fresh (m : gmap (address * string) UserPosition)
    (k : address * string) (p : UserPosition) :
  m !! k = None ->
  sum_positions f sym (<[k := p]> m) =
  (if decide (snd k = sym) then f p else 0) + sum_positions f sym m.
Proof.
  intros Hk. unfold sum_positions. rewrite map_fold_insert_L.
  - destruct (decide (snd k = sym)); lia.
  - intros j1 j2 z1 z2 y _ _ _.
    destruct (decide (snd j1 = sym)), (decide (snd j2 = sym)); lia.
  - exact Hk.
Qed.

Lemma sum_positions_insert (m : gmap (address * string) UserPosition)
    (k : address * string) (p : UserPosition) :
  f zeroPosition = 0 ->
  sum_positions f sym (<[k := p]> m) =
  sum_positions f sym m +
  (if decide (snd k = sym) then f p - f (default zeroPosition (m !! k)) else 0).
Proof.
  intros Hz. destruct (m !! k) as [q|] eqn:Hk; cbn [default id].
  - pose proof (sum_positions_insert_fresh (delete k m) k p (lookup_delete_eq m k)) as E1.
    pose proof (sum_positions_insert_fresh (delete k m) k q (lookup_delete_eq m k)) as E2.
    rewrite insert_delete_eq in E1. rewrite (insert_delete_id m k q Hk) in E2.
    rewrite E1, E2. destruct (decide (snd k = sym)); lia.
  - rewrite sum_positions_insert_fresh by exact Hk. rewrite Hz.
    destruct (decide (snd k = sym)); lia.
Qed.

Lemma sum_positions_updated (m m' : gmap (address * string) UserPosition)
    (k : address * string) (p : UserPosition) :
  f zeroPosition = 0 ->
  updated_at zeroPosition m k p m' ->
  sum_positions f sym m' =
  sum_positions f sym m +
  (if decide (snd k = sym) then f p - f (default zeroPosition (m !! k)) else 0).
Proof.
  intros Hz [-> | [-> Hp]].
  - now apply sum_positions_insert.
  - rewrite Hp. destruct (decide (snd k = sym)); lia.
Qed.

Lemma sum_positions_zero (m : gmap (address * string) UserPosition) :
  (forall k p, m !! k = Some p -> snd k = sym -> f p = 0) ->
  sum_positions f sym m = 0.
Proof.
  induction m as [|k p m Hk IH] using map_ind; intros H.
  - apply sum_positions_empty.
  - rewrite sum_positions_insert_fresh by exact Hk.
    rewrite IH.
    + destruct (decide (snd k = sym)) as [E|]; [|reflexivity].
      rewrite (H k p); [reflexivity | apply lookup_insert_eq | exact E].
    + intros k' p' Hk' E. apply (H k' p'); [|exact E].
      rewrite lookup_insert_ne; [exact Hk' | congruence].
Qed.
End Sums.




(** ** The ledger invariant is kept while debts stay covered *)

Lemma ledger_inv_init (deployer : address) : ledger_inv (constructor deployer).
Proof.
  assert (Ra : forall s, readAsset (constructor deployer) s = zeroAsset).
  { intros s. unfold readAsset. cbn. now rewrite lookup_empty. }
  assert (Rp : forall u s, readPosition (constructor deployer) u s = zeroPosition).
  { intros u s. unfold readPosition. cbn. now rewrite lookup_empty. }
  split; [|split; [|split]].
  - intros s. rewrite Ra. cbn [userPositions constructor].
    rewrite !sum_positions_empty. split; reflexivity.
  - intros k p Hk. cbn in Hk. rewrite lookup_empty in Hk. discriminate.
  - intros s. rewrite Ra. cbn. lia.
  - intros s u _. rewrite Rp. split; reflexivity.
Qed.


















Lemma honest_no_code (sender now price : Z) : no_code_at_zero (honest_env sender now price).
Proof. split; intros; cbn; discriminate. Qed.

Lemma run_reachable_quiet (txs : list (Env * Call)) (st : State) :
  reachable_by no_borrow_interest st ->
  Forall (fun tx => no_code_at_zero (fst tx)) txs ->
  quiet_run st txs = true ->
  reachable_by no_borrow_interest (run_state st txs).
Proof.
  intros R F Q.
  assert (G : exists st', run st txs = Ok st' /\ reachable_by no_borrow_interest st').
  { revert st R F Q. induction txs as [| [env c] txs IH]; intros st R F Q.
    - exists st. split; [reflexivity | exact R].
    - cbn in Q. apply andb_true_iff in Q as [Q1 Q2].
      unfold quiet_txb in Q1. apply andb_true_iff in Q1 as [V Hb]. cbn [fst snd] in Hb.
      unfold valid_txb in V. apply andb_true_iff in V as [Vt Vc]. cbn in Vt, Vc.
      apply Z.leb_le in Vt.
      inversion F as [| tx l Fz F' ]; subst. cbn in Fz.
      destruct (exec env st c) as [st1|e] eqn:E; [|discriminate Q2].
      assert (R1 : reachable_by no_borrow_interest st1).
      { eapply reach_step; [exact R | apply valid_callb_spec, Vc | exact Vt | | exact E].
        split; [exact Fz|]. destruct (target env c) as [[u s]|]; [|exact I].
        now apply Z.eqb_eq. }
      destruct (IH st1 R1 F' Q2) as (st' & E' & R').
      exists st'. split; [|exact R']. cbn. rewrite E. exact E'. }
  destruct G as (st' & E & R'). unfold run_state. now rewrite E.
Qed.

Lemma quiet_funded : reachable_by no_borrow_interest funded.
Proof.
  apply (run_reachable_quiet open_position deployed).
  - apply reach_init.
  - repeat constructor; apply honest_no_code.
  - vm_compute. reflexivity.
Qed.


Lemma reachable_grown : reachable grown.
Proof.
  apply (run_reachable early_supply deployed); [apply reachable_deployed | | ];
    vm_compute; reflexivity.
Qed.

Lemma reachable_liquidated : reachable liquidated.
Proof.
  apply (run_reachable early_liquidation deployed); [apply reachable_deployed | | ];
    vm_compute; reflexivity.
Qed.





(** * Further properties of the contract *)

(** ** Storage stays within uint256 *)

Lemma uint256_0 : uint256 0.
Proof. unfold uint256, MAX_UINT256. lia. Qed.

Lemma typed_zeroAsset : typed_asset zeroAsset.
Proof. repeat split; cbn; try lia; discriminate. Qed.

Lemma typed_zeroPosition : typed_position zeroPosition.
Proof. repeat split; cbn; try lia; discriminate. Qed.

Lemma typed_init (deployer : address) : typed_state (constructor deployer).
Proof.
  intros sym. split.
  - unfold readAsset. cbn. rewrite lookup_empty. apply typed_zeroAsset.
  - intros u. unfold readPosition. cbn. rewrite lookup_empty. apply typed_zeroPosition.
Qed.

Lemma typed_writeAsset (st : State) (sym : string) (a : Asset) :
  typed_state st -> typed_asset a -> typed_state (writeAsset st sym a).
Proof.
  intros T Ha s'. rewrite readAsset_writeAsset. split.
  - destruct (decide (sym = s')); [exact Ha | apply T].
  - intros u. rewrite readPosition_writeAsset. apply T.
Qed.

Lemma typed_writePosition (st : State) (u : address) (sym : string) (p : UserPosition) :
  typed_state st -> typed_position p -> typed_state (writePosition st u sym p).
Proof.
  intros T Hp s'. split.
  - rewrite readAsset_writePosition. apply T.
  - intros u'. rewrite readPosition_writePosition.
    destruct (decide ((u, sym) = (u', s'))); [exact Hp | apply T].
Qed.

Lemma typed_reads (st : State) (sym : string) (u : address) :
  typed_state st -> typed_asset (readAsset st sym) /\ typed_position (readPosition st u sym).
Proof. intros T. destruct (T sym) as [Ha Hp]. auto. Qed.

Lemma typed_set_totalSupplied (v : Z) (a : Asset) :
  typed_asset a -> uint256 v -> typed_asset (set_totalSupplied v a).
Proof. intros (?&?&?&?&?&?&?) Hv. repeat split; cbn; try apply Hv; unfold uint256 in *; lia. Qed.

Lemma typed_set_totalBorrowed (v : Z) (a : Asset) :
  typed_asset a -> uint256 v -> typed_asset (set_totalBorrowed v a).
Proof. intros (?&?&?&?&?&?&?) Hv. repeat split; cbn; try apply Hv; unfold uint256 in *; lia. Qed.

Lemma typed_set_supplied (v : Z) (p : UserPosition) :
  typed_position p -> uint256 v -> typed_position (set_supplied v p).
Proof. intros (?&?&?) Hv. repeat split; cbn; try apply Hv; unfold uint256 in *; lia. Qed.

Lemma typed_set_borrowed (v : Z) (p : UserPosition) :
  typed_position p -> uint256 v -> typed_position (set_borrowed v p).
Proof. intros (?&?&?) Hv. repeat split; cbn; try apply Hv; unfold uint256 in *; lia. Qed.

Lemma typed_set_lastUpdateTimestamp (v : Z) (p : UserPosition) :
  typed_position p -> 0 <= v -> typed_position (set_lastUpdateTimestamp v p).
Proof. intros (?&?&?) Hv. repeat split; cbn; unfold uint256 in *; lia. Qed.

Lemma accrued_amount_nonneg (b r el : Z) :
  0 <= b -> 0 <= r -> 0 <= el -> 0 <= b * r * el / (10000 * days_365).
Proof. intros. apply Z.div_pos; [nia | reflexivity]. Qed.

Lemma _updateInterest_typed (env : Env) (st : State) (sym : string) (u : address) (st1 : State) :
  typed_state st -> 0 <= block_timestamp env ->
  _updateInterest env st sym u = Ok st1 -> typed_state st1.
Proof.
  intros T Hnow H. unfold _updateInterest in H.
  destruct (typed_reads st sym u T) as [Ha Hp].
  destruct (lastUpdateTimestamp (readPosition st u sym) =? 0).
  { injection H as <-. apply typed_writePosition; [exact T|].
    now apply typed_set_lastUpdateTimestamp. }
  ok_step H. cbn beta zeta in H.
  destruct (_ =? 0); [injection H as <-; exact T|].
  apply bind_Ok in H as (sta & Ea & H). apply bind_Ok in H as (stb & Eb & H).
  injection H as <-.
  assert (Ta : typed_state sta).
  { destruct (Z.ltb_spec 0 (supplied (readPosition st u sym))) as [Hs|Hs];
      [|injection Ea as <-; exact T].
    ok_steps Ea. subst sta.
    destruct Ha as (_&_&_&Hts&_&Hsr&_), Hp as (Hsp&_&_).
    pose proof (accrued_amount_nonneg (supplied (readPosition st u sym))
                  (supplyInterestRate (readAsset st sym))
                  (block_timestamp env - lastUpdateTimestamp (readPosition st u sym))
                  (proj1 Hsp) (proj1 Hsr) ltac:(lia)) as Hi.
    apply typed_writeAsset; [apply typed_writePosition; [exact T|]|].
    - apply typed_set_supplied; [apply T | unfold uint256 in *; lia].
    - apply typed_set_totalSupplied; [apply T | unfold uint256 in *; lia]. }
  assert (Tb : typed_state stb).
  { destruct (typed_reads sta sym u Ta) as [Ha' Hp'].
    destruct (Z.ltb_spec 0 (borrowed (readPosition sta u sym))) as [Hs|Hs];
      [|injection Eb as <-; exact Ta].
    ok_steps Eb. subst stb.
    destruct Ha' as (_&_&_&_&Htb&_&Hbr), Hp' as (_&Hbp&_).
    pose proof (accrued_amount_nonneg (borrowed (readPosition sta u sym))
                  (borrowInterestRate (readAsset sta sym))
                  (block_timestamp env - lastUpdateTimestamp (readPosition st u sym))
                  (proj1 Hbp) (proj1 Hbr) ltac:(lia)) as Hi.
    apply typed_writeAsset; [apply typed_writePosition; [exact Ta|]|].
    - apply typed_set_borrowed; [apply Ta | unfold uint256 in *; lia].
    - apply typed_set_totalBorrowed; [apply Ta | unfold uint256 in *; lia]. }
  apply typed_writePosition; [exact Tb|].
  apply typed_set_lastUpdateTimestamp; [apply Tb | exact Hnow].
Qed.

Lemma exec_typed (env : Env) (st : State) (c : Call) (st' : State) :
  typed_state st -> valid_call c -> 0 <= block_timestamp env ->
  exec env st c = Ok st' -> typed_state st'.
Proof.
  intros T V Hnow H. destruct c; cbn in V, H.
  - apply addAsset_Ok in H as (_ & _ & _ & ->).
    destruct V as (_ & _ & ? & ? & ? & ? & ?).
    apply (typed_writeAsset st); [exact T|]. repeat split; cbn; try lia; try apply uint256_0;
      match goal with H : uint256 ?v |- _ <= ?v => apply H | H : uint256 ?v |- ?v <= _ => apply H end.
  - apply updateAsset_Ok in H as (_ & _ & _ & ->).
    destruct V as (? & ? & ? & ? & ?).
    destruct (typed_reads st symbol 0 T) as [(_&_&_&Hts&Htb&_&_) _].
    apply (typed_writeAsset st); [exact T|]. repeat split; cbn;
      first [ apply Hts | apply Htb
            | match goal with H : uint256 ?v |- _ <= ?v => apply H
                            | H : uint256 ?v |- ?v <= _ => apply H end ].
  - apply supply_Ok in H as (st1 & _ & HX & Hacc & _ & F1 & F2 & ->). cbn zeta in *.
    pose proof (_updateInterest_typed _ _ _ _ _ T Hnow Hacc) as T1.
    destruct (typed_reads st1 symbol (msg_sender env) T1) as [(_&_&_&Hts&_) (Hs&_)].
    apply (typed_writeAsset (writePosition _ _ _ _)); [apply typed_writePosition; [exact T1|]|].
    + apply typed_set_supplied; [apply T1 | unfold uint256 in *; lia].
    + apply typed_set_totalSupplied; [apply T1 | unfold uint256 in *; lia].
  - apply withdraw_Ok in H as (st1 & _ & HX & _ & Hacc & F1 & _ & F2 & _ & ->). cbn zeta in *.
    pose proof (_updateInterest_typed _ _ _ _ _ T Hnow Hacc) as T1.
    destruct (typed_reads st1 symbol (msg_sender env) T1) as [(_&_&_&Hts&_) (Hs&_)].
    apply (typed_writeAsset (writePosition _ _ _ _)); [apply typed_writePosition; [exact T1|]|].
    + apply typed_set_supplied; [apply T1 | unfold uint256 in *; lia].
    + apply typed_set_totalSupplied; [apply T1 | unfold uint256 in *; lia].
  - apply borrow_Ok in H as (st1 & _ & HX & _ & _ & Hacc & F1 & _ & F2 & _ & ->). cbn zeta in *.
    pose proof (_updateInterest_typed _ _ _ _ _ T Hnow Hacc) as T1.
    destruct (typed_reads st1 symbol (msg_sender env) T1) as [(_&_&_&_&Htb&_) (_&Hb&_)].
    apply (typed_writeAsset (writePosition _ _ _ _)); [apply typed_writePosition; [exact T1|]|].
    + apply typed_set_borrowed; [apply T1 | unfold uint256 in *; lia].
    + apply typed_set_totalBorrowed; [apply T1 | unfold uint256 in *; lia].
  - apply repay_Ok in H as (st1 & _ & HX & _ & Hacc & _ & F1 & ->). cbn zeta in *.
    pose proof (_updateInterest_typed _ _ _ _ _ T Hnow Hacc) as T1.
    destruct (typed_reads st1 symbol (msg_sender env) T1) as [(_&_&_&_&Htb&_) (_&Hb&_)].
    apply (typed_writeAsset (writePosition _ _ _ _)); [apply typed_writePosition; [exact T1|]|].
    + apply typed_set_borrowed; [apply T1 | unfold uint256 in *; lia].
    + apply typed_set_totalBorrowed; [apply T1 | unfold uint256 in *; lia].
  - apply liquidate_Ok in H
      as (st1 & P & seize & _ & HX & _ & Hacc & _ & HP & Hseize & F1 & _ & F2 & F3 & ->).
    cbn zeta in *.
    pose proof (_updateInterest_typed _ _ _ _ _ T Hnow Hacc) as T1.
    destruct (typed_reads st1 symbol borrower T1) as [Ha (Hs&Hb&Ht)].
    destruct (getAssetPrice_Ok _ _ _ _ HP) as (_ & _ & _ & _ & HPpos & _).
    apply collateralToSeize_Ok in Hseize; [|exact HPpos].
    assert (Hse : 0 <= seize).
    { rewrite Hseize. apply Z.div_pos; [|reflexivity]. unfold uint256 in *. lia. }
    apply (typed_writeAsset (writePosition _ _ _ _)); [apply typed_writePosition; [exact T1|]|].
    + repeat split; cbn; unfold uint256 in *; lia.
    + destruct Ha as (?&?&?&?&?&?&?). repeat split; cbn; unfold uint256 in *; lia.
Qed.

Lemma reachable_typed (P : Env -> State -> Call -> Prop) (st : State) :
  reachable_by P st -> typed_state st.
Proof.
  induction 1 as [d | env st c st' _ IH V Ht _ H].
  - apply typed_init.
  - eapply exec_typed; eassumption.
Qed.

(** X1: in every reachable state every stored total, balance, rate and factor is
    a uint256 (between 0 and 2^256 - 1) and no timestamp is negative: the checked
    arithmetic never lets a balance go below zero or wrap around. *)
Theorem stored_amounts_are_uint256 (st : State) (sym : string) (u : address) :
  reachable st ->
  typed_asset (readAsset st sym) /\ typed_position (readPosition st u sym).
Proof. intros R. apply typed_reads. exact (reachable_typed _ st R). Qed.

Lemma stored_amounts_are_uint256_witness :
  typed_asset (readAsset liquidated "ETH") /\ typed_position (readPosition liquidated 2 "ETH").
Proof. exact (stored_amounts_are_uint256 liquidated "ETH" 2 reachable_liquidated). Defined.

(** ** The totals are the sums of the positions *)

Lemma ledger_call_token (env : Env) (st : State) (c : Call) (st' : State)
    (u : address) (sym : string) :
  exec env st c = Ok st' -> target env c = Some (u, sym) -> no_code_at_zero env ->
  tokenAddress (readAsset st sym) <> 0.
Proof.
  intros H T [Hz1 Hz2] Hz.
  assert (Hfeed : forall st1, _updateInterest env st sym u = Ok st1 ->
                    tokenAddress (readAsset st1 sym) = 0).
  { intros st1 Hacc. apply _updateInterest_moved in Hacc.
    rewrite (moved_readAsset _ _ _ _ _ _ _ sym Hacc), decide_True by done. exact Hz. }
  destruct c; cbn in T, H; try discriminate; injection T as <- <-.
  - apply supply_Ok in H as (st1 & _ & _ & Hacc & Htr & _). cbn zeta in Htr.
    rewrite (Hfeed _ Hacc) in Htr. exact (Hz1 _ _ _ Htr).
  - apply withdraw_Ok in H as (st1 & _ & _ & _ & Hacc & _ & _ & _ & Htr & _). cbn zeta in Htr.
    rewrite (Hfeed _ Hacc) in Htr. exact (Hz2 _ _ Htr).
  - apply borrow_Ok in H as (st1 & _ & _ & _ & _ & Hacc & _ & _ & _ & Htr & _). cbn zeta in Htr.
    rewrite (Hfeed _ Hacc) in Htr. exact (Hz2 _ _ Htr).
  - apply repay_Ok in H as (st1 & _ & _ & _ & Hacc & Htr & _). cbn zeta in Htr.
    rewrite (Hfeed _ Hacc) in Htr. exact (Hz1 _ _ _ Htr).
  - apply liquidate_Ok in H as (st1 & P & seize & _ & _ & _ & Hacc & _ & _ & _ & _ & Htr & _).
    cbn zeta in Htr. rewrite (Hfeed _ Hacc) in Htr. exact (Hz1 _ _ _ Htr).
Qed.

Lemma books_inv_init (deployer : address) : books_inv (constructor deployer).
Proof.
  destruct (ledger_inv_init deployer) as (I1 & _ & _ & I4). split; assumption.
Qed.

Lemma books_inv_moved (st st' : State) (sym : string) (u : address) (ds db t : Z) :
  books_inv st -> moved st sym u ds db t st' -> tokenAddress (readAsset st sym) <> 0 ->
  books_inv st'.
Proof.
  intros (I1 & I4) M Ht.
  pose proof M as (_ & _ & _ & Mp).
  split.
  - intros s'. specialize (I1 s') as [I1s I1b].
    rewrite (moved_readAsset _ _ _ _ _ _ _ s' M).
    rewrite (sum_positions_updated supplied s' _ _ _ _ eq_refl Mp).
    rewrite (sum_positions_updated borrowed s' _ _ _ _ eq_refl Mp).
    fold (readPosition st u sym). cbn [snd supplied borrowed].
    destruct (decide (sym = s')) as [<- | Hne]; [cbn|]; lia.
  - intros s' u' Hz. rewrite (moved_readAsset _ _ _ _ _ _ _ s' M) in Hz.
    destruct (decide (sym = s')) as [<- | Hne]; [contradiction|].
    rewrite (moved_readPosition _ _ _ _ _ _ _ u' s' M), decide_False by congruence.
    now apply I4.
Qed.

Lemma books_inv_step (env : Env) (st : State) (c : Call) (st' : State) :
  books_inv st -> no_code_at_zero env -> exec env st c = Ok st' -> books_inv st'.
Proof.
  intros I Hz H. destruct (target env c) as [[u sym]|] eqn:T.
  - destruct (ledger_exec_moved _ _ _ _ _ _ H T) as (_ & ds & db & M).
    apply (books_inv_moved _ _ _ _ _ _ _ I M).
    exact (ledger_call_token _ _ _ _ _ _ H T Hz).
  - destruct I as (I1 & I4). destruct c; try discriminate; cbn in H.
    + apply addAsset_Ok in H as (_ & Ht & _ & ->).
      assert (Ra : forall s', readAsset (emit (AssetAdded symbol token feed)
                 (pushSymbol (writeAsset st symbol (mkAsset token feed cf bf lt 0 0 sr br true))
                    symbol)) s'
                 = if decide (symbol = s') then mkAsset token feed cf bf lt 0 0 sr br true
                   else readAsset st s').
      { intros s'. apply readAsset_writeAsset. }
      split.
      * intros s'. rewrite Ra. cbn [userPositions emit pushSymbol writeAsset].
        destruct (decide (symbol = s')) as [<- | Hne]; [|apply I1].
        cbn [totalSupplied totalBorrowed].
        split; symmetry; apply sum_positions_zero; intros [u s] p Hk Es; cbn in Es; subst s;
          destruct (I4 symbol u Ht) as [Hs Hb]; unfold readPosition in Hs, Hb;
          rewrite Hk in Hs, Hb; assumption.
      * intros s' u Hz'. change (readPosition _ u s') with (readPosition st u s').
        rewrite Ra in Hz'. destruct (decide (symbol = s')) as [<- | Hne]; apply I4; assumption.
    + apply updateAsset_Ok in H as (_ & Ht & _ & ->). split.
      * intros s'. rewrite readAsset_emit, readAsset_writeAsset.
        cbn [userPositions emit writeAsset].
        destruct (decide (symbol = s')) as [<- | Hne]; apply I1.
      * intros s' u Hz'. change (readPosition _ u s') with (readPosition st u s').
        rewrite readAsset_emit, readAsset_writeAsset in Hz'.
        destruct (decide (symbol = s')) as [<- | Hne]; [contradiction | now apply I4].
Qed.

Lemma reachable_books_inv (st : State) :
  reachable_by zero_address_empty st -> books_inv st.
Proof.
  induction 1 as [d | env st c st' _ IH _ _ Hz H].
  - apply books_inv_init.
  - eapply books_inv_step; eassumption.
Qed.

Lemma run_reachable_by (P : Env -> State -> Call -> Prop) (txs : list (Env * Call))
    (st st' : State) :
  reachable_by P st -> forallb valid_txb txs = true ->
  (forall env s c, In (env, c) txs -> P env s c) ->
  run st txs = Ok st' -> reachable_by P st'.
Proof.
  revert st. induction txs as [| [env c] txs IH]; intros st R V HP H.
  - injection H as <-. exact R.
  - cbn in V. apply andb_true_iff in V as [V1 V2].
    unfold valid_txb in V1. apply andb_true_iff in V1 as [Vt Vc]. cbn in Vt, Vc.
    apply Z.leb_le in Vt.
    cbn in H. apply bind_Ok in H as (st1 & H1 & H).
    apply (IH st1); [|exact V2| |exact H].
    + eapply reach_step; [exact R | apply valid_callb_spec, Vc | exact Vt | | exact H1].
      apply HP. now left.
    + intros env' s c' Hin. apply HP. now right.
Qed.

(** X2: with no contract at the zero address, in every reachable state the
    totals of every asset equal the sums of the balances of its positions:
    totalSupplied is the sum of supplied and totalBorrowed the sum of borrowed
    over all accounts, interest accrual and liquidations included. *)
Theorem totals_are_the_sums_of_positions (st : State) (sym : string) :
  reachable_by zero_address_empty st ->
  totalSupplied (readAsset st sym) = sum_positions supplied sym (userPositions st) /\
  totalBorrowed (readAsset st sym) = sum_positions borrowed sym (userPositions st).
Proof. intros R. apply (reachable_books_inv st R). Qed.

Lemma totals_are_the_sums_of_positions_witness :
  totalSupplied (readAsset liquidated "ETH")
    = sum_positions supplied "ETH" (userPositions liquidated) /\
  totalBorrowed (readAsset liquidated "ETH")
    = sum_positions borrowed "ETH" (userPositions liquidated).
Proof.
  apply totals_are_the_sums_of_positions.
  apply (run_reachable_by zero_address_empty early_liquidation deployed).
  - apply reach_init.
  - vm_compute. reflexivity.
  - intros env s c Hin. unfold zero_address_empty.
    repeat (destruct Hin as [Hin | Hin]; [injection Hin as <- _; apply honest_no_code|]).
    destruct Hin.
  - vm_compute. reflexivity.
Defined.

(** ** What a ledger call leaves alone *)

(** X3: a successful supply, withdraw, borrow, repay or liquidate writes only the
    position it works on and the two totals of its asset.  The owner, the list of
    symbols, every other asset, every other position and all parameters of the
    asset (token, feed, factors, threshold, rates, isActive) are unchanged; each
    total moves by exactly the amount the position moves, and the position's
    lastUpdateTimestamp becomes the time of the call. *)
Theorem ledger_call_footprint (env : Env) (st : State) (c : Call) (st' : State)
    (u : address) (sym : string) :
  exec env st c = Ok st' -> target env c = Some (u, sym) ->
  let a := readAsset st sym in
  let a' := readAsset st' sym in
  owner st' = owner st /\ getAllAssets st' = getAllAssets st /\
  (forall s', sym <> s' -> readAsset st' s' = readAsset st s') /\
  (forall u' s', (u, sym) <> (u', s') -> readPosition st' u' s' = readPosition st u' s') /\
  (tokenAddress a' = tokenAddress a /\ priceFeedAddress a' = priceFeedAddress a /\
   collateralFactor a' = collateralFactor a /\ borrowFactor a' = borrowFactor a /\
   liquidationThreshold a' = liquidationThreshold a /\
   supplyInterestRate a' = supplyInterestRate a /\
   borrowInterestRate a' = borrowInterestRate a /\ isActive a' = isActive a) /\
  totalSupplied a' - totalSupplied a =
    supplied (readPosition st' u sym) - supplied (readPosition st u sym) /\
  totalBorrowed a' - totalBorrowed a =
    borrowed (readPosition st' u sym) - borrowed (readPosition st u sym) /\
  lastUpdateTimestamp (readPosition st' u sym) = block_timestamp env.
Proof.
  intros H T a a'.
  destruct (ledger_exec_moved _ _ _ _ _ _ H T) as (_ & ds & db & M).
  pose proof (moved_readAsset _ _ _ _ _ _ _ sym M) as Ra. rewrite decide_True in Ra by done.
  pose proof (moved_readPosition _ _ _ _ _ _ _ u sym M) as Rp.
  rewrite decide_True in Rp by done.
  pose proof M as (Ho & Hs & _).
  split; [exact Ho|]. split; [exact Hs|].
  split; [intros s' Hne; now rewrite (moved_readAsset _ _ _ _ _ _ _ s' M), decide_False|].
  split; [intros u' s' Hne;
          now rewrite (moved_readPosition _ _ _ _ _ _ _ u' s' M), decide_False|].
  unfold a', a. rewrite Ra, Rp. cbn. repeat split; lia.
Qed.

Lemma ledger_call_footprint_witness :
  totalBorrowed (readAsset borrowed_more "ETH") - totalBorrowed (readAsset funded "ETH") =
    borrowed (readPosition borrowed_more 2 "ETH") - borrowed (readPosition funded 2 "ETH") /\
  liquidationThreshold (readAsset borrowed_more "ETH")
    = liquidationThreshold (readAsset funded "ETH").
Proof.
  assert (E : exec (honest_env 2 100 2000) funded (call_borrow "ETH" 100) = Ok borrowed_more)
    by (vm_compute; reflexivity).
  destruct (ledger_call_footprint (honest_env 2 100 2000) funded (call_borrow "ETH" 100)
              borrowed_more 2 "ETH" E eq_refl)
    as (_ & _ & _ & _ & (_ & _ & _ & _ & Hlt & _) & _ & Hb & _).
  exact (conj Hb Hlt).
Defined.

(** ** Which failures each function has *)

Lemma fails_with_incl (l l' : list string) (e : error) :
  fails_with l e -> incl l l' -> fails_with l' e.
Proof. destruct e; cbn; auto. Qed.

Lemma require_fails (c : bool) (msg : string) (e : error) :
  require c msg = Err e -> fails_with [msg] e.
Proof. intros H. apply require_Err in H as [_ ->]. cbn. auto. Qed.

Lemma external_fails {A : Type} (o : option A) (e : error) :
  external o = Err e -> fails_with [] e.
Proof. intros H. apply external_Err in H as ->. exact I. Qed.

Lemma checked_add_fails (a b : Z) (e : error) : checked_add a b = Err e -> fails_with [] e.
Proof. unfold checked_add. destruct (_ <=? _); intros [= <-]. exact I. Qed.

Lemma checked_sub_fails (a b : Z) (e : error) : checked_sub a b = Err e -> fails_with [] e.
Proof. unfold checked_sub. destruct (_ <=? _); intros [= <-]. exact I. Qed.

Lemma checked_mul_fails (a b : Z) (e : error) : checked_mul a b = Err e -> fails_with [] e.
Proof. unfold checked_mul. destruct (_ <=? _); intros [= <-]. exact I. Qed.

Lemma checked_div_fails (a b : Z) (e : error) : checked_div a b = Err e -> fails_with [] e.
Proof. unfold checked_div. destruct (_ =? _); intros [= <-]. exact I. Qed.

Create HintDb fails.
#[local] Hint Resolve require_fails external_fails checked_add_fails
  checked_sub_fails checked_mul_fails checked_div_fails : fails.

Ltac fail_leaf H :=
  eapply fails_with_incl; [ solve [eauto 2 with fails] | incl_solve ].

Ltac fail_steps H :=
  first
    [ discriminate H
    | fail_leaf H
    | match type of H with
      | (if ?c then _ else _) = Err _ => destruct c; fail_steps H
      | mbind _ _ = Err _ =>
          let x := fresh "x" in let G := fresh "G" in
          apply bind_Err in H as [H | (x & G & H)];
          [ fail_steps H | cbn beta zeta in H; fail_steps H ]
      end ].

Lemma _updateInterest_fails (env : Env) (st : State) (sym : string) (u : address) (e : error) :
  _updateInterest env st sym u = Err e -> fails_with [] e.
Proof. intros H. unfold _updateInterest in H. cbn beta zeta in H. fail_steps H. Qed.

Lemma getAssetPrice_fails (env : Env) (st : State) (sym : string) (e : error) :
  getAssetPrice env st sym = Err e ->
  fails_with ["Asset does not exist"; "Invalid price"] e.
Proof. intros H. unfold getAssetPrice in H. cbn beta zeta in H. fail_steps H. Qed.

#[local] Hint Resolve _updateInterest_fails getAssetPrice_fails : fails.

Lemma _checkHealthFactor_fails (env : Env) (st : State) (sym : string) (u : address)
    (s b : Z) (e : error) :
  _checkHealthFactor env st sym u s b = Err e ->
  fails_with ["Asset does not exist"; "Invalid price"] e.
Proof. intros H. unfold _checkHealthFactor in H. cbn beta zeta in H. fail_steps H. Qed.

Lemma _isHealthy_fails (env : Env) (st : State) (sym : string) (u : address) (e : error) :
  _isHealthy env st sym u = Err e ->
  fails_with ["Asset does not exist"; "Invalid price"] e.
Proof. intros H. unfold _isHealthy in H. cbn beta zeta in H. fail_steps H. Qed.

Lemma collateralToSeize_fails (a p : Z) (e : error) :
  collateralToSeize a p = Err e -> fails_with [] e.
Proof. intros H. unfold collateralToSeize in H. cbn beta zeta in H. fail_steps H. Qed.

#[local] Hint Resolve _checkHealthFactor_fails _isHealthy_fails
  collateralToSeize_fails : fails.

(** X4: the failures of the five ledger functions.  supply and repay can only
    revert at their entry checks or because the token refuses the transfer: they
    never fail on a price or a health factor.  withdraw, borrow and liquidate can
    also revert with the errors of getAssetPrice and with their own solvency
    errors.  No ledger function fails the owner check; a failure that is not one
    of the listed reverts is an arithmetic panic or a reverted external call. *)
Theorem ledger_failures (env : Env) (st : State) (sym : string) (amount : Z)
    (borrower : address) (e : error) :
  (supply env st sym amount = Err e ->
   fails_with ["Asset not active"; "Amount must be greater than 0"; "Transfer failed"] e) /\
  (repay env st sym amount = Err e ->
   fails_with ["Asset not active"; "Amount must be greater than 0"; "No outstanding loan";
               "Transfer failed"] e) /\
  (withdraw env st sym amount = Err e ->
   fails_with ["Asset not active"; "Amount must be greater than 0"; "Insufficient balance";
               "Asset does not exist"; "Invalid price"; "Health factor too low";
               "Transfer failed"] e) /\
  (borrow env st sym amount = Err e ->
   fails_with ["Asset not active"; "Amount must be greater than 0"; "Insufficient liquidity";
               "Asset does not exist"; "Invalid price"; "Health factor too low";
               "Transfer failed"] e) /\
  (liquidate env st borrower sym amount = Err e ->
   fails_with ["Asset not active"; "Amount must be greater than 0"; "No outstanding loan";
               "Asset does not exist"; "Invalid price"; "Position is healthy";
               "Insufficient collateral"; "Transfer failed";
               "Collateral transfer failed"] e).
Proof.
  split; [|split; [|split; [|split]]]; intros H.
  - unfold supply in H. cbn beta zeta in H. fail_steps H.
  - unfold repay in H. cbn beta zeta in H. fail_steps H.
  - unfold withdraw in H. cbn beta zeta in H. fail_steps H.
  - unfold borrow in H. cbn beta zeta in H. fail_steps H.
  - unfold liquidate in H. cbn beta zeta in H. fail_steps H.
Qed.

Lemma ledger_failures_witness :
  fails_with ["Asset not active"; "Amount must be greater than 0"; "Insufficient liquidity";
              "Asset does not exist"; "Invalid price"; "Health factor too low";
              "Transfer failed"] (Revert "Health factor too low").
Proof.
  assert (E : borrow (honest_env 2 100 2000) funded "ETH" 300
              = Err (Revert "Health factor too low")) by (vm_compute; reflexivity).
  destruct (ledger_failures (honest_env 2 100 2000) funded "ETH" 300 2
              (Revert "Health factor too low")) as (_ & _ & _ & H & _).
  exact (H E).
Defined.

(** ** Liquidity *)

Lemma borrow_late_fails (env : Env) (st : State) (sym : string) (amount : Z) (e : error) :
  (st1 ← _updateInterest env st sym (msg_sender env);
   let position := readPosition st1 (msg_sender env) sym in
   newBorrowed ← checked_add (borrowed position) amount;
   healthy ← _checkHealthFactor env st1 sym (msg_sender env) (supplied position) newBorrowed;
   require healthy "Health factor too low";;
   b' ← checked_add (borrowed position) amount;
   let st2 := writePosition st1 (msg_sender env) sym (set_borrowed b' position) in
   t' ← checked_add (totalBorrowed (readAsset st2 sym)) amount;
   let st3 := writeAsset st2 sym (set_totalBorrowed t' (readAsset st2 sym)) in
   ok ← external (token_transfer env (tokenAddress (readAsset st3 sym)) (msg_sender env) amount);
   require ok "Transfer failed";;
   Ok (emit (Borrowed (msg_sender env) sym amount) st3)) = Err e ->
  fails_with ["Asset does not exist"; "Invalid price"; "Health factor too low";
              "Transfer failed"] e.
Proof. intros H. cbn beta zeta in H. fail_steps H. Qed.

(** X5: borrow compares the amount with totalSupplied - totalBorrowed as stored
    before interest accrual.  It fails with "Insufficient liquidity" exactly when
    the asset is active, amount > 0, totalBorrowed <= totalSupplied and amount
    exceeds their difference.  When the stored totalBorrowed exceeds
    totalSupplied, the checked subtraction panics: borrow then fails with Panic
    0x11 for every positive amount, not with "Insufficient liquidity". *)
Theorem borrow_liquidity_check (env : Env) (st : State) (sym : string) (amount : Z) :
  let ts := totalSupplied (readAsset st sym) in
  let tb := totalBorrowed (readAsset st sym) in
  (borrow env st sym amount = Err (Revert "Insufficient liquidity") <->
   isActive (readAsset st sym) = true /\ 0 < amount /\ tb <= ts /\ ts - tb < amount) /\
  (isActive (readAsset st sym) = true -> 0 < amount -> ts < tb ->
   borrow env st sym amount = Err (Panic 17)).
Proof.
  intros ts tb. unfold borrow. cbn beta zeta. fold ts tb. split.
  - destruct (isActive (readAsset st sym)); cbn [require mbind result_bind];
      [|split; [discriminate | intros [? _]; discriminate]].
    destruct (Z.ltb_spec 0 amount) as [Ha | Ha]; cbn [require mbind result_bind];
      [|split; [discriminate | lia]].
    unfold checked_sub. destruct (Z.leb_spec tb ts) as [Hl | Hl]; cbn [mbind result_bind];
      [|split; [discriminate | lia]].
    destruct (Z.leb_spec amount (ts - tb)) as [Hb | Hb];
      cbn [require mbind result_bind]; [|split; auto].
    split; [|lia].
    intros H. apply borrow_late_fails in H. cbn in H.
    repeat destruct H as [H | H]; try discriminate H. contradiction.
  - intros Hact Ha Hlt. rewrite Hact. cbn [require mbind result_bind].
    apply Z.ltb_lt in Ha. rewrite Ha. cbn [require mbind result_bind].
    unfold checked_sub. destruct (Z.leb_spec tb ts); [lia | reflexivity].
Qed.

Lemma borrow_liquidity_check_witness :
  borrow (honest_env 2 (100 + days_365) 2000) overdue "ETH" 1 = Err (Panic 17).
Proof.
  destruct (borrow_liquidity_check (honest_env 2 (100 + days_365) 2000) overdue "ETH" 1)
    as [_ H].
  apply H; side_conditions.
Defined.

(** ** No position exceeds the totals *)

Lemma sum_positions_member (f : UserPosition -> Z) (sym : string)
    (m : gmap (address * string) UserPosition) (u : address) :
  f zeroPosition = 0 ->
  (forall k p, m !! k = Some p -> 0 <= f p) ->
  f (default zeroPosition (m !! (u, sym))) <= sum_positions f sym m.
Proof.
  intros Hz. induction m as [|k p m Hk IH] using map_ind; intros Hpos.
  - rewrite lookup_empty, sum_positions_empty. cbn. lia.
  - rewrite sum_positions_insert_fresh by exact Hk.
    assert (Hp : 0 <= f p) by (apply (Hpos k); apply lookup_insert_eq).
    assert (Hm : f (default zeroPosition (m !! (u, sym))) <= sum_positions f sym m).
    { apply IH. intros k' p' Hk'. apply (Hpos k').
      rewrite lookup_insert_ne; [exact Hk' | congruence]. }
    assert (H0 : 0 <= sum_positions f sym m).
    { clear - Hpos Hk. revert Hpos Hk. generalize k p. clear k p.
      induction m as [|k' p' m Hk' IH'] using map_ind; intros k p Hpos Hk.
      - rewrite sum_positions_empty. lia.
      - rewrite sum_positions_insert_fresh by exact Hk'.
        assert (0 <= f p').
        { apply (Hpos k'). rewrite lookup_insert_ne; [apply lookup_insert_eq|].
          intros ->. rewrite lookup_insert_eq in Hk. discriminate. }
        assert (0 <= sum_positions f sym m).
        { apply (IH' k p).
          - intros j q Hj. destruct (decide (k = j)) as [<- | Hne].
            + rewrite lookup_insert_eq in Hj. injection Hj as <-.
              apply (Hpos k). apply lookup_insert_eq.
            + apply (Hpos j). rewrite lookup_insert_ne in Hj by exact Hne.
              rewrite lookup_insert_ne by exact Hne.
              destruct (decide (k' = j)) as [<- | Hne'].
              * rewrite Hk' in Hj. discriminate.
              * rewrite lookup_insert_ne; [exact Hj | exact Hne'].
          - rewrite lookup_insert_ne in Hk; [exact Hk|].
            intros ->. rewrite lookup_insert_eq in Hk. discriminate. }
        destruct (decide (snd k' = sym)); lia. }
    destruct (decide (k = (u, sym))) as [-> | Hne].
    + rewrite lookup_insert_eq. cbn [default id snd]. rewrite decide_True by done. lia.
    + rewrite lookup_insert_ne by exact Hne. destruct (decide (snd k = sym)); lia.
Qed.

Lemma typed_stored (st : State) (k : address * string) (p : UserPosition) :
  typed_state st -> userPositions st !! k = Some p -> typed_position p.
Proof.
  intros T Hk. destruct k as [u s]. destruct (T s) as [_ Hp]. specialize (Hp u).
  unfold readPosition in Hp. rewrite Hk in Hp. exact Hp.
Qed.

Lemma position_below_totals (st : State) (sym : string) (u : address) :
  typed_state st -> books_inv st ->
  supplied (readPosition st u sym) <= totalSupplied (readAsset st sym) /\
  borrowed (readPosition st u sym) <= totalBorrowed (readAsset st sym).
Proof.
  intros T (I1 & _). destruct (I1 sym) as [-> ->]. unfold readPosition. split.
  - apply (sum_positions_member supplied); [reflexivity|].
    intros k p Hk. destruct (typed_stored st k p T Hk) as ((? & _) & _). assumption.
  - apply (sum_positions_member borrowed); [reflexivity|].
    intros k p Hk. destruct (typed_stored st k p T Hk) as (_ & (? & _) & _). assumption.
Qed.

(** X6: with no contract at the zero address, in every reachable state no
    position holds more than its asset's totals: position.supplied <=
    asset.totalSupplied and position.borrowed <= asset.totalBorrowed, for every
    account and symbol.  The subtractions from the totals in withdraw, repay and
    liquidate therefore cannot underflow where the one from the position does
    not. *)
Theorem position_within_totals (st : State) (sym : string) (u : address) :
  reachable_by zero_address_empty st ->
  0 <= supplied (readPosition st u sym) <= totalSupplied (readAsset st sym) /\
  0 <= borrowed (readPosition st u sym) <= totalBorrowed (readAsset st sym).
Proof.
  intros R.
  pose proof (reachable_typed _ st R) as T.
  pose proof (reachable_books_inv st R) as I.
  destruct (position_below_totals st sym u T I) as [Hs Hb].
  destruct (typed_reads st sym u T) as [_ ((? & _) & (? & _) & _)].
  lia.
Qed.

Lemma reachable_zero_address_empty_liquidated : reachable_by zero_address_empty liquidated.
Proof.
  apply (run_reachable_by zero_address_empty early_liquidation deployed).
  - apply reach_init.
  - vm_compute. reflexivity.
  - intros env s c Hin. unfold zero_address_empty.
    repeat (destruct Hin as [Hin | Hin]; [injection Hin as <- _; apply honest_no_code|]).
    destruct Hin.
  - vm_compute. reflexivity.
Qed.

Lemma position_within_totals_witness :
  0 <= supplied (readPosition liquidated 2 "ETH") <= totalSupplied (readAsset liquidated "ETH") /\
  0 <= borrowed (readPosition liquidated 2 "ETH") <= totalBorrowed (readAsset liquidated "ETH").
Proof.
  exact (position_within_totals liquidated "ETH" 2 reachable_zero_address_empty_liquidated).
Defined.

(** ** Repaying *)

Lemma _updateInterest_events (env : Env) (st : State) (sym : string) (u : address) (st1 : State) :
  _updateInterest env st sym u = Ok st1 -> events st1 = events st.
Proof.
  intros H. apply _updateInterest_cases in H. cbn zeta in H.
  destruct H as [[_ ->] | [(_ & _ & ->) | (_ & _ & E & _)]]; [reflexivity | reflexivity | exact E].
Qed.

Lemma accrued_reachable (env : Env) (st st1 : State) (sym : string) (u : address) :
  reachable_by zero_address_empty st -> 0 <= block_timestamp env ->
  tokenAddress (readAsset st sym) <> 0 ->
  _updateInterest env st sym u = Ok st1 ->
  typed_state st1 /\ books_inv st1.
Proof.
  intros R Hnow Ht Hacc. split.
  - exact (_updateInterest_typed _ _ _ _ _ (reachable_typed _ st R) Hnow Hacc).
  - exact (books_inv_moved _ _ _ _ _ _ _ (reachable_books_inv st R)
             (_updateInterest_moved _ _ _ _ _ Hacc) Ht).
Qed.

Lemma accrued_debt_stays (env : Env) (st st1 : State) (sym : string) (u : address) :
  typed_state st -> 0 <= block_timestamp env ->
  _updateInterest env st sym u = Ok st1 ->
  supplied (readPosition st u sym) <= supplied (readPosition st1 u sym) /\
  borrowed (readPosition st u sym) <= borrowed (readPosition st1 u sym) /\
  totalSupplied (readAsset st sym) <= totalSupplied (readAsset st1 sym) /\
  totalBorrowed (readAsset st sym) <= totalBorrowed (readAsset st1 sym).
Proof.
  intros T Hnow Hacc.
  destruct (typed_reads st sym u T) as [(_&_&_&_&_&Hsr&Hbr) (Hs&Hb&Ht)].
  pose proof (_updateInterest_cases _ _ _ _ _ Hacc) as C. cbn zeta in C.
  destruct C as [[_ ->] | [(_ & _ & ->) | (_ & Hlt & _ & M)]].
  - rewrite readPosition_writePosition_eq, readAsset_writePosition. cbn. lia.
  - lia.
  - rewrite (moved_readPosition _ _ _ _ _ _ _ u sym M), decide_True by done.
    rewrite (moved_readAsset _ _ _ _ _ _ _ sym M), decide_True by done. cbn.
    assert (0 <= interest (supplied (readPosition st u sym))
                          (supplyInterestRate (readAsset st sym))
                          (block_timestamp env - lastUpdateTimestamp (readPosition st u sym)))
      by (apply interest_nonneg; unfold uint256 in *; lia).
    assert (0 <= interest (borrowed (readPosition st u sym))
                          (borrowInterestRate (readAsset st sym))
                          (block_timestamp env - lastUpdateTimestamp (readPosition st u sym)))
      by (apply interest_nonneg; unfold uint256 in *; lia).
    destruct (0 <? supplied _), (0 <? borrowed _); lia.
Qed.

(** X7: what repay does once its three entry checks and the interest accrual
    have passed, in a reachable state.  The amount settled is min(amount,
    position.borrowed) on the accrued position: it is positive and never more
    than the debt, so an overpayment clears the debt and pulls no more than the
    debt from the payer.  The outcome is decided by the token alone: when
    transferFrom returns true the call succeeds, position.borrowed and
    asset.totalBorrowed go down by the settled amount (neither subtraction can
    underflow), position.supplied and asset.totalSupplied are untouched and one
    Repaid event carrying the settled amount is logged; when it returns false
    repay fails with "Transfer failed"; when it reverts, so does repay. *)
Theorem repay_settles_the_capped_amount
    (env : Env) (st st1 : State) (sym : string) (amount : Z) :
  let u := msg_sender env in
  let p1 := readPosition st1 u sym in
  let a1 := readAsset st1 sym in
  let paid := Z.min amount (borrowed p1) in
  let pulled := token_transferFrom env (tokenAddress a1) u (this env) paid in
  reachable_by zero_address_empty st -> 0 <= block_timestamp env ->
  isActive (readAsset st sym) = true -> 0 < amount ->
  0 < borrowed (readPosition st u sym) ->
  _updateInterest env st sym u = Ok st1 ->
  0 < paid <= borrowed p1 /\ (borrowed p1 <= amount -> paid = borrowed p1) /\
  (pulled = Some true ->
   exists st', repay env st sym amount = Ok st' /\
     readPosition st' u sym =
       mkUserPosition (supplied p1) (borrowed p1 - paid) (block_timestamp env) /\
     totalBorrowed (readAsset st' sym) = totalBorrowed a1 - paid /\
     0 <= totalBorrowed (readAsset st' sym) /\
     totalSupplied (readAsset st' sym) = totalSupplied a1 /\
     events st' = events st ++ [Repaid u sym paid]) /\
  (pulled = Some false -> repay env st sym amount = Err (Revert "Transfer failed")) /\
  (pulled = None -> repay env st sym amount = Err CallReverted).
Proof.
  intros u p1 a1 paid pulled R Hnow Hact Hamt Hdebt Hacc.
  assert (Ht : tokenAddress (readAsset st sym) <> 0).
  { intros Hz. destruct (reachable_books_inv st R) as (_ & I4).
    destruct (I4 sym u Hz) as [_ Hb]. fold u in Hdebt. lia. }
  destruct (accrued_reachable env st st1 sym u R Hnow Ht Hacc) as [T1 I1].
  destruct (position_below_totals st1 sym u T1 I1) as [_ Hle]. fold p1 a1 in Hle.
  destruct (accrued_debt_stays env st st1 sym u (reachable_typed _ st R) Hnow Hacc)
    as (_ & Hgrow & _). fold p1 in Hgrow.
  assert (Hpaid : 0 < paid <= borrowed p1) by (unfold paid; lia).
  assert (E : repay env st sym amount =
    (ok ← external pulled;
     require ok "Transfer failed";;
     Ok (emit (Repaid u sym paid)
           (writeAsset (writePosition st1 u sym (set_borrowed (borrowed p1 - paid) p1))
                       sym (set_totalBorrowed (totalBorrowed a1 - paid) a1))))).
  { unfold repay. cbn beta zeta. rewrite Hact. cbn [require mbind result_bind].
    apply Z.ltb_lt in Hamt. rewrite Hamt. cbn [require mbind result_bind].
    fold u. apply Z.ltb_lt in Hdebt. rewrite Hdebt. cbn [require mbind result_bind].
    rewrite Hacc. cbn [mbind result_bind]. fold p1 a1.
    rewrite (min_as_code amount (borrowed p1)). fold paid. fold pulled.
    destruct pulled as [[|]|]; cbn [external require mbind result_bind]; try reflexivity.
    rewrite (checked_sub_fits (borrowed p1) paid) by lia. cbn [mbind result_bind].
    simpl_reads. fold a1.
    rewrite (checked_sub_fits (totalBorrowed a1) paid) by lia. reflexivity. }
  split; [exact Hpaid|]. split; [unfold paid; lia|].
  rewrite E. split; [|split]; intros ->; cbn [external require mbind result_bind];
    try reflexivity.
  eexists. split; [reflexivity|]. simpl_reads.
  cbn [set_borrowed set_totalBorrowed totalBorrowed totalSupplied events emit writeAsset
       writePosition].
  pose proof (accrued_timestamp _ _ _ _ _ Hacc) as Hts. fold u p1 in Hts.
  rewrite (_updateInterest_events _ _ _ _ _ Hacc).
  unfold set_borrowed. rewrite Hts. repeat split; lia.
Qed.

Lemma reachable_zero_address_empty_funded : reachable_by zero_address_empty funded.
Proof.
  apply (run_reachable_by zero_address_empty open_position deployed).
  - apply reach_init.
  - vm_compute. reflexivity.
  - intros env s c Hin. unfold zero_address_empty.
    repeat (destruct Hin as [Hin | Hin]; [injection Hin as <- _; apply honest_no_code|]).
    destruct Hin.
  - vm_compute. reflexivity.
Qed.

Lemma repay_settles_the_capped_amount_witness :
  exists st', repay (honest_env 2 100 2000) funded "ETH" 10000 = Ok st' /\
    readPosition st' 2 "ETH" = mkUserPosition 1000 0 100 /\
    totalBorrowed (readAsset st' "ETH") = 0.
Proof.
  destruct (repay_settles_the_capped_amount (honest_env 2 100 2000) funded funded "ETH" 10000)
    as (_ & _ & H & _); side_conditions.
  - exact reachable_zero_address_empty_funded.
  - destruct H as (st' & E & Rp & Rb & _); side_conditions.
    exists st'. split; [exact E|]. vm_compute in Rp. vm_compute in Rb.
    split; [exact Rp | exact Rb].
Defined.

(** ** The books of a liquidation *)

(** X8: the books of a successful liquidation, in a reachable state.  With
    repaid = min(amount, position.borrowed) on the borrower's accrued position,
    the collateral seized is repaid + floor(repaid / 10): the debt repaid plus a
    bonus of a tenth, never less than what the liquidator pays in.  The
    borrower's position loses seized from supplied and repaid from borrowed, the
    asset's totals lose the same amounts, the liquidator's transferFrom of repaid
    and the contract's transfer of seized to the liquidator both returned true,
    and one Liquidated event carrying repaid is logged. *)
Theorem liquidate_books_the_seizure
    (env : Env) (st : State) (borrower : address) (sym : string) (amount : Z) (st' : State) :
  reachable st -> 0 <= block_timestamp env ->
  liquidate env st borrower sym amount = Ok st' ->
  exists st1,
    let p1 := readPosition st1 borrower sym in
    let a1 := readAsset st1 sym in
    let repaid := Z.min amount (borrowed p1) in
    let seized := repaid + repaid / 10 in
    _updateInterest env st sym borrower = Ok st1 /\
    0 < repaid <= borrowed p1 /\ repaid <= seized <= supplied p1 /\
    readPosition st' borrower sym =
      mkUserPosition (supplied p1 - seized) (borrowed p1 - repaid) (block_timestamp env) /\
    totalSupplied (readAsset st' sym) = totalSupplied a1 - seized /\
    totalBorrowed (readAsset st' sym) = totalBorrowed a1 - repaid /\
    token_transferFrom env (tokenAddress a1) (msg_sender env) (this env) repaid = Some true /\
    token_transfer env (tokenAddress a1) (msg_sender env) seized = Some true /\
    events st' = events st ++ [Liquidated (msg_sender env) borrower sym repaid].
Proof.
  intros R Hnow H.
  pose proof (liquidate_pays_out _ _ _ _ _ _ H) as (st1 & P & seize & Hacc & HP & Hs & Hout).
  apply liquidate_Ok in H
    as (st1' & P' & seize' & _ & Hamt & Hdebt & Hacc' & _ & HP' & Hs' & Hle & Hin & _ & _ & ->).
  cbn zeta in *. rewrite Hacc in Hacc'. injection Hacc' as <-.
  rewrite HP in HP'. injection HP' as <-. rewrite Hs in Hs'. injection Hs' as <-.
  destruct (getAssetPrice_Ok _ _ _ _ HP) as (_ & _ & _ & _ & HPpos & _).
  apply collateralToSeize_Ok in Hs; [|exact HPpos]. rewrite bonus_of_ten_percent in Hs.
  destruct (accrued_debt_stays env st st1 sym borrower (reachable_typed _ st R) Hnow Hacc)
    as (_ & Hgrow & _).
  exists st1. cbn zeta. subst seize.
  set (repaid := Z.min amount (borrowed (readPosition st1 borrower sym))) in *.
  assert (Hrep : 0 < repaid <= borrowed (readPosition st1 borrower sym))
    by (unfold repaid; lia).
  assert (Hbonus : 0 <= repaid / 10) by (apply Z.div_pos; lia).
  split; [exact Hacc|]. split; [exact Hrep|]. split; [lia|].
  simpl_reads. rewrite (accrued_timestamp _ _ _ _ _ Hacc).
  split; [reflexivity|].
  cbn [totalSupplied totalBorrowed add_totals set_totalSupplied set_totalBorrowed].
  split; [lia|]. split; [lia|]. split; [exact Hin|]. split; [exact Hout|].
  cbn [events emit writeAsset writePosition].
  now rewrite (_updateInterest_events _ _ _ _ _ Hacc).
Qed.

Lemma liquidate_books_the_seizure_witness :
  readPosition liquidated 2 "ETH" =
    mkUserPosition (1001 - (900 + 900 / 10)) (980 - 900) after_146_days.
Proof.
  assert (E : liquidate (honest_env 3 after_146_days 2000) grown 2 "ETH" 900 = Ok liquidated)
    by (vm_compute; reflexivity).
  destruct (liquidate_books_the_seizure (honest_env 3 after_146_days 2000) grown 2 "ETH" 900
              liquidated reachable_grown ltac:(vm_compute; discriminate) E)
    as (st1 & Hacc & _ & _ & Rp & _).
  vm_compute in Hacc. injection Hacc as <-.
  vm_compute in Rp. vm_compute. exact Rp.
Defined.

(** ** The health factor view *)

Lemma health_factor_break_even (cv bv : Z) :
  0 < bv -> (10000 <= cv * 10000 / bv <-> bv <= cv).
Proof.
  intros Hb. split.
  - intros H. pose proof (Z.mul_div_le (cv * 10000) bv Hb). nia.
  - now apply health_factor_at_least_break_even.
Qed.

(** X9: getUserHealthFactor and the check behind borrow and withdraw agree.  For
    a position without debt the view returns type(uint256).max.  For a position
    with debt, whenever the view returns h it is
    floor(floor(supplied * P * collateralFactor / 10000) * 10000 / (borrowed * P))
    for the price P of getAssetPrice, and h >= 10000 exactly when
    _checkHealthFactor accepts the stored position. *)
Theorem health_factor_view_matches_the_check
    (env : Env) (st : State) (sym : string) (u : address) (h : Z) :
  let p := readPosition st u sym in
  let cf := collateralFactor (readAsset st sym) in
  0 <= borrowed p ->
  getUserHealthFactor env st sym u = Ok h ->
  (borrowed p = 0 /\ h = MAX_UINT256) \/
  (0 < borrowed p /\
   exists P, getAssetPrice env st sym = Ok P /\ 0 < P /\
     h = (supplied p * P * cf / 10000) * 10000 / (borrowed p * P) /\
     exists ok, _checkHealthFactor env st sym u (supplied p) (borrowed p) = Ok ok /\
                (ok = true <-> 10000 <= h)).
Proof.
  intros p cf Hb H. unfold getUserHealthFactor in H. fold p in H.
  destruct (Z.eqb_spec (borrowed p) 0) as [Hz | Hnz].
  - left. injection H as <-. auto.
  - right. split; [lia|]. cbn beta zeta in H. fold cf in H.
    apply bind_Ok in H as (P & HP & H).
    destruct (getAssetPrice_Ok _ _ _ _ HP) as (_ & _ & _ & _ & HPpos & _).
    apply bind_Ok in H as (m1 & E1 & H). apply bind_Ok in H as (m2 & E2 & H).
    apply bind_Ok in H as (cv & E3 & H). apply bind_Ok in H as (bv & E4 & H).
    apply bind_Ok in H as (m3 & E5 & H).
    exists P. split; [exact HP|]. split; [exact HPpos|].
    assert (Hh : h = (supplied p * P * cf / 10000) * 10000 / (borrowed p * P)).
    { apply checked_mul_Ok in E1 as [-> _], E2 as [-> _], E4 as [-> _], E5 as [-> _].
      apply checked_div_Ok in E3 as [-> _], H as [-> _]. reflexivity. }
    split; [exact Hh|].
    exists (borrowed p * P <=? supplied p * P * cf / 10000). split.
    + unfold _checkHealthFactor. apply Z.eqb_neq in Hnz. rewrite Hnz, HP.
      cbn [mbind result_bind]. fold cf. rewrite E1. cbn [mbind result_bind].
      rewrite E2. cbn [mbind result_bind]. rewrite E3. cbn [mbind result_bind].
      rewrite E4. cbn [mbind result_bind].
      apply checked_mul_Ok in E1 as [-> _], E2 as [-> _], E4 as [-> _].
      apply checked_div_Ok in E3 as [-> _]. reflexivity.
    + rewrite Hh, Z.leb_le. symmetry. apply health_factor_break_even. nia.
Qed.

Lemma health_factor_view_matches_the_check_witness :
  getUserHealthFactor (honest_env 2 100 2000) funded "ETH" 2 = Ok 15000 /\
  _checkHealthFactor (honest_env 2 100 2000) funded "ETH" 2 1000 500 = Ok true.
Proof.
  assert (E : getUserHealthFactor (honest_env 2 100 2000) funded "ETH" 2 = Ok 15000)
    by (vm_compute; reflexivity).
  destruct (health_factor_view_matches_the_check (honest_env 2 100 2000) funded "ETH" 2 15000
              ltac:(vm_compute; discriminate) E)
    as [[Hz _] | (_ & P & _ & _ & _ & ok & Hok & Hiff)].
  - vm_compute in Hz. discriminate Hz.
  - split; [exact E|].
    assert (ok = true) as -> by (apply Hiff; vm_compute; discriminate).
    vm_compute in Hok. vm_compute. exact Hok.
Defined.

(** ** Withdrawing against a debt *)

(** X10: withdraw applies the collateral factor to what stays behind.  With the
    position (supplied, borrowed) read after interest accrual, a successful
    withdraw leaves supplied - amount >= 0 and either the account has no debt or,
    for the price P of getAssetPrice, borrowed * P <= floor((supplied - amount) *
    P * collateralFactor / 10000), hence borrowed * 10000 <= (supplied - amount)
    * collateralFactor.  When the entry checks pass and that inequality fails,
    withdraw fails with "Health factor too low" and the state stays as it was. *)
Theorem withdraw_respects_the_collateral_factor
    (env : Env) (st : State) (sym : string) (amount : Z) (st1 : State) :
  let u := msg_sender env in
  let p1 := readPosition st1 u sym in
  let cf := collateralFactor (readAsset st1 sym) in
  _updateInterest env st sym u = Ok st1 -> 0 <= borrowed p1 ->
  (forall st', withdraw env st sym amount = Ok st' ->
     readPosition st' u sym =
       mkUserPosition (supplied p1 - amount) (borrowed p1) (lastUpdateTimestamp p1) /\
     0 <= supplied p1 - amount /\
     (borrowed p1 = 0 \/
      exists P, getAssetPrice env st1 sym = Ok P /\ 0 < P /\
        borrowed p1 * P <= (supplied p1 - amount) * P * cf / 10000 /\
        borrowed p1 * 10000 <= (supplied p1 - amount) * cf)) /\
  (forall P,
     isActive (readAsset st sym) = true -> 0 < amount ->
     amount <= supplied (readPosition st u sym) -> amount <= supplied p1 ->
     0 < borrowed p1 ->
     getAssetPrice env st1 sym = Ok P ->
     (supplied p1 - amount) * P <= MAX_UINT256 ->
     (supplied p1 - amount) * P * cf <= MAX_UINT256 ->
     borrowed p1 * P <= MAX_UINT256 ->
     (supplied p1 - amount) * P * cf / 10000 < borrowed p1 * P ->
     withdraw env st sym amount = Err (Revert "Health factor too low") /\
     commit env st (call_withdraw sym amount) = st).
Proof.
  intros u p1 cf Hacc Hb1. split.
  - intros st' H.
    apply withdraw_Ok in H as (st1' & _ & Hamt & _ & Hacc' & Hle & Hh & _ & _ & ->).
    cbn zeta in *. fold u in Hacc', Hh, Hle |- *.
    rewrite Hacc in Hacc'. injection Hacc' as <-. fold p1 in Hh, Hle |- *.
    simpl_reads. split; [reflexivity|]. split; [lia|].
    apply _checkHealthFactor_Ok in Hh as [[Hz _] | (_ & P & HP & Hc)]; [now left|].
    right. fold cf in Hc. symmetry in Hc. apply Z.leb_le in Hc.
    destruct (getAssetPrice_Ok _ _ _ _ HP) as (price & _ & _ & _ & HPpos & _).
    exists P. split; [exact HP|]. split; [exact HPpos|]. split; [exact Hc|].
    now apply (collateral_covers_debt _ _ P).
  - intros P Hact Hamt Hbal Hbal1 Hdebt HP F1 F2 F3 Hlow.
    assert (E : withdraw env st sym amount = Err (Revert "Health factor too low")).
    { unfold withdraw. cbn beta zeta. rewrite Hact. cbn [require mbind result_bind].
      apply Z.ltb_lt in Hamt. rewrite Hamt. cbn [require mbind result_bind].
      fold u. apply Z.leb_le in Hbal. rewrite Hbal. cbn [require mbind result_bind].
      rewrite Hacc. cbn [mbind result_bind]. fold p1.
      rewrite (checked_sub_fits _ _ Hbal1). cbn [mbind result_bind].
      rewrite (_checkHealthFactor_fits env st1 sym u (supplied p1 - amount) (borrowed p1) P)
        by (first [lia | assumption]).
      cbn [mbind result_bind]. fold cf. apply Z.leb_gt in Hlow. rewrite Hlow.
      reflexivity. }
    split; [exact E|]. exact (commit_Err env st (call_withdraw sym amount) _ E).
Qed.

Lemma withdraw_respects_the_collateral_factor_witness :
  (exists st', withdraw (honest_env 2 100 2000) funded "ETH" 300 = Ok st' /\
     500 * 10000 <= (1000 - 300) * 7500) /\
  withdraw (honest_env 2 100 2000) funded "ETH" 400 = Err (Revert "Health factor too low").
Proof.
  assert (Hacc : _updateInterest (honest_env 2 100 2000) funded "ETH"
                   (msg_sender (honest_env 2 100 2000)) = Ok funded)
    by (vm_compute; reflexivity).
  assert (Hb : 0 <= borrowed (readPosition funded (msg_sender (honest_env 2 100 2000)) "ETH"))
    by (vm_compute; discriminate).
  split.
  - destruct (withdraw (honest_env 2 100 2000) funded "ETH" 300) as [st'|e] eqn:E;
      [|vm_compute in E; discriminate E].
    destruct (withdraw_respects_the_collateral_factor (honest_env 2 100 2000) funded "ETH" 300
                funded Hacc Hb) as [H _].
    destruct (H st' E) as (_ & _ & [Hz | (P & _ & _ & _ & Hcover)]).
    + vm_compute in Hz. discriminate Hz.
    + vm_compute in Hcover. exists st'. split; [reflexivity | exact Hcover].
  - destruct (withdraw_respects_the_collateral_factor (honest_env 2 100 2000) funded "ETH" 400
                funded Hacc Hb) as [_ H].
    apply (H (2000 * 10 ^ 10)); side_conditions.
Defined.

(** ** Which calls read the price feed *)

Lemma _updateInterest_same_time (env env' : Env) (st : State) (sym : string) (u : address) :
  block_timestamp env' = block_timestamp env ->
  _updateInterest env' st sym u = _updateInterest env st sym u.
Proof. intros H. unfold _updateInterest. now rewrite H. Qed.

Lemma accrued_without_debt (env : Env) (st st1 : State) (sym : string) (u : address) :
  borrowed (readPosition st u sym) = 0 -> _updateInterest env st sym u = Ok st1 ->
  borrowed (readPosition st1 u sym) = 0.
Proof.
  intros Hz H. apply _updateInterest_moved in H.
  rewrite (moved_readPosition _ _ _ _ _ _ _ u sym H), decide_True by done. cbn.
  unfold borrowInterestDue. cbn zeta. rewrite Hz.
  destruct (_ =? 0); reflexivity.
Qed.

Lemma accrued_same_feed (env : Env) (st st1 : State) (sym : string) (u : address) :
  _updateInterest env st sym u = Ok st1 ->
  priceFeedAddress (readAsset st1 sym) = priceFeedAddress (readAsset st sym) /\
  tokenAddress (readAsset st1 sym) = tokenAddress (readAsset st sym).
Proof.
  intros H. apply _updateInterest_moved in H.
  rewrite (moved_readAsset _ _ _ _ _ _ _ sym H), decide_True by done. split; reflexivity.
Qed.

(** X11: which ledger calls depend on the price feed.  supply and repay never
    read it, and neither does a withdraw by an account without debt: their
    result is the same whatever the feed answers, also when it reverts.  A
    borrow (in a reachable state) or a liquidation succeeds only if the feed of
    the asset answered a price greater than 0. *)
Theorem price_feed_is_read_only_against_debt
    (env env' : Env) (st : State) (sym : string) (amount : Z) :
  same_but_feed env env' ->
  supply env' st sym amount = supply env st sym amount /\
  repay env' st sym amount = repay env st sym amount /\
  (borrowed (readPosition st (msg_sender env) sym) = 0 ->
   withdraw env' st sym amount = withdraw env st sym amount) /\
  (forall st', reachable st -> 0 <= block_timestamp env ->
     borrow env st sym amount = Ok st' ->
     exists price,
       latestRoundData env (priceFeedAddress (readAsset st sym)) = Some price /\ 0 < price) /\
  (forall borrower st', liquidate env st borrower sym amount = Ok st' ->
     exists price,
       latestRoundData env (priceFeedAddress (readAsset st sym)) = Some price /\ 0 < price).
Proof.
  intros (Hs & Hthis & Ht & Hfrom & Hto).
  pose proof (fun u => _updateInterest_same_time env env' st sym u Ht) as Hacc.
  split; [|split; [|split; [|split]]].
  - unfold supply. cbn beta zeta. rewrite Hs, Hthis, Hacc.
    destruct (require (isActive (readAsset st sym)) _); [|reflexivity].
    cbn [mbind result_bind]. destruct (require (0 <? amount) _); [|reflexivity].
    cbn [mbind result_bind].
    destruct (_updateInterest env st sym (msg_sender env)) as [st1|e]; [|reflexivity].
    cbn [mbind result_bind]. now rewrite Hfrom.
  - unfold repay. cbn beta zeta. rewrite Hs, Hthis, Hacc.
    destruct (require (isActive (readAsset st sym)) _); [|reflexivity].
    cbn [mbind result_bind]. destruct (require (0 <? amount) _); [|reflexivity].
    cbn [mbind result_bind]. destruct (require (0 <? borrowed _) _); [|reflexivity].
    cbn [mbind result_bind].
    destruct (_updateInterest env st sym (msg_sender env)) as [st1|e]; [|reflexivity].
    cbn [mbind result_bind]. now rewrite Hfrom.
  - intros Hz. unfold withdraw. cbn beta zeta. rewrite Hs, Hacc.
    destruct (require (isActive (readAsset st sym)) _); [|reflexivity].
    cbn [mbind result_bind]. destruct (require (0 <? amount) _); [|reflexivity].
    cbn [mbind result_bind]. destruct (require (amount <=? _) _); [|reflexivity].
    cbn [mbind result_bind].
    destruct (_updateInterest env st sym (msg_sender env)) as [st1|e] eqn:E; [|reflexivity].
    cbn [mbind result_bind].
    rewrite (accrued_without_debt env st st1 sym _ Hz E).
    destruct (checked_sub _ amount); [|reflexivity]. cbn [mbind result_bind].
    unfold _checkHealthFactor. cbn [Z.eqb mbind result_bind require].
    destruct (checked_sub _ amount); [|reflexivity]. cbn [mbind result_bind].
    now rewrite Hto.
  - intros st' R Hnow H.
    apply borrow_Ok in H as (st1 & _ & Hamt & _ & _ & Hacc1 & _ & Hh & _). cbn zeta in Hh.
    pose proof (_updateInterest_typed _ _ _ _ _ (reachable_typed _ st R) Hnow Hacc1) as T1.
    destruct (typed_reads st1 sym (msg_sender env) T1) as [_ (_ & (Hb & _) & _)].
    apply _checkHealthFactor_Ok in Hh as [[Hz _] | (_ & P & HP & _)]; [lia|].
    destruct (getAssetPrice_Ok _ _ _ _ HP) as (price & Hfeed & Hpos & _).
    destruct (accrued_same_feed _ _ _ _ _ Hacc1) as [Ef _]. rewrite Ef in Hfeed. eauto.
  - intros b st' H.
    apply liquidate_Ok in H as (st1 & P & seize & _ & _ & _ & Hacc1 & _ & HP & _).
    destruct (getAssetPrice_Ok _ _ _ _ HP) as (price & Hfeed & Hpos & _).
    destruct (accrued_same_feed _ _ _ _ _ Hacc1) as [Ef _]. rewrite Ef in Hfeed. eauto.
Qed.

Lemma price_feed_is_read_only_against_debt_witness :
  repay (feed_down 2 100) funded "ETH" 100 = repay (honest_env 2 100 2000) funded "ETH" 100 /\
  withdraw (feed_down 3 100) saved "ETH" 1000
    = withdraw (honest_env 3 100 2000) saved "ETH" 1000.
Proof.
  split.
  - destruct (price_feed_is_read_only_against_debt
                (honest_env 2 100 2000) (feed_down 2 100) funded "ETH" 100) as (_ & H & _).
    + unfold same_but_feed. conjuncts; intros; reflexivity.
    + exact H.
  - destruct (price_feed_is_read_only_against_debt
                (honest_env 3 100 2000) (feed_down 3 100) saved "ETH" 1000) as (_ & _ & H & _).
    + unfold same_but_feed. conjuncts; intros; reflexivity.
    + apply H. vm_compute. reflexivity.
Defined.

(** ** The margin between the collateral factor and the liquidation threshold *)

Lemma checked_position_is_not_liquidated (env' : Env) (st' : State) (u : address)
    (sym : string) (x : Z) (st'' : State) :
  let p := readPosition st' u sym in
  let cf := collateralFactor (readAsset st' sym) in
  lastUpdateTimestamp p = block_timestamp env' ->
  0 <= supplied p ->
  cf <= liquidationThreshold (readAsset st' sym) ->
  (borrowed p = 0 \/
   exists P, 0 < P /\ (forall P', getAssetPrice env' st' sym = Ok P' -> P' = P) /\
             borrowed p * P <= supplied p * P * cf / 10000) ->
  liquidate env' st' u sym x = Ok st'' -> False.
Proof.
  intros p cf Hts Hs Hlt Hchecked H.
  apply liquidate_Ok in H as (st1 & P' & seize & _ & _ & Hdebt & Hacc & Hh & HP & _).
  fold p in Hdebt.
  pose proof (_updateInterest_moved _ _ _ _ _ Hacc) as M.
  destruct (due_zero_when_settled env' st' sym u (or_intror Hts)) as [Es Eb].
  rewrite Es, Eb in M.
  pose proof (moved_readAsset _ _ _ _ _ _ _ sym M) as Ra. rewrite decide_True in Ra by done.
  rewrite add_totals_0 in Ra.
  pose proof (moved_readPosition _ _ _ _ _ _ _ u sym M) as Rp.
  rewrite decide_True in Rp by done. fold p in Rp. rewrite !Z.add_0_r in Rp.
  apply _isHealthy_Ok in Hh. cbn zeta in Hh. rewrite Rp, Ra in Hh.
  cbn [borrowed supplied] in Hh.
  destruct Hh as [[_ Hf] | (_ & P2 & HP2 & Hf)]; [discriminate Hf|].
  rewrite (getAssetPrice_same_feed env' st' st1 sym) in HP2 by (now rewrite Ra).
  destruct Hchecked as [Hz | (P & HPpos & Hsame & Hle)]; [lia|].
  apply Hsame in HP2. subst P2. symmetry in Hf. apply Z.leb_gt in Hf. fold cf in Hle.
  assert (Hmono : supplied p * P * cf / 10000
                  <= supplied p * P * liquidationThreshold (readAsset st' sym) / 10000).
  { apply Z.div_le_mono; [lia|].
    apply Z.mul_le_mono_nonneg_l; [apply Z.mul_nonneg_nonneg; lia | exact Hlt]. }
  lia.
Qed.

Lemma active_asset_has_margin (st : State) (sym : string) :
  reachable st -> isActive (readAsset st sym) = true ->
  collateralFactor (readAsset st sym) < liquidationThreshold (readAsset st sym).
Proof.
  intros R Hact. destruct (reachable_registry_inv _ st R sym) as [I1 I2].
  destruct (in_dec string_dec sym (assetSymbols st)) as [Hin | Hout].
  - destruct (I1 Hin) as (_ & _ & H). exact H.
  - destruct (I2 Hout) as [Hz _]. rewrite Hz in Hact. discriminate Hact.
Qed.

Lemma same_answer_same_price (env env' : Env) (st st' : State) (sym : string) (P P' : Z) :
  tokenAddress (readAsset st' sym) = tokenAddress (readAsset st sym) ->
  priceFeedAddress (readAsset st' sym) = priceFeedAddress (readAsset st sym) ->
  latestRoundData env' (priceFeedAddress (readAsset st sym))
    = latestRoundData env (priceFeedAddress (readAsset st sym)) ->
  getAssetPrice env st sym = Ok P -> getAssetPrice env' st' sym = Ok P' -> P' = P.
Proof.
  intros Et Ef Hfeed HP HP'.
  apply getAssetPrice_Ok in HP as (price & E & _ & -> & _).
  apply getAssetPrice_Ok in HP' as (price' & E' & _ & -> & _).
  rewrite Ef, Hfeed, E in E'. now injection E' as <-.
Qed.

Lemma collateral_check_passed (env : Env) (st : State) (c : Call) (st' : State)
    (sym : string) (amount : Z) :
  reachable st -> 0 <= block_timestamp env ->
  c = call_borrow sym amount \/ c = call_withdraw sym amount ->
  exec env st c = Ok st' ->
  let p' := readPosition st' (msg_sender env) sym in
  0 <= supplied p' /\
  (borrowed p' = 0 \/
   exists P, getAssetPrice env st' sym = Ok P /\ 0 < P /\
     borrowed p' * P <= supplied p' * P * collateralFactor (readAsset st' sym) / 10000).
Proof.
  intros R Hnow Hc H p'. unfold p'. clear p'.
  pose proof (reachable_typed _ st R) as T.
  destruct Hc as [-> | ->]; cbn in H.
  - apply borrow_Ok in H as (st1 & _ & Hamt & _ & _ & Hacc & _ & Hh & _ & _ & ->).
    cbn zeta in Hh.
    pose proof (_updateInterest_typed _ _ _ _ _ T Hnow Hacc) as T1.
    destruct (typed_reads st1 sym (msg_sender env) T1) as [_ ((Hs & _) & (Hb & _) & _)].
    rewrite getAssetPrice_same_feed with (st := st1) by (simpl_reads; reflexivity).
    simpl_reads. cbn [supplied borrowed set_borrowed collateralFactor set_totalBorrowed].
    split; [exact Hs|].
    apply _checkHealthFactor_Ok in Hh as [[Hz _] | (_ & P & HP & Hle)]; [lia|].
    destruct (getAssetPrice_Ok _ _ _ _ HP) as (_ & _ & _ & _ & HPpos & _).
    symmetry in Hle. apply Z.leb_le in Hle. right. eauto.
  - apply withdraw_Ok in H as (st1 & _ & Hamt & _ & Hacc & Hle1 & Hh & _ & _ & ->).
    cbn zeta in Hh, Hle1.
    rewrite getAssetPrice_same_feed with (st := st1) by (simpl_reads; reflexivity).
    simpl_reads. cbn [supplied borrowed set_supplied collateralFactor set_totalSupplied].
    split; [lia|].
    apply _checkHealthFactor_Ok in Hh as [[Hz _] | (_ & P & HP & Hle)]; [now left|].
    destruct (getAssetPrice_Ok _ _ _ _ HP) as (_ & _ & _ & _ & HPpos & _).
    symmetry in Hle. apply Z.leb_le in Hle. right. eauto.
Qed.

(** X12: the margin between the collateral factor and the liquidation threshold.
    In a reachable state every active asset has collateralFactor <
    liquidationThreshold, so a position that has just passed the check of borrow
    or withdraw cannot be liquidated under the same conditions: after a
    successful borrow or withdraw, no liquidate call against that account in the
    same block, with the feed answering the same, succeeds, whatever the amount
    and whoever the liquidator. *)
Theorem checked_position_cannot_be_liquidated
    (env env' : Env) (st : State) (c : Call) (st' : State) (sym : string) (amount x : Z) :
  reachable st -> 0 <= block_timestamp env ->
  c = call_borrow sym amount \/ c = call_withdraw sym amount ->
  exec env st c = Ok st' ->
  block_timestamp env' = block_timestamp env ->
  latestRoundData env' (priceFeedAddress (readAsset st sym))
    = latestRoundData env (priceFeedAddress (readAsset st sym)) ->
  collateralFactor (readAsset st' sym) < liquidationThreshold (readAsset st' sym) /\
  exists e, liquidate env' st' (msg_sender env) sym x = Err e.
Proof.
  intros R Hnow Hc H Ht Hfeed.
  assert (T : target env c = Some (msg_sender env, sym)) by (destruct Hc as [-> | ->]; reflexivity).
  destruct (ledger_exec_moved _ _ _ _ _ _ H T) as (Hact & ds & db & M).
  pose proof (moved_readAsset _ _ _ _ _ _ _ sym M) as Ra. rewrite decide_True in Ra by done.
  pose proof (moved_readPosition _ _ _ _ _ _ _ (msg_sender env) sym M) as Rp.
  rewrite decide_True in Rp by done.
  pose proof (active_asset_has_margin st sym R Hact) as Hmargin.
  assert (Hmargin' : collateralFactor (readAsset st' sym)
                     < liquidationThreshold (readAsset st' sym)) by (now rewrite Ra).
  destruct (collateral_check_passed env st c st' sym amount R Hnow Hc H) as [Hs Hchecked].
  split; [exact Hmargin'|].
  destruct (liquidate env' st' (msg_sender env) sym x) as [st''|e] eqn:E; [exfalso | eauto].
  revert E. apply checked_position_is_not_liquidated.
  - rewrite Rp. cbn. congruence.
  - exact Hs.
  - lia.
  - destruct Hchecked as [Hz | (P & HP & HPpos & Hle)]; [now left|].
    right. exists P. split; [exact HPpos|]. split; [|exact Hle].
    intros P' HP'.
    apply (same_answer_same_price env env' st' st' sym P P'); try reflexivity;
      [|exact HP | exact HP'].
    now rewrite Ra.
Qed.

Lemma checked_position_cannot_be_liquidated_witness :
  exists e, liquidate (honest_env 3 100 2000) borrowed_more 2 "ETH" 600 = Err e.
Proof.
  assert (E : exec (honest_env 2 100 2000) funded (call_borrow "ETH" 100) = Ok borrowed_more)
    by (vm_compute; reflexivity).
  destruct (checked_position_cannot_be_liquidated
              (honest_env 2 100 2000) (honest_env 3 100 2000) funded (call_borrow "ETH" 100)
              borrowed_more "ETH" 100 600 reachable_funded ltac:(vm_compute; discriminate)
              (or_introl eq_refl) E eq_refl eq_refl) as [_ H].
  exact H.
Defined.

(** ** How interest accrual fails *)

Lemma accrual_step_panics (st : State) (sym : string) (u : address) (el : Z)
    (supply_side : bool) (e : error) :
  (if supply_side then
     if 0 <? supplied (readPosition st u sym) then
       m1 ← checked_mul (supplied (readPosition st u sym))
                        (supplyInterestRate (readAsset st sym));
       m2 ← checked_mul m1 el;
       supplyInterest ← checked_div m2 (10000 * days_365);
       s' ← checked_add (supplied (readPosition st u sym)) supplyInterest;
       t' ← checked_add (totalSupplied (readAsset st sym)) supplyInterest;
       Ok (writeAsset (writePosition st u sym (set_supplied s' (readPosition st u sym)))
                      sym (set_totalSupplied t' (readAsset st sym)))
     else Ok st
   else
     if 0 <? borrowed (readPosition st u sym) then
       m1 ← checked_mul (borrowed (readPosition st u sym))
                        (borrowInterestRate (readAsset st sym));
       m2 ← checked_mul m1 el;
       borrowInterest ← checked_div m2 (10000 * days_365);
       b' ← checked_add (borrowed (readPosition st u sym)) borrowInterest;
       t' ← checked_add (totalBorrowed (readAsset st sym)) borrowInterest;
       Ok (writeAsset (writePosition st u sym (set_borrowed b' (readPosition st u sym)))
                      sym (set_totalBorrowed t' (readAsset st sym)))
     else Ok st) = Err e ->
  e = Panic 17.
Proof.
  assert (Hmul : forall a b (k : Z -> result State),
            (forall m, k m = Err e -> e = Panic 17) ->
            checked_mul a b ≫= k = Err e -> e = Panic 17).
  { intros a b k Hk. unfold checked_mul. destruct (a * b <=? MAX_UINT256); cbn.
    - apply Hk.
    - now intros [= <-]. }
  assert (Hadd : forall a b (k : Z -> result State),
            (forall m, k m = Err e -> e = Panic 17) ->
            checked_add a b ≫= k = Err e -> e = Panic 17).
  { intros a b k Hk. unfold checked_add. destruct (a + b <=? MAX_UINT256); cbn.
    - apply Hk.
    - now intros [= <-]. }
  destruct supply_side.
  - destruct (0 <? supplied _); [|discriminate].
    apply Hmul. intros m1. apply Hmul. intros m2.
    unfold checked_div. change (10000 * days_365 =? 0) with false. cbn [mbind result_bind].
    apply Hadd. intros s'. apply Hadd. intros t'. discriminate.
  - destruct (0 <? borrowed _); [|discriminate].
    apply Hmul. intros m1. apply Hmul. intros m2.
    unfold checked_div. change (10000 * days_365 =? 0) with false. cbn [mbind result_bind].
    apply Hadd. intros s'. apply Hadd. intros t'. discriminate.
Qed.

Lemma _updateInterest_panics (env : Env) (st : State) (sym : string) (u : address) (e : error) :
  _updateInterest env st sym u = Err e -> e = Panic 17.
Proof.
  intros H. unfold _updateInterest in H.
  destruct (lastUpdateTimestamp (readPosition st u sym) =? 0); [discriminate H|].
  unfold checked_sub in H at 1.
  destruct (lastUpdateTimestamp (readPosition st u sym) <=? block_timestamp env);
    cbn [mbind result_bind] in H; [|now injection H as <-].
  destruct (_ =? 0); [discriminate H|].
  apply bind_Err in H as [H | (sta & _ & H)].
  { exact (accrual_step_panics st sym u _ true e H). }
  apply bind_Err in H as [H | (stb & _ & H)]; [|discriminate H].
  exact (accrual_step_panics sta sym u _ false e H).
Qed.

Lemma _updateInterest_stale_clock (env : Env) (st : State) (sym : string) (u : address) :
  lastUpdateTimestamp (readPosition st u sym) <> 0 ->
  block_timestamp env < lastUpdateTimestamp (readPosition st u sym) ->
  _updateInterest env st sym u = Err (Panic 17).
Proof.
  intros H0 Hlt. unfold _updateInterest. apply Z.eqb_neq in H0. rewrite H0.
  unfold checked_sub. apply Z.leb_gt in Hlt. now rewrite Hlt.
Qed.

Lemma ledger_call_accrues (env : Env) (st : State) (c : Call) (st' : State)
    (u : address) (sym : string) :
  exec env st c = Ok st' -> target env c = Some (u, sym) ->
  exists st1, _updateInterest env st sym u = Ok st1.
Proof.
  intros H T. destruct c; cbn in T, H; try discriminate; injection T as <- <-.
  - apply supply_Ok in H as (st1 & _ & _ & Hacc & _). eauto.
  - apply withdraw_Ok in H as (st1 & _ & _ & _ & Hacc & _). eauto.
  - apply borrow_Ok in H as (st1 & _ & _ & _ & _ & Hacc & _). eauto.
  - apply repay_Ok in H as (st1 & _ & _ & _ & Hacc & _). eauto.
  - apply liquidate_Ok in H as (st1 & P & seize & _ & _ & _ & Hacc & _). eauto.
Qed.

(** X13: how interest accrual fails.  _updateInterest has no require and calls no
    other contract, and its divisor 10000 * 365 days is a non-zero constant: its
    only failure is the arithmetic panic 0x11.  It fails that way for every
    position whose lastUpdateTimestamp lies after the time of the call, and then
    supply, withdraw, borrow, repay and liquidate cannot succeed on that
    position.  A position that holds nothing (supplied = 0 and borrowed = 0) and
    is not stamped later than the call always accrues. *)
Theorem accrual_fails_only_by_panic (env : Env) (st : State) (sym : string) (u : address) :
  let pos := readPosition st u sym in
  (forall e, _updateInterest env st sym u = Err e -> e = Panic 17) /\
  (lastUpdateTimestamp pos <> 0 -> block_timestamp env < lastUpdateTimestamp pos ->
   _updateInterest env st sym u = Err (Panic 17) /\
   forall c, target env c = Some (u, sym) -> exists e, exec env st c = Err e) /\
  (supplied pos = 0 -> borrowed pos = 0 -> lastUpdateTimestamp pos <= block_timestamp env ->
   exists st1, _updateInterest env st sym u = Ok st1).
Proof.
  intros pos. split; [|split].
  - apply _updateInterest_panics.
  - intros H0 Hlt.
    pose proof (_updateInterest_stale_clock env st sym u H0 Hlt) as E.
    split; [exact E|]. intros c T.
    destruct (exec env st c) as [st'|e] eqn:Ec; [|eauto].
    destruct (ledger_call_accrues _ _ _ _ _ _ Ec T) as [st1 Hacc].
    rewrite E in Hacc. discriminate Hacc.
  - intros Hs Hb Hle. unfold _updateInterest. fold pos.
    destruct (lastUpdateTimestamp pos =? 0); [eauto|].
    rewrite checked_sub_fits by exact Hle. cbn [mbind result_bind].
    destruct (_ =? 0); [eauto|].
    rewrite Hs. cbn [Z.ltb Z.compare mbind result_bind]. fold pos. rewrite Hb.
    cbn [Z.ltb Z.compare mbind result_bind]. eauto.
Qed.

Lemma accrual_fails_only_by_panic_witness :
  _updateInterest (honest_env 2 50 2000) funded "ETH" 2 = Err (Panic 17) /\
  exists e, exec (honest_env 2 50 2000) funded (call_repay "ETH" 100) = Err e.
Proof.
  destruct (accrual_fails_only_by_panic (honest_env 2 50 2000) funded "ETH" 2) as (_ & H & _).
  destruct H as [E Hc]; side_conditions.
  split; [exact E|]. apply Hc. reflexivity.
Defined.

(** ** The event log *)

Lemma exec_logs (env : Env) (st : State) (c : Call) (st' : State) :
  exec env st c = Ok st' -> exists e, events st' = events st ++ [e] /\ announces env c e.
Proof.
  intros H. destruct c; cbn in H; cbn [announces].
  - apply addAsset_Ok in H as (_ & _ & _ & ->). eauto.
  - apply updateAsset_Ok in H as (_ & _ & _ & ->). eauto.
  - apply supply_Ok in H as (st1 & _ & _ & Hacc & _ & _ & _ & ->).
    eexists. split; [|reflexivity]. cbn. now rewrite (_updateInterest_events _ _ _ _ _ Hacc).
  - apply withdraw_Ok in H as (st1 & _ & _ & _ & Hacc & _ & _ & _ & _ & ->).
    eexists. split; [|reflexivity]. cbn. now rewrite (_updateInterest_events _ _ _ _ _ Hacc).
  - apply borrow_Ok in H as (st1 & _ & _ & _ & _ & Hacc & _ & _ & _ & _ & ->).
    eexists. split; [|reflexivity]. cbn. now rewrite (_updateInterest_events _ _ _ _ _ Hacc).
  - apply repay_Ok in H as (st1 & _ & _ & _ & Hacc & _ & _ & ->).
    eexists. split; [cbn; now rewrite (_updateInterest_events _ _ _ _ _ Hacc)|].
    eexists. split; [|reflexivity]. lia.
  - apply liquidate_Ok in H as (st1 & P & seize & _ & _ & _ & Hacc & _ & _ & _ & _ & _ & _ & _ & ->).
    eexists. split; [cbn; now rewrite (_updateInterest_events _ _ _ _ _ Hacc)|].
    eexists. split; [|reflexivity]. lia.
Qed.

(** X14: the event log.  Every successful call appends exactly one event to the
    log and leaves the earlier events as they were; the event is the one of the
    function called, with the caller and the arguments of the call (repay and
    liquidate log the amount settled, which is at most the amount asked).  So a
    run of n successful transactions makes the log n events longer. *)
Theorem one_event_per_call (st : State) (txs : list (Env * Call)) (st' : State) :
  run st txs = Ok st' ->
  length (events st') = (length (events st) + length txs)%nat /\
  (exists later, events st' = events st ++ later) /\
  (forall env c, txs = [(env, c)] ->
     exists e, events st' = events st ++ [e] /\ announces env c e).
Proof.
  intros H. split; [|split].
  - revert st H. induction txs as [|[env c] txs IH]; intros st H.
    + injection H as <-. cbn. lia.
    + cbn in H. apply bind_Ok in H as (st1 & H1 & H).
      apply exec_logs in H1 as (e & E & _). rewrite (IH st1 H), E, length_app. cbn. lia.
  - revert st H. induction txs as [|[env c] txs IH]; intros st H.
    + injection H as <-. exists []. now rewrite app_nil_r.
    + cbn in H. apply bind_Ok in H as (st1 & H1 & H).
      apply exec_logs in H1 as (e & E & _). destruct (IH st1 H) as [later ->].
      exists (e :: later). rewrite E, <- app_assoc. reflexivity.
  - intros env c ->. cbn in H. apply bind_Ok in H as (st1 & H1 & H). injection H as <-.
    now apply exec_logs.
Qed.

Lemma one_event_per_call_witness :
  length (events liquidated) = 5%nat /\
  events borrowed_more = events funded ++ [Borrowed 2 "ETH" 100].
Proof.
  split.
  - assert (E : run deployed early_liquidation = Ok liquidated) by (vm_compute; reflexivity).
    destruct (one_event_per_call deployed early_liquidation liquidated E) as [H _].
    exact H.
  - assert (E : run funded [(honest_env 2 100 2000, call_borrow "ETH" 100)] = Ok borrowed_more)
      by (vm_compute; reflexivity).
    destruct (one_event_per_call funded _ borrowed_more E) as (_ & _ & H).
    destruct (H _ _ eq_refl) as (e & Ee & He). cbn in He. subst e. exact Ee.
Defined.

(** ** Who changes the parameters *)

Lemma onlyOwner_cases (env : Env) (st : State) :
  (msg_sender env = owner st /\ onlyOwner env st = Ok tt) \/
  (msg_sender env <> owner st /\ onlyOwner env st = Err Unauthorized).
Proof. unfold onlyOwner. destruct (Z.eqb_spec (msg_sender env) (owner st)); auto. Qed.

Lemma require_not_Unauthorized {A : Type} (c : bool) (msg : string) (k : result A) :
  k <> Err Unauthorized -> (require c msg;; k) <> Err Unauthorized.
Proof. intros Hk. destruct c; cbn; [exact Hk | discriminate]. Qed.

(** X15: the owner check comes first and is the only way to the parameters.
    addAsset and updateAsset fail with the owner check exactly when the caller
    is not the owner, whatever the arguments.  Consequently a successful call by
    anyone else leaves the list of symbols and, for every symbol, the token, the
    feed, the three risk parameters, both rates and isActive as they were. *)
Theorem parameters_change_only_by_owner (env : Env) (st : State) (sym : string)
    (token feed : address) (cf bf lt sr br : Z) (active : bool) :
  (addAsset env st sym token feed cf bf lt sr br = Err Unauthorized <->
   msg_sender env <> owner st) /\
  (updateAsset env st sym cf bf lt sr br active = Err Unauthorized <->
   msg_sender env <> owner st) /\
  (forall c st' s, msg_sender env <> owner st -> exec env st c = Ok st' ->
     let a := readAsset st s in
     let a' := readAsset st' s in
     getAllAssets st' = getAllAssets st /\
     tokenAddress a' = tokenAddress a /\ priceFeedAddress a' = priceFeedAddress a /\
     collateralFactor a' = collateralFactor a /\ borrowFactor a' = borrowFactor a /\
     liquidationThreshold a' = liquidationThreshold a /\
     supplyInterestRate a' = supplyInterestRate a /\
     borrowInterestRate a' = borrowInterestRate a /\ isActive a' = isActive a).
Proof.
  split; [|split].
  - unfold addAsset. destruct (onlyOwner_cases env st) as [[Ho ->] | [Ho ->]];
      cbn [mbind result_bind]; [|tauto].
    split; [|contradiction]. intros H. exfalso. revert H.
    repeat apply require_not_Unauthorized. discriminate.
  - unfold updateAsset. destruct (onlyOwner_cases env st) as [[Ho ->] | [Ho ->]];
      cbn [mbind result_bind]; [|tauto].
    split; [|contradiction]. intros H. exfalso. revert H.
    repeat apply require_not_Unauthorized. discriminate.
  - intros c st' s Ho H a a'. destruct (target env c) as [[u sym']|] eqn:T.
    + destruct (ledger_exec_moved _ _ _ _ _ _ H T) as (_ & ds & db & M).
      pose proof M as (_ & Hs & _). split; [exact Hs|].
      unfold a', a. rewrite (moved_readAsset _ _ _ _ _ _ _ s M).
      destruct (decide (sym' = s)) as [<- | Hne]; cbn; repeat split; reflexivity.
    + destruct c; try discriminate; cbn in H.
      * apply addAsset_Ok in H as (Ho' & _). contradiction.
      * apply updateAsset_Ok in H as (Ho' & _). contradiction.
Qed.

Lemma parameters_change_only_by_owner_witness :
  addAsset (honest_env 2 100 2000) funded "BTC" 7 8 7500 7000 8500 500 1000
    = Err Unauthorized /\
  updateAsset (honest_env 2 100 2000) funded "ETH" 9000 9000 9001 0 0 true
    = Err Unauthorized.
Proof.
  split.
  - destruct (parameters_change_only_by_owner (honest_env 2 100 2000) funded "BTC" 7 8
                7500 7000 8500 500 1000 true) as ([_ H] & _).
    apply H. vm_compute. discriminate.
  - destruct (parameters_change_only_by_owner (honest_env 2 100 2000) funded "ETH" 0 0
                9000 9000 9001 0 0 true) as (_ & [_ H] & _).
    apply H. vm_compute. discriminate.
Defined.

(** ** The list of symbols *)

Lemma NoDup_snoc {A : Type} (l : list A) (x : A) : NoDup l -> ~ In x l -> NoDup (l ++ [x]).
Proof.
  intros Hnd Hx. apply NoDup_app. split; [exact Hnd|]. split; [|apply NoDup_singleton].
  intros y Hy Hy'. apply list_elem_of_singleton in Hy'. subst y.
  apply Hx. now apply list_elem_of_In.
Qed.

Lemma listing_inv_init (deployer : address) : listing_inv (constructor deployer).
Proof.
  split; [constructor|]. intros sym. cbn. unfold readAsset. cbn. rewrite lookup_empty. cbn.
  split; [intros [] | intros H; now apply H].
Qed.

Lemma listing_inv_step (env : Env) (st : State) (c : Call) (st' : State) :
  listing_inv st -> tokens_nonzero env st c -> exec env st c = Ok st' -> listing_inv st'.
Proof.
  intros [Hnd Hiff] Hp H. destruct (target env c) as [[u sym]|] eqn:T.
  - destruct (ledger_exec_moved _ _ _ _ _ _ H T) as (_ & ds & db & M).
    pose proof M as (_ & Hs & _). split; rewrite Hs; [exact Hnd|].
    intros s. rewrite (moved_readAsset _ _ _ _ _ _ _ s M).
    destruct (decide (sym = s)) as [<- | Hne]; apply Hiff.
  - destruct c; try discriminate; cbn in H, Hp.
    + apply addAsset_Ok in H as (_ & Hz & _ & ->).
      unfold listing_inv. cbn [assetSymbols emit pushSymbol writeAsset].
      assert (Hout : ~ In symbol (assetSymbols st)) by (intros Hin; now apply Hiff in Hin).
      split; [now apply NoDup_snoc|].
      intros s. rewrite readAsset_emit.
      change (readAsset (pushSymbol ?x _) s) with (readAsset x s).
      rewrite readAsset_writeAsset, in_app_iff.
      destruct (decide (symbol = s)) as [<- | Hne]; cbn [tokenAddress].
      * split; [intros _; exact Hp | intros _; right; now left].
      * rewrite <- Hiff. split; [intros [Hin | [-> | []]]; [exact Hin | contradiction] | auto].
    + apply updateAsset_Ok in H as (_ & Hz & _ & ->).
      unfold listing_inv. cbn [assetSymbols emit writeAsset]. split; [exact Hnd|].
      intros s. rewrite readAsset_emit, readAsset_writeAsset.
      destruct (decide (symbol = s)) as [<- | Hne]; cbn [tokenAddress]; apply Hiff.
Qed.

Lemma reachable_listing_inv (st : State) : reachable_by tokens_nonzero st -> listing_inv st.
Proof.
  induction 1 as [d | env st c st' _ IH _ _ Hp H].
  - apply listing_inv_init.
  - eapply listing_inv_step; eassumption.
Qed.

(** X16: the list returned by getAllAssets.  When every asset is registered with
    a token other than the zero address, in every reachable state the list holds
    no symbol twice, a symbol is listed exactly when its stored tokenAddress is
    not zero, and an unlisted symbol reads as the all-zero record, for which
    getAssetPrice fails with "Asset does not exist". *)
Theorem symbols_are_listed_once (env : Env) (st : State) (sym : string) :
  reachable_by tokens_nonzero st ->
  NoDup (getAllAssets st) /\
  (In sym (getAllAssets st) <-> tokenAddress (getAssetDetails st sym) <> 0) /\
  (~ In sym (getAllAssets st) ->
   getAssetDetails st sym = zeroAsset /\
   getAssetPrice env st sym = Err (Revert "Asset does not exist")).
Proof.
  intros R. destruct (reachable_listing_inv st R) as [Hnd Hiff].
  split; [exact Hnd|]. split; [apply Hiff|].
  intros Hout. destruct (reachable_registry_inv _ st R sym) as [_ I2].
  destruct (I2 Hout) as [Hz _]. split; [exact Hz|].
  unfold getAssetPrice. cbn zeta. rewrite Hz. reflexivity.
Qed.

Lemma symbols_are_listed_once_witness :
  NoDup (getAllAssets liquidated) /\
  (In "ETH" (getAllAssets liquidated) <-> tokenAddress (getAssetDetails liquidated "ETH") <> 0).
Proof.
  destruct (symbols_are_listed_once (honest_env 1 100 2000) liquidated "ETH") as (H1 & H2 & _).
  - apply (run_reachable_by tokens_nonzero early_liquidation deployed).
    + apply reach_init.
    + vm_compute. reflexivity.
    + intros env s c Hin.
      repeat (destruct Hin as [Hin | Hin];
              [injection Hin as <- <-; cbn [tokens_nonzero]; first [exact I | discriminate]|]).
      destruct Hin.
    + vm_compute. reflexivity.
  - exact (conj H1 H2).
Defined.

(** ** Registering and updating an asset *)

Lemma onlyOwner_owner (env : Env) (st : State) :
  msg_sender env = owner st -> onlyOwner env st = Ok tt.
Proof. intros H. unfold onlyOwner. now rewrite H, Z.eqb_refl. Qed.

Lemma readAsset_registered (st : State) (sym s : string) (a : Asset) (e : Event) :
  readAsset (emit e (pushSymbol (writeAsset st sym a) sym)) s =
  if decide (sym = s) then a else readAsset st s.
Proof. apply readAsset_writeAsset. Qed.

Lemma risk_checks_pass {A : Type} (cf bf lt : Z) (k : result A) :
  risk_ok cf bf lt ->
  (require (cf <=? 9000) "Collateral factor too high";;
   require (bf <=? cf) "Borrow factor too high";;
   require (cf <? lt) "Invalid liquidation threshold";; k) = k.
Proof.
  intros (H1 & H2 & H3). apply Z.leb_le in H1, H2. apply Z.ltb_lt in H3.
  now rewrite H1, H2, H3.
Qed.

(** X17: the life of a registration.  A successful addAsset stores the record
    given, with both totals 0 and isActive true, appends the symbol to the list
    and touches no other asset and no position.  If the token is not the zero
    address, the symbol is taken: a further addAsset by the owner fails with
    "Asset already exists", and updateAsset replaces the three risk parameters,
    the two rates and isActive while keeping token, feed, totals and the list.
    If the token is the zero address, the asset is active but counts as not
    existing: getAssetPrice and updateAsset fail with "Asset does not exist", and
    the same addAsset succeeds again, listing the symbol a second time. *)
Theorem registration_lifecycle (env : Env) (st : State) (sym : string)
    (token feed : address) (cf bf lt sr br : Z) (st' : State) :
  addAsset env st sym token feed cf bf lt sr br = Ok st' ->
  getAssetDetails st' sym = mkAsset token feed cf bf lt 0 0 sr br true /\
  getAllAssets st' = getAllAssets st ++ [sym] /\
  (forall s, sym <> s -> getAssetDetails st' s = getAssetDetails st s) /\
  (forall u s, readPosition st' u s = readPosition st u s) /\
  (token <> 0 ->
   (forall env' token' feed' cf' bf' lt' sr' br',
      msg_sender env' = owner st' ->
      addAsset env' st' sym token' feed' cf' bf' lt' sr' br'
      = Err (Revert "Asset already exists")) /\
   (forall env' cf' bf' lt' sr' br' active st'',
      updateAsset env' st' sym cf' bf' lt' sr' br' active = Ok st'' ->
      getAssetDetails st'' sym = mkAsset token feed cf' bf' lt' 0 0 sr' br' active /\
      getAllAssets st'' = getAllAssets st')) /\
  (token = 0 ->
   getAssetPrice env st' sym = Err (Revert "Asset does not exist") /\
   (forall cf' bf' lt' sr' br' active,
      updateAsset env st' sym cf' bf' lt' sr' br' active
      = Err (Revert "Asset does not exist")) /\
   exists st'', addAsset env st' sym token feed cf bf lt sr br = Ok st'' /\
                getAllAssets st'' = getAllAssets st ++ [sym; sym]).
Proof.
  intros H. apply addAsset_Ok in H as (Ho & Hz & R & ->).
  unfold getAssetDetails, getAllAssets.
  assert (Ra : forall s, readAsset (emit (AssetAdded sym token feed)
                 (pushSymbol (writeAsset st sym (mkAsset token feed cf bf lt 0 0 sr br true))
                    sym)) s
               = if decide (sym = s) then mkAsset token feed cf bf lt 0 0 sr br true
                 else readAsset st s) by (intros s; apply readAsset_registered).
  split; [now rewrite Ra, decide_True|]. split; [reflexivity|].
  split; [intros s Hne; now rewrite Ra, decide_False|]. split; [reflexivity|].
  split.
  - intros Hne. split.
    + intros env' token' feed' cf' bf' lt' sr' br' Ho'. unfold addAsset.
      rewrite (onlyOwner_owner _ _ Ho'). cbn [mbind result_bind].
      rewrite Ra, decide_True by done. cbn [tokenAddress].
      apply Z.eqb_neq in Hne. now rewrite Hne.
    + intros env' cf' bf' lt' sr' br' active st'' H.
      apply updateAsset_Ok in H as (_ & _ & _ & ->).
      rewrite readAsset_emit, readAsset_writeAsset_eq, Ra, decide_True by done.
      split; reflexivity.
  - intros ->. split; [|split].
    + unfold getAssetPrice. cbn zeta. rewrite Ra, decide_True by done. reflexivity.
    + intros cf' bf' lt' sr' br' active. unfold updateAsset.
      rewrite onlyOwner_owner by exact Ho. cbn [mbind result_bind].
      rewrite Ra, decide_True by done. reflexivity.
    + unfold addAsset. rewrite onlyOwner_owner by exact Ho. cbn [mbind result_bind].
      rewrite Ra, decide_True by done. cbn [tokenAddress Z.eqb require mbind result_bind].
      rewrite (risk_checks_pass cf bf lt _ R).
      eexists. split; [reflexivity|]. cbn. now rewrite <- app_assoc.
Qed.

Lemma registration_lifecycle_witness :
  getAllAssets wide_listed = ["ETH"] /\
  addAsset (honest_env 1 200 2000) wide_listed "ETH" 7 8 5000 5000 6000 0 0
    = Err (Revert "Asset already exists").
Proof.
  assert (E : addAsset (honest_env 1 100 2000) deployed "ETH" 5 6 7500 7000 20000 500 1000
              = Ok wide_listed) by (vm_compute; reflexivity).
  destruct (registration_lifecycle (honest_env 1 100 2000) deployed "ETH" 5 6 7500 7000 20000
              500 1000 wide_listed E) as (_ & Hl & _ & _ & Ht & _).
  split; [exact Hl|].
  destruct Ht as [Ha _]; [discriminate|]. apply Ha. vm_compute. reflexivity.
Defined.

(** ** The price cancels out of the health checks *)

Lemma floor_compare (x y n : Z) : 0 < n -> (x <=? y / n) = (n * x <=? y).
Proof.
  intros Hn. destruct (Z.leb_spec x (y / n)) as [H | H], (Z.leb_spec (n * x) y) as [H' | H'];
    try reflexivity; exfalso.
  - pose proof (Z.mul_div_le y n Hn). nia.
  - assert (x <= y / n) by (apply Z.div_le_lower_bound; lia). lia.
Qed.

Lemma price_cancels (b s P k : Z) :
  0 < P -> (b * P <=? s * P * k / 10000) = (b * 10000 <=? s * k).
Proof.
  intros HP. rewrite floor_compare by lia.
  destruct (Z.leb_spec (10000 * (b * P)) (s * P * k)), (Z.leb_spec (b * 10000) (s * k));
    try reflexivity; exfalso; nia.
Qed.

(** X18: the price cancels out of both health checks.  Collateral and debt are
    amounts of the same asset, valued at the same price, and the floor of the
    division does not disturb the comparison: whenever _checkHealthFactor
    returns, its verdict for a debt other than 0 is borrowed * 10000 <= supplied
    * collateralFactor, and whenever _isHealthy returns, its verdict is borrowed
    * 10000 <= supplied * liquidationThreshold.  The feed decides whether the
    checks return, not what they return: two calls of _isHealthy on the same
    state under different feeds never disagree, and a liquidation succeeds only
    on a position with supplied * liquidationThreshold < borrowed * 10000 after
    accrual. *)
Theorem health_checks_do_not_depend_on_the_price
    (env : Env) (st : State) (sym : string) (u : address) :
  let p := readPosition st u sym in
  (forall s b h, _checkHealthFactor env st sym u s b = Ok h ->
     h = if b =? 0 then true else b * 10000 <=? s * collateralFactor (readAsset st sym)) /\
  (forall h, _isHealthy env st sym u = Ok h ->
     h = if borrowed p =? 0 then true
         else borrowed p * 10000 <=? supplied p * liquidationThreshold (readAsset st sym)) /\
  (forall env' h h', _isHealthy env st sym u = Ok h -> _isHealthy env' st sym u = Ok h' ->
     h' = h) /\
  (forall amount st', liquidate env st u sym amount = Ok st' ->
     exists st1, _updateInterest env st sym u = Ok st1 /\
       supplied (readPosition st1 u sym) * liquidationThreshold (readAsset st1 sym)
       < borrowed (readPosition st1 u sym) * 10000).
Proof.
  intros p.
  assert (Hhealthy : forall env0 st0 h, _isHealthy env0 st0 sym u = Ok h ->
            h = if borrowed (readPosition st0 u sym) =? 0 then true
                else borrowed (readPosition st0 u sym) * 10000 <=?
                     supplied (readPosition st0 u sym) * liquidationThreshold (readAsset st0 sym)).
  { intros env0 st0 h H. apply _isHealthy_Ok in H. cbn zeta in H.
    destruct H as [[Hz ->] | (Hnz & P & HP & ->)].
    - now rewrite Hz.
    - apply Z.eqb_neq in Hnz. rewrite Hnz.
      destruct (getAssetPrice_Ok _ _ _ _ HP) as (_ & _ & _ & _ & HPpos & _).
      now apply price_cancels. }
  split; [|split; [|split]].
  - intros s b h H. apply _checkHealthFactor_Ok in H as [[-> ->] | (Hnz & P & HP & ->)].
    + reflexivity.
    + apply Z.eqb_neq in Hnz. rewrite Hnz.
      destruct (getAssetPrice_Ok _ _ _ _ HP) as (_ & _ & _ & _ & HPpos & _).
      now apply price_cancels.
  - intros h H. exact (Hhealthy env st h H).
  - intros env' h h' H H'. apply Hhealthy in H, H'. congruence.
  - intros amount st' H.
    apply liquidate_Ok in H as (st1 & P & seize & _ & _ & _ & Hacc & Hh & _).
    exists st1. split; [exact Hacc|]. apply Hhealthy in Hh.
    destruct (borrowed (readPosition st1 u sym) =? 0); [discriminate Hh|].
    symmetry in Hh. apply Z.leb_gt in Hh. lia.
Qed.

Lemma health_checks_do_not_depend_on_the_price_witness :
  _isHealthy (honest_env 3 100 1) funded "ETH" 2 = Ok true /\
  _isHealthy (honest_env 3 100 2000) funded "ETH" 2 = Ok true.
Proof.
  assert (E : _isHealthy (honest_env 3 100 1) funded "ETH" 2 = Ok true)
    by (vm_compute; reflexivity).
  split; [exact E|].
  destruct (_isHealthy (honest_env 3 100 2000) funded "ETH" 2) as [h'|e] eqn:E';
    [|vm_compute in E'; discriminate E'].
  destruct (health_checks_do_not_depend_on_the_price (honest_env 3 100 1) funded "ETH" 2)
    as (_ & _ & H & _).
  now rewrite (H (honest_env 3 100 2000) true h' E E').
Defined.

(** ** Withdrawing without a debt *)

(** X19: an account without debt gets its deposit back whenever the token
    cooperates.  In a reachable state, once the three entry checks and the
    interest accrual have passed for an account with borrowed = 0, the price feed
    is not asked and no subtraction can underflow: withdraw succeeds when the
    token's transfer returns true, leaving supplied - amount on the accrued
    position and asset.totalSupplied - amount in the totals; it fails with
    "Transfer failed" when transfer returns false and reverts when it reverts. *)
Theorem debt_free_withdrawal_is_decided_by_the_token
    (env : Env) (st st1 : State) (sym : string) (amount : Z) :
  let u := msg_sender env in
  let p1 := readPosition st1 u sym in
  let a1 := readAsset st1 sym in
  let sent := token_transfer env (tokenAddress a1) u amount in
  reachable_by zero_address_empty st -> 0 <= block_timestamp env ->
  isActive (readAsset st sym) = true -> 0 < amount ->
  amount <= supplied (readPosition st u sym) ->
  borrowed (readPosition st u sym) = 0 ->
  _updateInterest env st sym u = Ok st1 ->
  amount <= supplied p1 <= totalSupplied a1 /\
  (sent = Some true ->
   exists st', withdraw env st sym amount = Ok st' /\
     readPosition st' u sym = mkUserPosition (supplied p1 - amount) 0 (block_timestamp env) /\
     totalSupplied (readAsset st' sym) = totalSupplied a1 - amount /\
     events st' = events st ++ [Withdrawn u sym amount]) /\
  (sent = Some false -> withdraw env st sym amount = Err (Revert "Transfer failed")) /\
  (sent = None -> withdraw env st sym amount = Err CallReverted).
Proof.
  intros u p1 a1 sent R Hnow Hact Hamt Hbal Hdebt Hacc.
  assert (Ht : tokenAddress (readAsset st sym) <> 0).
  { intros Hz. destruct (reachable_books_inv st R) as (_ & I4).
    destruct (I4 sym u Hz) as [Hs _]. lia. }
  destruct (accrued_reachable env st st1 sym u R Hnow Ht Hacc) as [T1 I1].
  destruct (position_below_totals st1 sym u T1 I1) as [Hle _]. fold p1 a1 in Hle.
  destruct (accrued_debt_stays env st st1 sym u (reachable_typed _ st R) Hnow Hacc)
    as (Hgrow & _). fold p1 in Hgrow.
  pose proof (accrued_without_debt env st st1 sym u Hdebt Hacc) as Hdebt1. fold p1 in Hdebt1.
  pose proof (accrued_timestamp _ _ _ _ _ Hacc) as Hts. fold p1 in Hts.
  assert (E : withdraw env st sym amount =
    (ok ← external sent;
     require ok "Transfer failed";;
     Ok (emit (Withdrawn u sym amount)
           (writeAsset (writePosition st1 u sym (set_supplied (supplied p1 - amount) p1))
                       sym (set_totalSupplied (totalSupplied a1 - amount) a1))))).
  { unfold withdraw. cbn beta zeta. rewrite Hact. cbn [require mbind result_bind].
    pose proof Hamt as Hamt'. apply Z.ltb_lt in Hamt'. rewrite Hamt'.
    cbn [require mbind result_bind]. fold u.
    pose proof Hbal as Hbal'. apply Z.leb_le in Hbal'. rewrite Hbal'.
    cbn [require mbind result_bind].
    rewrite Hacc. cbn [mbind result_bind]. fold p1.
    rewrite (checked_sub_fits (supplied p1) amount) by lia. cbn [mbind result_bind].
    rewrite Hdebt1. unfold _checkHealthFactor. cbn [Z.eqb require mbind result_bind].
    simpl_reads. fold a1.
    rewrite (checked_sub_fits (totalSupplied a1) amount) by lia. cbn [mbind result_bind].
    simpl_reads. cbn [tokenAddress set_totalSupplied]. fold a1. fold sent. reflexivity. }
  split; [lia|].
  rewrite E. split; [|split]; intros ->; cbn [external require mbind result_bind];
    try reflexivity.
  eexists. split; [reflexivity|]. simpl_reads.
  cbn [set_supplied set_totalSupplied totalBorrowed totalSupplied events emit writeAsset
       writePosition].
  rewrite (_updateInterest_events _ _ _ _ _ Hacc). unfold set_supplied. rewrite Hdebt1, Hts.
  repeat split; reflexivity.
Qed.

Lemma reachable_zero_address_empty_saved : reachable_by zero_address_empty saved.
Proof.
  apply (run_reachable_by zero_address_empty deposit_only deployed).
  - apply reach_init.
  - vm_compute. reflexivity.
  - intros env s c Hin. unfold zero_address_empty.
    repeat (destruct Hin as [Hin | Hin]; [injection Hin as <- _; apply honest_no_code|]).
    destruct Hin.
  - vm_compute. reflexivity.
Qed.

Lemma debt_free_withdrawal_is_decided_by_the_token_witness :
  (exists st', withdraw year_later saved "ETH" 1000 = Ok st' /\
     readPosition st' 3 "ETH" = mkUserPosition 50 0 (100 + days_365)) /\
  withdraw year_later_refused saved "ETH" 1000 = Err (Revert "Transfer failed").
Proof.
  split.
  - assert (Hacc : _updateInterest year_later saved "ETH" (msg_sender year_later)
                   = Ok (accrue year_later saved "ETH" 3)) by (vm_compute; reflexivity).
    destruct (debt_free_withdrawal_is_decided_by_the_token year_later saved _ "ETH" 1000
                reachable_zero_address_empty_saved ltac:(vm_compute; discriminate)
                ltac:(vm_compute; reflexivity) ltac:(reflexivity)
                ltac:(vm_compute; discriminate) ltac:(vm_compute; reflexivity) Hacc)
      as (_ & H & _).
    destruct H as (st' & E & Rp & _); [vm_compute; reflexivity|].
    exists st'. split; [exact E|]. vm_compute in Rp. vm_compute. exact Rp.
  - assert (Hacc : _updateInterest year_later_refused saved "ETH" (msg_sender year_later_refused)
                   = Ok (accrue year_later_refused saved "ETH" 3)) by (vm_compute; reflexivity).
    destruct (debt_free_withdrawal_is_decided_by_the_token year_later_refused saved _ "ETH" 1000
                reachable_zero_address_empty_saved ltac:(vm_compute; discriminate)
                ltac:(vm_compute; reflexivity) ltac:(reflexivity)
                ltac:(vm_compute; discriminate) ltac:(vm_compute; reflexivity) Hacc)
      as (_ & _ & H & _).
    apply H. vm_compute. reflexivity.
Defined.

(** ** The read API of the server *)

Section ServerFacts.
Variable formatEther : Z -> string.
Variable toString : Z -> string.

Lemma all_Ok {A B : Type} (f : A -> result B) (l : list A) (k : list B) :
  mapM f l = Ok k <-> Forall2 (fun x y => f x = Ok y) l k.
Proof.
  revert k. induction l as [|x l IH]; intros k; cbn.
  - split.
    + intros [= <-]. constructor.
    + intros H. inversion H. reflexivity.
  - split.
    + intros H. apply bind_Ok in H as (y & Hy & H). apply bind_Ok in H as (k' & Hk & H).
      injection H as <-. constructor; [exact Hy | now apply IH].
    + intros H. inversion H as [|? y ? k' Hy Hk]; subst.
      rewrite Hy. cbn. apply IH in Hk. rewrite Hk. reflexivity.
Qed.

Lemma all_Err {A B : Type} (f : A -> result B) (l : list A) :
  (exists e, mapM f l = Err e) <-> exists x e, In x l /\ f x = Err e.
Proof.
  induction l as [|x l IH]; cbn.
  - split; [intros [e H]; discriminate H | intros (x & e & [] & _)].
  - split.
    + intros [e H]. destruct (f x) as [y|e'] eqn:Ey; cbn in H.
      * destruct (mapM f l) as [k|e''] eqn:Ek; cbn in H; [discriminate H|].
        destruct (proj1 IH (ex_intro _ e'' eq_refl)) as (x' & e3 & Hin & Hx'). eauto 6.
      * eauto 6.
    + intros (x' & e & [<- | Hin] & Hx').
      * rewrite Hx'. cbn. eauto.
      * destruct (f x) as [y|e'] eqn:Ey; cbn; [|eauto].
        destruct (proj2 IH (ex_intro _ x' (ex_intro _ e (conj Hin Hx')))) as [e'' ->].
        cbn. eauto.
Qed.

Lemma Forall2_fst_map {A B : Type} (R : A -> B -> Prop) (g : B -> A) (l : list A) (k : list B) :
  Forall2 R l k -> (forall x y, R x y -> g y = x) -> map g k = l.
Proof.
  intros H Hg. induction H as [|x y l k Hxy _ IH]; cbn; [reflexivity|].
  now rewrite (Hg _ _ Hxy), IH.
Qed.

Lemma Forall2_snd_Forall {A B : Type} (R : A -> B -> Prop) (Q : B -> Prop)
    (l : list A) (k : list B) :
  Forall2 R l k -> (forall x y, R x y -> Q y) -> Forall Q k.
Proof.
  intros H HQ. induction H as [|x y l k Hxy _ IH]; constructor; eauto.
Qed.

Lemma Forall2_snd_Forall_In {A B : Type} (R : A -> B -> Prop) (Q : B -> Prop)
    (l : list A) (k : list B) :
  Forall2 R l k -> (forall x y, In x l -> R x y -> Q y) -> Forall Q k.
Proof.
  intros H. induction H as [|x y l k Hxy _ IH]; intros HQ; constructor.
  - apply (HQ x); [now left | exact Hxy].
  - apply IH. intros x' y' Hx'. apply HQ. now right.
Qed.

(** X20: the route /api/assets.  When it answers with JSON, the body has one
    entry per symbol of getAllAssets, in the same order, and each entry carries
    the stored record of its symbol (amounts through formatEther, factors and
    rates through toString) and the price getAssetPrice returns for it.  It
    answers with status 500 exactly when getAssetPrice fails for some listed
    symbol: one asset whose feed reverts or answers a price <= 0, or that was
    registered with the zero address as token, takes the whole list down. *)
Theorem api_assets_lists_every_asset (env : Env) (st : State) :
  (forall body, api_assets formatEther toString env st = res_json body ->
     map json_symbol body = getAllAssets st /\
     Forall (fun v =>
       let details := getAssetDetails st (json_symbol v) in
       exists price, getAssetPrice env st (json_symbol v) = Ok price /\
         json_price v = formatEther price /\
         json_tokenAddress v = tokenAddress details /\
         json_priceFeedAddress v = priceFeedAddress details /\
         json_collateralFactor v = toString (collateralFactor details) /\
         json_borrowFactor v = toString (borrowFactor details) /\
         json_liquidationThreshold v = toString (liquidationThreshold details) /\
         json_totalSupplied v = formatEther (totalSupplied details) /\
         json_totalBorrowed v = formatEther (totalBorrowed details) /\
         json_supplyInterestRate v = toString (supplyInterestRate details) /\
         json_borrowInterestRate v = toString (borrowInterestRate details) /\
         json_isActive v = isActive details) body) /\
  (api_assets formatEther toString env st = res_status_500 "Failed to fetch assets" <->
   exists symbol e, In symbol (getAllAssets st) /\ getAssetPrice env st symbol = Err e) /\
  (forall symbol, In symbol (getAllAssets st) ->
     tokenAddress (getAssetDetails st symbol) = 0 \/
     latestRoundData env (priceFeedAddress (getAssetDetails st symbol)) = None \/
     (exists price, latestRoundData env (priceFeedAddress (getAssetDetails st symbol))
                    = Some price /\ price <= 0) ->
     api_assets formatEther toString env st = res_status_500 "Failed to fetch assets").
Proof.
  assert (Hentry : forall symbol v,
            assetEntry formatEther toString env st symbol = Ok v ->
            json_symbol v = symbol /\
            exists price, getAssetPrice env st symbol = Ok price /\
              v = mkAssetJson symbol (tokenAddress (getAssetDetails st symbol))
                    (priceFeedAddress (getAssetDetails st symbol))
                    (toString (collateralFactor (getAssetDetails st symbol)))
                    (toString (borrowFactor (getAssetDetails st symbol)))
                    (toString (liquidationThreshold (getAssetDetails st symbol)))
                    (formatEther (totalSupplied (getAssetDetails st symbol)))
                    (formatEther (totalBorrowed (getAssetDetails st symbol)))
                    (toString (supplyInterestRate (getAssetDetails st symbol)))
                    (toString (borrowInterestRate (getAssetDetails st symbol)))
                    (isActive (getAssetDetails st symbol)) (formatEther price)).
  { intros symbol v H. unfold assetEntry in H. cbn zeta in H.
    apply bind_Ok in H as (price & HP & H). injection H as <-. eauto. }
  assert (Hfail : forall symbol e,
            assetEntry formatEther toString env st symbol = Err e <->
            getAssetPrice env st symbol = Err e).
  { intros symbol e. unfold assetEntry. cbn zeta.
    destruct (getAssetPrice env st symbol); cbn; split; congruence. }
  assert (H500 : api_assets formatEther toString env st
                 = res_status_500 "Failed to fetch assets" <->
                 exists symbol e, In symbol (getAllAssets st) /\
                                  getAssetPrice env st symbol = Err e).
  { unfold api_assets. cbn zeta. split.
    - intros H. destruct (mapM _ _) as [k|e] eqn:E; [discriminate H|].
      destruct (proj1 (all_Err _ _) (ex_intro _ e E)) as (x & e' & Hin & Hx).
      apply Hfail in Hx. eauto.
    - intros (symbol & e & Hin & Hx). apply Hfail in Hx.
      destruct (proj2 (all_Err _ _) (ex_intro _ symbol (ex_intro _ e (conj Hin Hx))))
        as [e' ->].
      reflexivity. }
  split; [|split].
  - intros body H. unfold api_assets in H. cbn zeta in H.
    destruct (mapM _ _) as [k|e] eqn:E; [|discriminate H]. injection H as <-.
    apply all_Ok in E. split.
    + apply (Forall2_fst_map _ _ _ _ E). intros x y Hxy. now apply Hentry in Hxy.
    + apply (Forall2_snd_Forall _ _ _ _ E). intros x y Hxy.
      apply Hentry in Hxy as (_ & price & HP & ->). cbn. exists price.
      repeat split; auto.
  - exact H500.
  - intros symbol Hin Hbad. apply H500.
    unfold getAssetPrice, getAssetDetails in *. cbn zeta.
    destruct Hbad as [Hz | [Hnone | (price & Hsome & Hle)]].
    + exists symbol. rewrite Hz. cbn. eauto.
    + exists symbol. destruct (tokenAddress (readAsset st symbol) =? 0); cbn; [eauto|].
      rewrite Hnone. cbn. eauto.
    + exists symbol. destruct (tokenAddress (readAsset st symbol) =? 0); cbn; [eauto|].
      rewrite Hsome. cbn. apply Z.ltb_ge in Hle. rewrite Hle. cbn. eauto.
Qed.

(** X21: the route /api/user/:address.  When it answers with JSON, the body has
    one entry per symbol of getAllAssets, in the same order, with the stored
    position of the address and the health factor getUserHealthFactor returns.
    It answers with status 500 exactly when getUserHealthFactor fails for some
    listed symbol.  For an address without debt in any listed asset no price is
    read: the route answers with JSON whatever the feeds do, and every health
    factor in it is toString(type(uint256).max). *)
Theorem api_user_lists_every_position (env : Env) (st : State) (address_ : address) :
  (forall body, api_user formatEther toString env st address_ = res_json body ->
     map json_position_symbol body = getAllAssets st /\
     Forall (fun v =>
       let position := readPosition st address_ (json_position_symbol v) in
       exists h, getUserHealthFactor env st (json_position_symbol v) address_ = Ok h /\
         json_healthFactor v = toString h /\
         json_supplied v = formatEther (supplied position) /\
         json_borrowed v = formatEther (borrowed position) /\
         json_lastUpdateTimestamp v = toString (lastUpdateTimestamp position)) body) /\
  (api_user formatEther toString env st address_ = res_status_500 "Failed to fetch user data"
   <-> exists symbol e, In symbol (getAllAssets st) /\
                        getUserHealthFactor env st symbol address_ = Err e) /\
  ((forall symbol, In symbol (getAllAssets st) ->
      borrowed (readPosition st address_ symbol) = 0) ->
   exists body, api_user formatEther toString env st address_ = res_json body /\
     Forall (fun v => json_healthFactor v = toString MAX_UINT256) body).
Proof.
  assert (Hentry : forall symbol v,
            positionEntry formatEther toString env st address_ symbol = Ok v ->
            json_position_symbol v = symbol /\
            exists h, getUserHealthFactor env st symbol address_ = Ok h /\
              v = mkPositionJson symbol
                    (formatEther (supplied (readPosition st address_ symbol)))
                    (formatEther (borrowed (readPosition st address_ symbol)))
                    (toString (lastUpdateTimestamp (readPosition st address_ symbol)))
                    (toString h)).
  { intros symbol v H. unfold positionEntry in H. cbn zeta in H.
    apply bind_Ok in H as (h & Hh & H). injection H as <-. eauto. }
  assert (Hfail : forall symbol e,
            positionEntry formatEther toString env st address_ symbol = Err e <->
            getUserHealthFactor env st symbol address_ = Err e).
  { intros symbol e. unfold positionEntry. cbn zeta.
    destruct (getUserHealthFactor env st symbol address_); cbn; split; congruence. }
  assert (H500 : api_user formatEther toString env st address_
                 = res_status_500 "Failed to fetch user data" <->
                 exists symbol e, In symbol (getAllAssets st) /\
                                  getUserHealthFactor env st symbol address_ = Err e).
  { unfold api_user. cbn zeta. split.
    - intros H. destruct (mapM _ _) as [k|e] eqn:E; [discriminate H|].
      destruct (proj1 (all_Err _ _) (ex_intro _ e E)) as (x & e' & Hin & Hx).
      apply Hfail in Hx. eauto.
    - intros (symbol & e & Hin & Hx). apply Hfail in Hx.
      destruct (proj2 (all_Err _ _) (ex_intro _ symbol (ex_intro _ e (conj Hin Hx))))
        as [e' ->].
      reflexivity. }
  assert (Hjson : forall body, api_user formatEther toString env st address_ = res_json body ->
            Forall2 (fun x y => positionEntry formatEther toString env st address_ x = Ok y)
                    (getAllAssets st) body).
  { intros body H. unfold api_user in H. cbn zeta in H.
    destruct (mapM _ _) as [k|e] eqn:E; [|discriminate H]. injection H as <-.
    now apply all_Ok. }
  split; [|split].
  - intros body H. apply Hjson in H. split.
    + apply (Forall2_fst_map _ _ _ _ H). intros x y Hxy. now apply Hentry in Hxy.
    + apply (Forall2_snd_Forall _ _ _ _ H). intros x y Hxy.
      apply Hentry in Hxy as (_ & h & Hh & ->). cbn. exists h. repeat split; auto.
  - exact H500.
  - intros Hdebt.
    destruct (mapM (positionEntry formatEther toString env st address_) (getAllAssets st))
      as [body|e] eqn:E.
    + exists body. split; [unfold api_user; cbn zeta; now rewrite E|]. apply all_Ok in E.
      assert (Hin : forall x y, In x (getAllAssets st) ->
                positionEntry formatEther toString env st address_ x = Ok y ->
                json_healthFactor y = toString MAX_UINT256).
      { intros x y Hx Hxy. apply Hentry in Hxy as (_ & h & Hh & ->). cbn.
        unfold getUserHealthFactor in Hh. rewrite (Hdebt x Hx) in Hh. cbn in Hh.
        now injection Hh as <-. }
      exact (Forall2_snd_Forall_In _ _ _ _ E Hin).
    + exfalso. destruct (proj1 (all_Err _ _) (ex_intro _ e E)) as (x & e' & Hin & Hx).
      apply Hfail in Hx. unfold getUserHealthFactor in Hx. rewrite (Hdebt x Hin) in Hx.
      discriminate Hx.
Qed.

End ServerFacts.

(** ** Tokens and interest *)

Lemma accrued_debt (env : Env) (st st1 : State) (sym : string) (u : address) :
  _updateInterest env st sym u = Ok st1 ->
  borrowed (readPosition st1 u sym) = debtDue env st sym u.
Proof.
  intros H. apply _updateInterest_moved in H.
  rewrite (moved_readPosition _ _ _ _ _ _ _ u sym H), decide_True by done. reflexivity.
Qed.

(** X22: where the liquidity of an asset comes from.  A successful supply,
    withdraw, borrow, repay or liquidate changes asset.totalSupplied -
    asset.totalBorrowed by the tokens the call pulls in minus the tokens it
    sends out, plus the supply interest minus the borrow interest it accrues on
    the position.  The amounts are the ones handed to the token: transferFrom
    was called for the amount coming in and transfer for the amount going out,
    at the asset's token, and both returned true.  Interest is the only change
    of the books that no token transfer backs. *)
Theorem liquidity_moves_by_tokens_and_interest
    (env : Env) (st : State) (c : Call) (st' : State) (u : address) (sym : string) :
  exec env st c = Ok st' -> target env c = Some (u, sym) ->
  let a := readAsset st sym in
  let a' := readAsset st' sym in
  (totalSupplied a' - totalBorrowed a') - (totalSupplied a - totalBorrowed a)
  = tokens_in env st c - tokens_out env st c
    + supplyInterestDue env st sym u - borrowInterestDue env st sym u /\
  (tokens_in env st c <> 0 ->
   token_transferFrom env (tokenAddress a) (msg_sender env) (this env) (tokens_in env st c)
   = Some true) /\
  (tokens_out env st c <> 0 ->
   token_transfer env (tokenAddress a) (msg_sender env) (tokens_out env st c) = Some true).
Proof.
  intros H T a a'.
  assert (Hbooks : forall ds db, moved st sym u ds db (block_timestamp env) st' ->
            (totalSupplied a' - totalBorrowed a') - (totalSupplied a - totalBorrowed a)
            = ds - db).
  { intros ds db M. unfold a', a.
    rewrite (moved_readAsset _ _ _ _ _ _ _ sym M), decide_True by done. cbn. lia. }
  destruct c; cbn in T, H; try discriminate; injection T as <- <-;
    cbn [tokens_in tokens_out].
  - rewrite (Hbooks _ _ (supply_moved _ _ _ _ _ H)). split; [lia|].
    apply supply_Ok in H as (st1 & _ & _ & Hacc & Htr & _). cbn zeta in Htr.
    destruct (accrued_same_feed _ _ _ _ _ Hacc) as [_ Et]. rewrite Et in Htr.
    split; [intros _; exact Htr | intros Hne; now contradiction Hne].
  - rewrite (Hbooks _ _ (withdraw_moved _ _ _ _ _ H)). split; [lia|].
    apply withdraw_Ok in H as (st1 & _ & _ & _ & Hacc & _ & _ & _ & Htr & _). cbn zeta in Htr.
    destruct (accrued_same_feed _ _ _ _ _ Hacc) as [_ Et]. rewrite Et in Htr.
    split; [intros Hne; now contradiction Hne | intros _; exact Htr].
  - rewrite (Hbooks _ _ (borrow_moved _ _ _ _ _ H)). split; [lia|].
    apply borrow_Ok in H as (st1 & _ & _ & _ & _ & Hacc & _ & _ & _ & Htr & _).
    cbn zeta in Htr.
    destruct (accrued_same_feed _ _ _ _ _ Hacc) as [_ Et]. rewrite Et in Htr.
    split; [intros Hne; now contradiction Hne | intros _; exact Htr].
  - rewrite (Hbooks _ _ (repay_moved _ _ _ _ _ H)). unfold debtDue. split; [lia|].
    apply repay_Ok in H as (st1 & _ & _ & _ & Hacc & Htr & _). cbn zeta in Htr.
    destruct (accrued_same_feed _ _ _ _ _ Hacc) as [_ Et].
    rewrite Et, (accrued_debt _ _ _ _ _ Hacc) in Htr.
    split; [intros _; exact Htr | intros Hne; now contradiction Hne].
  - pose proof (liquidate_pays_out _ _ _ _ _ _ H) as (st1 & P & seize & Hacc & HP & Hs & Hout).
    destruct (getAssetPrice_Ok _ _ _ _ HP) as (_ & _ & _ & _ & HPpos & _).
    apply collateralToSeize_Ok in Hs; [|exact HPpos].
    destruct (accrued_same_feed _ _ _ _ _ Hacc) as [_ Et].
    rewrite (accrued_debt _ _ _ _ _ Hacc) in Hs. rewrite Et, Hs in Hout.
    pose proof (liquidate_moved _ _ _ _ _ _ H) as M. cbn zeta in M.
    destruct M as (seize' & Es & _ & M). rewrite (Hbooks _ _ M), Es. unfold debtDue.
    split; [lia|].
    apply liquidate_Ok in H as (st1' & _ & _ & _ & _ & _ & Hacc' & _ & _ & _ & _ & Hin & _).
    cbn zeta in Hin. rewrite Hacc in Hacc'. injection Hacc' as <-.
    rewrite Et, (accrued_debt _ _ _ _ _ Hacc) in Hin.
    split; intros _; assumption.
Qed.

Lemma liquidity_moves_by_tokens_and_interest_witness :
  (totalSupplied (readAsset liquidated "ETH") - totalBorrowed (readAsset liquidated "ETH"))
  - (totalSupplied (readAsset grown "ETH") - totalBorrowed (readAsset grown "ETH"))
  = 900 - 990 + 0 - 0 /\
  token_transfer (honest_env 3 after_146_days 2000) 5 3 990 = Some true.
Proof.
  assert (E : exec (honest_env 3 after_146_days 2000) grown (call_liquidate 2 "ETH" 900)
              = Ok liquidated) by (vm_compute; reflexivity).
  destruct (liquidity_moves_by_tokens_and_interest (honest_env 3 after_146_days 2000) grown
              (call_liquidate 2 "ETH" 900) liquidated 2 "ETH" E eq_refl) as (Hb & _ & Hout).
  split.
  - rewrite Hb. vm_compute. reflexivity.
  - apply Hout. vm_compute. discriminate.
Defined.
